(** * Retrieval and query-routing engine of the product finder

    A shallow embedding of [app/search_engine.py] (corpus builder, price
    constraint parser, retrieval loop, chat router) and of the rebuild handler
    of [app/main.py], followed by the properties of the specification that
    were checked against it.

    Conventions of the embedding.
    - Python text is a list of characters ([str]).  The model is exact on
      ASCII text: [lower], [strip], [split], the regular-expression classes
      [\s] and [\d] are the ASCII parts of their Python counterparts; a
      character outside ASCII is neither a letter, a digit nor whitespace
      here.
    - Python floats are exact rationals ([Q]).  Every finite double is a
      rational, and reading a decimal numeral as a double is monotone, so the
      comparisons the code makes are the comparisons made here whenever the
      numerals involved have at most 15 significant digits.
    - A raised exception is a value: functions that can raise return
      [result].
    - scikit-learn and the generative service are collaborators outside the
      repository; they are parameters of the development. *)

From Stdlib Require Import List Bool Arith Lia ZArith QArith Ascii String.
From Stdlib Require Import Sorting.Sorted Sorting.Permutation.
Import ListNotations.

Set Implicit Arguments.

(** ** Python values and exceptions *)

Inductive pyexn : Type :=
| ValueError
| IndexError.

Inductive result (A : Type) : Type :=
| Ok (a : A)
| Raise (e : pyexn).

Arguments Ok {A} a.
Arguments Raise {A} e.

Definition bind {A B : Type} (m : result A) (f : A -> result B) : result B :=
  match m with
  | Ok a => f a
  | Raise e => Raise e
  end.

Notation "x <- m ;; k" := (bind m (fun x => k))
  (at level 61, m at next level, right associativity).

(** ** Text *)

Module PyStr.

Definition str : Type := list ascii.

Definition py (s : string) : str := list_ascii_of_string s.

Definition code (c : ascii) : nat := nat_of_ascii c.

(** [str.isspace] on ASCII: tab, newline, vertical tab, form feed, carriage
    return, the four separators 0x1c-0x1f and the blank. *)
Definition is_space (c : ascii) : bool :=
  let n := code c in
  ((9 <=? n) && (n <=? 13)) || ((28 <=? n) && (n <=? 32)).

Definition is_digit (c : ascii) : bool :=
  let n := code c in (48 <=? n) && (n <=? 57).

Definition is_upper (c : ascii) : bool :=
  let n := code c in (65 <=? n) && (n <=? 90).

Definition lower_char (c : ascii) : ascii :=
  if is_upper c then ascii_of_nat (code c + 32) else c.

(** [s.lower()] *)
Definition lower (s : str) : str := map lower_char s.

Fixpoint lstrip (s : str) : str :=
  match s with
  | c :: s' => if is_space c then lstrip s' else s
  | [] => []
  end.

Definition rstrip (s : str) : str := rev (lstrip (rev s)).

(** [s.strip()] *)
Definition strip (s : str) : str := rstrip (lstrip s).

Definition str_eqb (a b : str) : bool :=
  if list_eq_dec ascii_dec a b then true else false.

Fixpoint starts_with (p s : str) : bool :=
  match p, s with
  | [], _ => true
  | a :: p', b :: s' => Ascii.eqb a b && starts_with p' s'
  | _ :: _, [] => false
  end.

(** [needle in hay] *)
Fixpoint contains (needle hay : str) : bool :=
  starts_with needle hay ||
  match hay with
  | [] => false
  | _ :: hay' => contains needle hay'
  end.

(** [any(word in text for word in words)] *)
Definition any_in (words : list str) (text : str) : bool :=
  existsb (fun w => contains w text) words.

(** [s.split()]: the maximal runs of characters that are not whitespace.
    [cur] is the run being read, in reverse. *)
Fixpoint split_from (cur : str) (s : str) : list str :=
  match s with
  | [] => match cur with [] => [] | _ => [rev cur] end
  | c :: s' =>
      if is_space c
      then match cur with
           | [] => split_from [] s'
           | _ => rev cur :: split_from [] s'
           end
      else split_from (c :: cur) s'
  end.

Definition split (s : str) : list str := split_from [] s.

(** [sep.join(parts)] *)
Fixpoint join (sep : str) (parts : list str) : str :=
  match parts with
  | [] => []
  | [p] => p
  | p :: rest => p ++ sep ++ join sep rest
  end.

(** [s.replace(',', '')] *)
Definition remove_commas (s : str) : str :=
  filter (fun c => negb (Ascii.eqb c ","%char)) s.

End PyStr.
Import PyStr.

(** ** Numerals *)

Module Num.

Definition digit_val (c : ascii) : Z := Z.of_nat (code c) - 48.

(** Value of a run of decimal digits, most significant first. *)
Definition digits_val (s : str) : Z :=
  fold_left (fun acc c => 10 * acc + digit_val c)%Z s 0%Z.

(** [float(s)] for [s] made of digits only, as the constraint parser calls
    it: the empty text raises [ValueError]. *)
Definition float_of_digits (s : str) : result Q :=
  match s with
  | [] => Raise ValueError
  | _ => if forallb is_digit s then Ok (inject_Z (digits_val s)) else Raise ValueError
  end.

(** [float(s)] for [s] made of digits and dots, as the price extractor calls
    it on a cleaned cell: one run of digits, or digits around a single dot
    with a digit on at least one side. *)
Fixpoint split_dot (s : str) : str * option str :=
  match s with
  | [] => ([], None)
  | c :: s' =>
      if Ascii.eqb c "."%char then ([], Some s')
      else let '(i, f) := split_dot s' in (c :: i, f)
  end.

Fixpoint pow10 (n : nat) : positive :=
  match n with
  | O => 1%positive
  | S n' => (10 * pow10 n')%positive
  end.

Definition float_of_decimal (s : str) : result Q :=
  let '(i, frac) := split_dot s in
  let f := match frac with Some f => f | None => [] end in
  match i ++ f with
  | [] => Raise ValueError
  | _ =>
      if forallb is_digit (i ++ f)
      then Ok (Qmake (digits_val (i ++ f)) (pow10 (List.length f)))
      else Raise ValueError
  end.

(** Python's [min(a, b)] and [max(a, b)]: the first argument wins a tie. *)
Definition py_min (a b : Q) : Q := if Qlt_le_dec b a then b else a.
Definition py_max (a b : Q) : Q := if Qlt_le_dec a b then b else a.

(** Truth value of an [Optional[float]]: [None] and [0.0] are false. *)
Definition truthy (x : option Q) : bool :=
  match x with
  | None => false
  | Some q => negb (Qeq_bool q 0)
  end.

End Num.
Import Num.

(** ** Regular expressions

    The fragment of Python's [re] that the constraint parser uses, with the
    backtracking order of [re]: alternatives left to right, greedy
    repetition, leftmost match. *)

Module Re.

Inductive regex : Type :=
| Lit (s : str)                 (* literal text *)
| Cat (r1 r2 : regex)           (* r1 r2 *)
| Alt (r1 r2 : regex)           (* r1|r2 *)
| Star (cls : ascii -> bool)    (* [cls]* *)
| Plus (cls : ascii -> bool)    (* [cls]+ *)
| Opt (r : regex)               (* r? *)
| Grp (n : nat) (r : regex).    (* capturing group number n *)

Definition captures : Type := list (nat * str).

Fixpoint drop_prefix (p s : str) : option str :=
  match p, s with
  | [], _ => Some s
  | a :: p', b :: s' => if Ascii.eqb a b then drop_prefix p' s' else None
  | _ :: _, [] => None
  end.

(** Greedy repetition of a character class: take one more character first,
    give it back when the rest of the pattern fails. *)
Fixpoint star_greedy {A : Type} (cls : ascii -> bool) (s : str)
    (k : str -> option A) : option A :=
  match s with
  | c :: s' =>
      if cls c
      then match star_greedy cls s' k with
           | Some r => Some r
           | None => k s
           end
      else k s
  | [] => k []
  end.

(** [rmatch r s caps k]: match [r] at the start of [s], then continue with
    [k] on the rest; the first success in backtracking order is returned. *)
Fixpoint rmatch (r : regex) (s : str) (caps : captures)
    (k : str -> captures -> option captures) : option captures :=
  match r with
  | Lit l =>
      match drop_prefix l s with
      | Some s' => k s' caps
      | None => None
      end
  | Cat r1 r2 => rmatch r1 s caps (fun s' caps' => rmatch r2 s' caps' k)
  | Alt r1 r2 =>
      match rmatch r1 s caps k with
      | Some c => Some c
      | None => rmatch r2 s caps k
      end
  | Star cls => star_greedy cls s (fun s' => k s' caps)
  | Plus cls =>
      match s with
      | c :: s' => if cls c then star_greedy cls s' (fun s'' => k s'' caps) else None
      | [] => None
      end
  | Opt r1 =>
      match rmatch r1 s caps k with
      | Some c => Some c
      | None => k s caps
      end
  | Grp n r1 =>
      rmatch r1 s caps
        (fun s' caps' => k s' ((n, firstn (List.length s - List.length s') s) :: caps'))
  end.

Definition match_here (r : regex) (s : str) : option captures :=
  rmatch r s [] (fun _ caps => Some caps).

(** [re.search(r, s)]: the match at the leftmost position that has one. *)
Fixpoint search (r : regex) (s : str) : option captures :=
  match match_here r s with
  | Some c => Some c
  | None =>
      match s with
      | [] => None
      | _ :: s' => search r s'
      end
  end.

(** [m.group(n)] of a successful match. *)
Fixpoint group (c : captures) (n : nat) : str :=
  match c with
  | [] => []
  | (i, s) :: c' => if (i =? n)%nat then s else group c' n
  end.

Fixpoint alts (rs : list regex) : regex :=
  match rs with
  | [] => Lit []
  | [r] => r
  | r :: rs' => Alt r (alts rs')
  end.

Fixpoint cats (rs : list regex) : regex :=
  match rs with
  | [] => Lit []
  | [r] => r
  | r :: rs' => Cat r (cats rs')
  end.

End Re.
Import Re.

(** ** Constraint parser: [parse_price_constraints] *)

(** [[\d,]] *)
Definition digit_or_comma (c : ascii) : bool :=
  is_digit c || Ascii.eqb c ","%char.

(** The rupee sign, U+20B9, as its UTF-8 bytes. *)
Definition rupee : str := ["226"%char; "130"%char; "185"%char].

(** [between\s+([\d,]+)\s*(?:and|-)\s*([\d,]+)] *)
Definition re_between : regex :=
  cats [Lit (py "between"); Plus is_space; Grp 1 (Plus digit_or_comma);
        Star is_space; Alt (Lit (py "and")) (Lit (py "-"));
        Star is_space; Grp 2 (Plus digit_or_comma)].

(** [([\d,]+)\s*-\s*([\d,]+)] *)
Definition re_range : regex :=
  cats [Grp 1 (Plus digit_or_comma); Star is_space; Lit (py "-");
        Star is_space; Grp 2 (Plus digit_or_comma)].

Definition max_keywords : list str :=
  [py "under"; py "below"; py "less than"; py "max"; py "maximum"].

Definition min_keywords : list str :=
  [py "over"; py "above"; py "more than"; py "min"; py "minimum"].

(** [(?:kw1|kw2|...)\s*(rupee)?\s*([\d,]+)] *)
Definition re_bound (keywords : list str) : regex :=
  cats [alts (map Lit keywords); Star is_space; Opt (Lit rupee);
        Star is_space; Grp 1 (Plus digit_or_comma)].

Definition re_under : regex := re_bound max_keywords.
Definition re_over : regex := re_bound min_keywords.

(** [float(m.group(n).replace(',', ''))] *)
Definition group_float (m : captures) (n : nat) : result Q :=
  float_of_digits (remove_commas (group m n)).

Definition PriceConstraint : Type := (option Q * option Q)%type.

Definition parse_price_constraints (query : str) : result PriceConstraint :=
  let q := lower query in
  match search re_between q with
  | Some m =>
      low <- group_float m 1 ;;
      high <- group_float m 2 ;;
      Ok (Some (py_min low high), Some (py_max low high))
  | None =>
  match search re_range q with
  | Some m =>
      low <- group_float m 1 ;;
      high <- group_float m 2 ;;
      Ok (Some (py_min low high), Some (py_max low high))
  | None =>
  match search re_under q with
  | Some m =>
      hi <- group_float m 1 ;;
      Ok (None, Some hi)
  | None =>
  match search re_over q with
  | Some m =>
      lo <- group_float m 1 ;;
      Ok (Some lo, None)
  | None => Ok (None, None)
  end end end end.

(** ** Catalog records

    The corpus builder and the price extractor look at a cell only through
    [pd.isna(val)] and [str(val)], so a cell is [None] when it is missing and
    [Some s] with [s = str(val)] otherwise.  A row is the sequence of its
    (column label, cell) pairs in column order, as [row.items()] yields them;
    a label can occur more than once, as it does when two column names of a
    CSV file are equal once normalized ("Price" and "price").  A data frame
    is the sequence of (index label, row) pairs that [df.iterrows()] yields,
    and the catalog is the sequence of (category, data frame) pairs of
    [data.items()]. *)

Definition Cell : Type := option str.
Definition Row : Type := list (str * Cell).
Definition DataFrame : Type := list (Z * Row).
Definition Catalog : Type := list (str * DataFrame).

Record Meta : Type := mkMeta {
  category : str;
  index : Z;
  row : Row
}.

(** ** Corpus builder: [build_corpus_from_data] *)

Definition important_fields : list str :=
  [py "name"; py "model"; py "brand"; py "title"; py "processor"; py "ram";
   py "storage"; py "memory"; py "display"; py "camera"; py "battery"; py "os"].

(** [3 if any(imp in str(col) for imp in important_fields) else 1] *)
Definition weight (col : str) : nat :=
  if existsb (fun imp => contains imp col) important_fields then 3 else 1.

(** One turn of the loop over [row.items()], on the list [parts]. *)
Definition add_field (parts : list str) (item : str * Cell) : list str :=
  let '(col, val) := item in
  match val with
  | None => parts
  | Some v =>
      let val_str := strip v in
      match val_str with
      | [] => parts
      | _ =>
          let parts := parts ++ [col] in
          parts ++ repeat val_str (weight col)
      end
  end.

Definition document_parts (cat : str) (r : Row) : list str :=
  fold_left add_field r (repeat cat 3).

Definition document_text (cat : str) (r : Row) : str :=
  join (py " ") (document_parts cat r).

(** One turn of the loop over [df.iterrows()], on [(corpus, metadata)]. *)
Definition add_row (cat : str) (acc : list str * list Meta) (item : Z * Row)
    : list str * list Meta :=
  let '(corpus, metadata) := acc in
  let '(idx, r) := item in
  (corpus ++ [document_text cat r], metadata ++ [mkMeta cat idx r]).

(** One turn of the loop over [data.items()]. *)
Definition add_frame (acc : list str * list Meta) (item : str * DataFrame)
    : list str * list Meta :=
  let '(cat, df) := item in
  fold_left (add_row cat) df acc.

Definition build_corpus_from_data (data : Catalog) : list str * list Meta :=
  fold_left add_frame data ([], []).

(** ** Price extraction: [extract_price_value] *)

(** What [row.get(col)] and [row[col]] give: the cell under the label when
    the label occurs once in the row, and the Series of the cells under it
    when it occurs more than once. *)
Inductive Lookup : Type :=
| Scalar (c : Cell)
| Several (cells : list Cell).

Definition cells_under (r : Row) (col : str) : list Cell :=
  map snd (filter (fun kv => str_eqb (fst kv) col) r).

(** [row.get(col)]; a label that the row does not have gives the default,
    [None]. *)
Definition row_get (r : Row) (col : str) : Lookup :=
  match cells_under r col with
  | [] => Scalar None
  | [c] => Scalar c
  | cells => Several cells
  end.

(** [re.sub(r'[^\d\.]', '', s)] *)
Definition digits_and_dots (s : str) : str :=
  filter (fun c => is_digit c || Ascii.eqb c "."%char) s.

(** The loop over [row.index]; [cols] is what is left of it.  On a Series
    the test [if pd.isna(val)] raises [ValueError] (the truth value of a
    Series is ambiguous), outside the [try] that guards [float]. *)
Fixpoint extract_price_from (r : Row) (cols : list str) : result (option Q) :=
  match cols with
  | [] => Ok None
  | col :: cols' =>
      if contains (py "price") (lower col)
      then match row_get r col with
           | Several _ => Raise ValueError
           | Scalar None => extract_price_from r cols'
           | Scalar (Some v) =>
               match digits_and_dots v with
               | [] => extract_price_from r cols'
               | s =>
                   match float_of_decimal s with
                   | Ok x => Ok (Some x)
                   | Raise _ => extract_price_from r cols'
                   end
               end
           end
      else extract_price_from r cols'
  end.

Definition extract_price_value (r : Row) : result (option Q) :=
  extract_price_from r (map fst r).

(** [d[key] = value] on a dict kept in insertion order: a key that the dict
    has keeps its place and takes the new value. *)
Fixpoint dict_set {V : Type} (d : list (str * V)) (key : str) (value : V)
    : list (str * V) :=
  match d with
  | [] => [(key, value)]
  | (k, v) :: d' =>
      if str_eqb k key then (k, value) :: d'
      else (k, v) :: dict_set d' key value
  end.

(** What [row_to_json_safe_dict] stores for a cell: a missing cell becomes
    [None], any other cell is kept (an infinite Python float, which the code
    also turns into [None], is not told apart from other numbers at the
    abstraction of cells used here). *)
Definition json_safe (c : Cell) : Cell :=
  match c with
  | None => None
  | Some v => Some v
  end.

(** [row_to_json_safe_dict]: the loop over [row.items()] that fills the
    dict; under a label that the row repeats the dict holds one entry, with
    the last of the cells. *)
Definition row_to_json_safe_dict (r : Row) : Row :=
  fold_left (fun result kv => dict_set result (fst kv) (json_safe (snd kv))) r [].

(** ** Retrieval: [retrieve_with_index] *)

Record Hit : Type := mkHit {
  score : Q;
  data : Row;
  meta_category : str;
  meta_index : Z
}.

(** The double nearest to 0.05, the confidence threshold. *)
Definition threshold : Q := 3602879701896397 # 72057594037927936.

Definition truthy_str (s : option str) : bool :=
  match s with
  | Some (_ :: _) => true
  | _ => false
  end.

(** The keyword groups of the category detection. *)
Definition detect_category (category_filter : option str) (query_lower : str)
    : option str :=
  if negb (truthy_str category_filter) then
    if any_in [py "headphone"; py "headset"; py "earbud"] query_lower
    then Some (py "headphone")
    else if any_in [py "mobile"; py "smartphone"; py "phone"] query_lower
    then Some (py "mobile")
    else if any_in [py "laptop"; py "notebook"; py "pc"] query_lower
    then Some (py "laptop")
    else category_filter
  else category_filter.

(** [sims.argsort()]: the positions of [sims] in ascending order of score.
    numpy leaves the order of equal scores to the sorting routine; this one
    is insertion sort, which keeps equal scores in position order. *)
Fixpoint insert_by (sims : list Q) (i : nat) (l : list nat) : list nat :=
  match l with
  | [] => [i]
  | j :: l' =>
      if Qle_bool (nth i sims 0) (nth j sims 0) then i :: l
      else j :: insert_by sims i l'
  end.

Definition argsort (sims : list Q) : list nat :=
  fold_right (insert_by sims) [] (seq 0 (List.length sims)).

(** [sims.argsort()[::-1][:min(200, len(sims))]] *)
Definition candidate_indices (sims : list Q) : list nat :=
  firstn (Nat.min 200 (List.length sims)) (rev (argsort sims)).

Definition Qlt_bool (a b : Q) : bool := negb (Qle_bool b a).

(** [(min_p and price_val and price_val < min_p) or
     (max_p and price_val and price_val > max_p)] *)
Definition price_rejects (min_p max_p price_val : option Q) : bool :=
  (truthy min_p && truthy price_val &&
     match price_val, min_p with
     | Some p, Some lo => Qlt_bool p lo
     | _, _ => false
     end)
  ||
  (truthy max_p && truthy price_val &&
     match price_val, max_p with
     | Some p, Some hi => Qlt_bool hi p
     | _, _ => false
     end).

Definition make_hit (sc : Q) (meta : Meta) : Hit :=
  let row_dict := row_to_json_safe_dict (row meta) in
  mkHit sc row_dict (category meta) (index meta).

Section Loop.

Variable sims : list Q.
Variable metadata : list Meta.
Variable category_filter : option str.
Variables min_p max_p : option Q.
Variable top_k : Z.

(** The loop over [candidate_indices]; [results] is the list built so far. *)
Fixpoint retrieve_loop (cands : list nat) (results : list Hit)
    : result (list Hit) :=
  match cands with
  | [] => Ok results
  | idx :: rest =>
      let sc := nth idx sims 0 in
      if Qlt_bool sc threshold then retrieve_loop rest results
      else
        match nth_error metadata idx with
        | None => Raise IndexError
        | Some meta =>
            if truthy_str category_filter &&
               negb (str_eqb (category meta)
                             (match category_filter with Some c => c | None => [] end))
            then retrieve_loop rest results
            else
              price_val <- extract_price_value (row meta) ;;
              if price_rejects min_p max_p price_val
              then retrieve_loop rest results
              else
                let results := results ++ [make_hit sc meta] in
                if (top_k <=? Z.of_nat (List.length results))%Z
                then Ok results
                else retrieve_loop rest results
        end
  end.

End Loop.

Section Engine.

(** The fitted vectorizer and the TF-IDF matrix are values of scikit-learn.
    [cosine_sims v m q] stands for
    [cosine_similarity(v.transform([q]), m).flatten()], and [fit_transform]
    for fitting a fresh [TfidfVectorizer] on a corpus, which raises when no
    term survives.  [get_gemini_response] is the generative service with its
    default arguments. *)
Variables Vectorizer Matrix : Type.
Variable cosine_sims : Vectorizer -> Matrix -> str -> list Q.
Variable fit_transform : list str -> result (Vectorizer * Matrix).
Variable get_gemini_response : str -> str.

Definition retrieve_with_index (query : str) (vectorizer : option Vectorizer)
    (tfidf_matrix : option Matrix) (metadata : list Meta) (top_k : Z)
    (category_filter : option str) : result (list Hit) :=
  match vectorizer, tfidf_matrix with
  | Some v, Some m =>
      let query_lower := lower query in
      let category_filter := detect_category category_filter query_lower in
      let sims := cosine_sims v m query in
      let cands := candidate_indices sims in
      pc <- parse_price_constraints query ;;
      let '(min_p, max_p) := pc in
      retrieve_loop sims metadata category_filter min_p max_p top_k cands []
  | _, _ => Ok []
  end.

(** ** Index builder: [build_tfidf_index] *)

Definition build_tfidf_index (corpus : list str)
    : option Vectorizer * option Matrix :=
  match fit_transform corpus with
  | Ok (vectorizer, tfidf_matrix) => (Some vectorizer, Some tfidf_matrix)
  | Raise _ => (None, None)
  end.

(** ** Intent router: [generate_chat_response] *)

(** What the router does besides returning: lines printed and prompts sent
    to the generative service, in order. *)
Inductive Event : Type :=
| Printed (line : str)
| AskedGemini (prompt : str).

Record Reply : Type := mkReply {
  rtype : str;
  response : str;
  results : option (list Hit)
}.

Definition greetings : list str := [py "hello"; py "hi"; py "hey"].
Definition farewells : list str := [py "bye"; py "goodbye"; py "see you"].
Definition thanks : list str := [py "thank"; py "thanks"; py "appreciate"].
Definition help_words : list str := [py "help"; py "guide"; py "what can you do"].
Definition identity_words : list str := [py "who are you"; py "what are you"].

Definition product_keywords : list str :=
  [py "phone"; py "mobile"; py "laptop"; py "computer"; py "headphone";
   py "earphone"; py "gaming"; py "show"; py "find"; py "search";
   py "looking for"; py "compare"; py "vs"; py "or"; py "under"; py "budget";
   py "price"; py "cost"; py "how much"; py "cheap"; py "expensive"].

Definition greeting_reply : str :=
  py "Hello. How may I assist you with product search or questions today?".
Definition farewell_reply : str :=
  py "Goodbye. If you need further assistance, please ask anytime.".
Definition thanks_reply : str :=
  py "You're welcome. Would you like help with anything else?".
Definition help_reply : str :=
  py "I can help you find products, filter by price, or compare items. "
  ++ py "For example: 'Show me Dell laptops with 16GB RAM under 80000'.".
Definition identity_reply : str :=
  py "I am a product search assistant that helps locate and compare "
  ++ py "electronics from the available dataset.".
Definition product_reply : str :=
  py "Here are the most relevant products matching your query:".

Definition general (text : str) : Reply := mkReply (py "general") text None.

(** The prompt of the fallback after an empty product search. *)
Definition no_match_prompt (query : str) : str :=
  py "I could not find matching products in the store for the following query: '"
  ++ query
  ++ py "'. Please provide general guidance based on product knowledge: "
  ++ query.

Definition generate_chat_response (query : str) (vectorizer : option Vectorizer)
    (tfidf_matrix : option Matrix) (metadata : list Meta)
    : list Event * result Reply :=
  let query_lower := strip (lower query) in
  if any_in greetings query_lower && (List.length (split query_lower) <? 3)%nat
  then ([], Ok (general greeting_reply))
  else if any_in farewells query_lower
  then ([], Ok (general farewell_reply))
  else if any_in thanks query_lower
  then ([], Ok (general thanks_reply))
  else if any_in help_words query_lower
  then ([], Ok (general help_reply))
  else if any_in identity_words query_lower
  then ([], Ok (general identity_reply))
  else
    let is_product_query := any_in product_keywords query_lower in
    if is_product_query then
      let log := [Printed (py "INFO: Routing to product search.")] in
      match retrieve_with_index query vectorizer tfidf_matrix metadata 3 None with
      | Raise e => (log, Raise e)
      | Ok [] =>
          let prompt := no_match_prompt query in
          (log ++ [Printed (py "INFO: No product results, falling back to Gemini.");
                   AskedGemini prompt],
           Ok (general (get_gemini_response prompt)))
      | Ok hits =>
          (log, Ok (mkReply (py "product") product_reply (Some hits)))
      end
    else
      ([Printed (py "INFO: Routing to Gemini for general conversation.");
        AskedGemini query],
       Ok (general (get_gemini_response query))).

(** ** Rebuild handler: [admin_rebuild] of [app/main.py] *)

(** The module globals of [app/main.py] and the four artifacts under
    [persist/]. *)
Record Persisted : Type := mkPersisted {
  p_vectorizer : Vectorizer;
  p_matrix : Matrix;
  p_metadata : list Meta;
  p_corpus : list str
}.

Record Server : Type := mkServer {
  DATA : Catalog;
  CORPUS : list str;
  METADATA : list Meta;
  VECTORIZER : option Vectorizer;
  TFIDF_MATRIX : option Matrix;
  disk : option Persisted
}.

Inductive HttpReply : Type :=
| Forbidden                       (* 403 *)
| Rebuilt (data_loaded : bool).   (* 200, "index rebuilt" *)

(** [authenticated] is the outcome of [is_admin_authenticated()] and [loaded]
    that of [search_engine.load_data()] for this request.  The four
    [joblib.dump] calls are taken to succeed. *)
Definition admin_rebuild (authenticated : bool) (loaded : option Catalog)
    (s : Server) : Server * HttpReply :=
  if negb authenticated then (s, Forbidden)
  else
    let data := match loaded with Some d => d | None => [] end in
    let '(corpus, metadata) := build_corpus_from_data data in
    let '(vectorizer, tfidf_matrix) := build_tfidf_index corpus in
    let disk' :=
      match vectorizer, tfidf_matrix with
      | Some v, Some m => Some (mkPersisted v m metadata corpus)
      | _, _ => disk s
      end in
    (mkServer data corpus metadata vectorizer tfidf_matrix disk',
     Rebuilt (match data with [] => false | _ => true end)).

End Engine.

(** ** Notions used to state the properties *)

(** [t] is what is left of [s] after some of its first characters. *)
Definition suffix_of (t s : str) : Prop := exists pre, s = pre ++ t.

(** The records of a catalog in the order the corpus builder visits them. *)
Definition records_of (data : Catalog) : list Meta :=
  flat_map (fun item : str * DataFrame =>
              map (fun ir : Z * Row => mkMeta (fst item) (fst ir) (snd ir)) (snd item))
           data.

(** Scores in descending order. *)
Definition descending (l : list Q) : Prop :=
  StronglySorted (fun a b => b <= a) l.

(** What one turn of the retrieval loop decides about a candidate: no hit
    ([Ok None]), a hit ([Ok (Some h)]), or an exception: an index outside
    the metadata, or a record whose price cannot be looked up. *)
Definition candidate_hit (sims : list Q) (metadata : list Meta)
    (category_filter : option str) (min_p max_p : option Q) (idx : nat)
    : result (option Hit) :=
  if Qlt_bool (nth idx sims 0) threshold then Ok None
  else match nth_error metadata idx with
       | None => Raise IndexError
       | Some meta =>
           if truthy_str category_filter &&
              negb (str_eqb (category meta)
                            (match category_filter with Some c => c | None => [] end))
           then Ok None
           else
             price_val <- extract_price_value (row meta) ;;
             if price_rejects min_p max_p price_val then Ok None
             else Ok (Some (make_hit (nth idx sims 0) meta))
       end.

(** The document layout in the words of the specification, with the test
    that makes a field important left open: the category tag three times,
    then for each field that is neither missing nor empty its name once and
    its value three times when the field is important and once otherwise. *)
Module Spec.

Definition field_tokens (important : str -> bool) (item : str * Cell) : list str :=
  match snd item with
  | None => []
  | Some v =>
      match strip v with
      | [] => []
      | val_str => fst item :: repeat val_str (if important (fst item) then 3 else 1)
      end
  end.

Definition document_tokens (important : str -> bool) (cat : str) (r : Row)
    : list str :=
  repeat cat 3 ++ flat_map (field_tokens important) r.

(** "matched by substring, case-insensitive" *)
Definition important_ci (col : str) : bool :=
  existsb (fun imp => contains imp (lower col)) important_fields.

(** matched by substring, letter case respected *)
Definition important_cs (col : str) : bool :=
  existsb (fun imp => contains imp col) important_fields.

End Spec.

(** A stand-in for scikit-learn in worked examples: the matrix is the score
    vector itself, and fitting fails exactly on the empty corpus. *)
Module Demo.

Definition sims_of (v : unit) (m : list Q) (q : str) : list Q := m.

Definition fit (corpus : list str) : result (unit * list Q) :=
  match corpus with
  | [] => Raise ValueError
  | _ => Ok (tt, map (fun _ => 1 # 2) corpus)
  end.

Definition gemini (prompt : str) : str := py "(generated text)".

End Demo.

(** ** Recommendations: [get_recommendations] *)

(** [l[:k]] for a Python integer [k]: the first [k] items, or all but the
    last [-k] when [k] is negative. *)
Definition py_take {A : Type} (k : Z) (l : list A) : list A :=
  if (0 <=? k)%Z then firstn (Z.to_nat k) l
  else firstn (List.length l - Z.to_nat (- k)) l.

(** [sims[i] = x] on a numpy vector: out of range it raises [IndexError]. *)
Fixpoint set_item (sims : list Q) (i : nat) (x : Q) : result (list Q) :=
  match sims, i with
  | [], _ => Raise IndexError
  | _ :: rest, O => Ok (x :: rest)
  | s :: rest, S i' => rest' <- set_item rest i' x ;; Ok (s :: rest')
  end.

(** [col in row]: the row has the label. *)
Definition row_has (r : Row) (col : str) : bool :=
  existsb (fun kv => str_eqb (fst kv) col) r.

(** The double nearest to 0.1. *)
Definition recommend_threshold : Q := 3602879701896397 # 36028797018963968.

Section Recommend.

(** [str_of_missing] is what [str] gives on a missing cell ("nan" for the
    NaN of a frame read from CSV), and [str_of_series] what it gives on the
    Series of the cells under a repeated label. *)
Variable str_of_missing : str.
Variable str_of_series : list Cell -> str.

Definition cell_text (c : Lookup) : str :=
  match c with
  | Scalar (Some s) => s
  | Scalar None => str_of_missing
  | Several cells => str_of_series cells
  end.

(** The loop over ['name', 'model', 'title']: the text of the first of these
    columns that the row has, or the empty text. *)
Fixpoint display_name_from (r : Row) (cols : list str) : str :=
  match cols with
  | [] => []
  | col :: cols' =>
      if row_has r col then cell_text (row_get r col)
      else display_name_from r cols'
  end.

Definition display_name (r : Row) : str :=
  display_name_from r [py "name"; py "model"; py "title"].

(** The loop over [enumerate(metadata)]: the first position whose name is
    not empty and occurs in the title, letter case apart. *)
Fixpoint find_original (title_lower : str) (metadata : list Meta) (i : nat)
    : option nat :=
  match metadata with
  | [] => None
  | meta :: rest =>
      let name := display_name (row meta) in
      if match name with [] => false | _ => true end
         && contains (lower name) title_lower
      then Some i
      else find_original title_lower rest (S i)
  end.

Definition is_original (original_idx : option nat) (idx : nat) : bool :=
  match original_idx with
  | Some i => (idx =? i)%nat
  | None => false
  end.

Section RecommendLoop.

Variable sims : list Q.
Variable metadata : list Meta.
Variable original_idx : option nat.
Variable top_n : Z.

(** The loop over [top_indices]. *)
Fixpoint recommend_loop (cands : list nat) (results : list Hit)
    : result (list Hit) :=
  match cands with
  | [] => Ok results
  | idx :: rest =>
      if is_original original_idx idx then recommend_loop rest results
      else
        let sc := nth idx sims 0 in
        if Qle_bool sc recommend_threshold then recommend_loop rest results
        else
          match nth_error metadata idx with
          | None => Raise IndexError
          | Some meta =>
              let results := results ++ [make_hit sc meta] in
              if (top_n <=? Z.of_nat (List.length results))%Z
              then Ok results
              else recommend_loop rest results
          end
  end.

End RecommendLoop.

Variables Vectorizer Matrix : Type.
Variable cosine_sims : Vectorizer -> Matrix -> str -> list Q.

Definition get_recommendations (product_title : str) (vectorizer : Vectorizer)
    (tfidf_matrix : Matrix) (metadata : list Meta) (top_n : Z)
    : result (list Hit) :=
  let sims := cosine_sims vectorizer tfidf_matrix product_title in
  let original_idx := find_original (lower product_title) metadata 0 in
  sims <- match original_idx with
          | Some i => set_item sims i 0
          | None => Ok sims
          end ;;
  let top_indices := py_take (top_n + 1) (rev (argsort sims)) in
  recommend_loop sims metadata original_idx top_n top_indices [].

End Recommend.

(** ** Web search: [search_web_and_fetch] *)

(** What [fetch_product_from_url] returns: the fields read from the page, or
    an error text. *)
Record PageInfo : Type := mkPageInfo {
  info_title : option str;
  info_image : option str;
  info_price : option str;
  info_description : option str;
  info_url : str;
  info_error : option str
}.

Section WebSearch.

(** The two collaborators: the web search, which gives the result links for
    a query and a number of results asked for, and the page fetcher; [None]
    stands for a fetch result that Python takes for false. *)
Variable search_web_for_products : str -> Z -> list str.
Variable fetch_product_from_url : str -> option PageInfo.

Definition useful (info : PageInfo) : bool :=
  truthy_str (info_title info) || truthy_str (info_image info).

(** The loop over the links; [fetched] lists the links fetched so far. *)
Fixpoint fetch_loop (top_n : Z) (urls : list str) (fetched : list str)
    (results : list PageInfo) : list str * list PageInfo :=
  match urls with
  | [] => (fetched, results)
  | u :: rest =>
      let fetched := fetched ++ [u] in
      match fetch_product_from_url u with
      | None => fetch_loop top_n rest fetched results
      | Some info =>
          let results := if useful info then results ++ [info] else results in
          if (top_n <=? Z.of_nat (List.length results))%Z
          then (fetched, results)
          else fetch_loop top_n rest fetched results
      end
  end.

Definition search_web_and_fetch (query : str) (top_n : Z)
    : list str * list PageInfo :=
  let urls := search_web_for_products query (top_n * 4) in
  fetch_loop top_n (py_take (top_n * 3) urls) [] [].

End WebSearch.

(** ** Generative service wrapper: [get_gemini_response] *)

(** What one call of [model.generate_content] gives: an exception (also when
    no model can be selected), or a response with its text, empty when the
    response or its text is missing. *)
Inductive Attempt : Type :=
| Failed
| Generated (text : str).

Inductive GeminiEvent : Type :=
| Attempted (attempt : nat)
| Slept (seconds : Z).

Definition unavailable_text : str :=
  py "I am unable to use the generative AI service at this time. "
  ++ py "I can only provide information based on the available product data.".
Definition no_answer_text : str :=
  py "I could not generate a response for that request. "
  ++ py "Please try phrasing your question differently.".
Definition trouble_text : str :=
  py "I'm sorry, I'm having trouble connecting to the generative AI service right now.".

Section Gemini.

(** [api_key] is [os.getenv("GEMINI_API_KEY")]; [generate query n] is the
    outcome of the call made in attempt [n]; [formalize_text] is
    [_formalize_text]. *)
Variable api_key : option str.
Variable generate : str -> nat -> Attempt.
Variable formalize_text : str -> str.

Definition key_usable : bool :=
  truthy_str api_key
  && negb (str_eqb (match api_key with Some k => k | None => [] end)
                   (py "DUMMY_KEY_BECAUSE_WE_HAVE_TO")).

(** [tone and tone.lower().startswith('form')] *)
Definition formal (tone : option str) : bool :=
  match tone with
  | Some t => truthy_str tone && starts_with (py "form") (lower t)
  | None => false
  end.

(** The loop over [range(retries)]: [remaining] attempts are left and
    [attempt] is the number of the next one.  A negative [delay] makes
    [time.sleep] raise [ValueError] inside the handler. *)
Fixpoint gemini_attempts (query : str) (tone : option str) (delay : Z)
    (remaining attempt : nat) (trace : list GeminiEvent)
    : list GeminiEvent * result (option str) :=
  match remaining with
  | O => (trace, Ok None)
  | S remaining' =>
      let trace := trace ++ [Attempted attempt] in
      match generate query attempt with
      | Generated [] => (trace, Ok (Some no_answer_text))
      | Generated text =>
          (trace, Ok (Some (if formal tone then formalize_text text else text)))
      | Failed =>
          match remaining' with
          | O => (trace, Ok (Some trouble_text))
          | _ =>
              if (delay <? 0)%Z then (trace, Raise ValueError)
              else gemini_attempts query tone delay remaining' (S attempt)
                     (trace ++ [Slept delay])
          end
      end
  end.

Definition get_gemini_response_full (query : str) (tone : option str)
    (retries delay : Z) : list GeminiEvent * result (option str) :=
  if negb key_usable then ([], Ok (Some unavailable_text))
  else gemini_attempts query tone delay (Z.to_nat retries) 0 [].

End Gemini.

(** ** Admin authentication: [is_admin_authenticated] of [app/main.py] *)

(** The credentials file, the environment and the token of the server, and
    what a request carries: its [Authorization] header as (username,
    password) and the token of its header, query string and form. *)
Record Credentials : Type := mkCredentials {
  cred_username : option str;
  cred_password_hash : option str
}.

Record AdminConfig : Type := mkAdminConfig {
  stored_credentials : option Credentials;
  env_admin_user : option str;
  env_admin_pass : option str;
  ADMIN_TOKEN : option str
}.

Record AdminRequest : Type := mkAdminRequest {
  authorization : option (option str * option str);
  header_token : option str;
  arg_token : option str;
  form_token : option str
}.

(** [_check_basic_auth] *)
Definition check_basic_auth (req : AdminRequest) : option str * option str :=
  match authorization req with
  | Some (u, p) => if truthy_str u then (u, p) else (None, None)
  | None => (None, None)
  end.

(** [a or b] on optional texts *)
Definition py_or (a b : option str) : option str :=
  if truthy_str a then a else b.

Definition opt_text (a : option str) : str :=
  match a with
  | Some t => t
  | None => []
  end.

Section Auth.

(** [check_password_hash] of werkzeug. *)
Variable check_password_hash : str -> str -> bool.

Definition is_admin_authenticated (cfg : AdminConfig) (req : AdminRequest) : bool :=
  let creds := stored_credentials cfg in
  let '(u, p) := check_basic_auth req in
  let creds_set :=
    match creds with
    | Some c => truthy_str (cred_username c)
    | None => false
    end in
  if creds_set && (truthy_str u && truthy_str p) then
    check_password_hash
      (opt_text (match creds with Some c => cred_password_hash c | None => None end))
      (opt_text p)
    && str_eqb (opt_text u)
         (opt_text (match creds with Some c => cred_username c | None => None end))
  else if (truthy_str (env_admin_user cfg) && truthy_str (env_admin_pass cfg))
          && (truthy_str u && truthy_str p) then
    str_eqb (opt_text u) (opt_text (env_admin_user cfg))
    && str_eqb (opt_text p) (opt_text (env_admin_pass cfg))
  else
    let token := py_or (py_or (header_token req) (arg_token req)) (form_token req) in
    truthy_str token && truthy_str (ADMIN_TOKEN cfg)
    && str_eqb (opt_text token) (opt_text (ADMIN_TOKEN cfg)).

End Auth.

(** ** Start of the server: the module body of [app/main.py] *)

(** One artifact under [persist/]: not there, there but failing to load, or
    there with its content. *)
Inductive FileState (A : Type) : Type :=
| Absent
| Unreadable
| Stored (a : A).

Arguments Absent {A}.
Arguments Unreadable {A}.
Arguments Stored {A} a.

Definition file_exists {A : Type} (f : FileState A) : bool :=
  match f with
  | Absent => false
  | _ => true
  end.

Section Startup.

Variables Vectorizer Matrix : Type.
Variable fit_transform : list str -> result (Vectorizer * Matrix).

Record DiskFiles : Type := mkDiskFiles {
  vectorizer_file : FileState Vectorizer;
  matrix_file : FileState Matrix;
  metadata_file : FileState (list Meta);
  corpus_file : FileState (list str)
}.

(** The four artifacts as one snapshot, when all four load. *)
Definition snapshot_of (files : DiskFiles) : option (Persisted Vectorizer Matrix) :=
  match vectorizer_file files, matrix_file files, metadata_file files,
        corpus_file files with
  | Stored v, Stored m, Stored md, Stored c => Some (mkPersisted v m md c)
  | _, _, _, _ => None
  end.

(** The files that hold a snapshot. *)
Definition files_of (disk : option (Persisted Vectorizer Matrix)) : DiskFiles :=
  match disk with
  | Some p =>
      mkDiskFiles (Stored (p_vectorizer p)) (Stored (p_matrix p))
        (Stored (p_metadata p)) (Stored (p_corpus p))
  | None => mkDiskFiles Absent Absent Absent Absent
  end.

(** [loaded] is the outcome of [search_engine.load_data()].  When the four
    artifacts exist they are loaded in turn, each assignment taking effect
    before the next load, and a load that fails ends the block; otherwise
    the index is built and, when built, written with the corpus and the
    metadata (the four [joblib.dump] calls are taken to succeed). *)
Definition startup (loaded : option Catalog) (files : DiskFiles)
    : Server Vectorizer Matrix * DiskFiles :=
  let data := match loaded with Some d => d | None => [] end in
  let '(corpus, metadata) := build_corpus_from_data data in
  if file_exists (vectorizer_file files) && file_exists (matrix_file files)
     && file_exists (metadata_file files) && file_exists (corpus_file files)
  then
    let served :=
      match vectorizer_file files with
      | Stored v =>
          match matrix_file files with
          | Stored m =>
              match metadata_file files with
              | Stored md =>
                  match corpus_file files with
                  | Stored c => (c, md, Some v, Some m)
                  | _ => (corpus, md, Some v, Some m)
                  end
              | _ => (corpus, metadata, Some v, Some m)
              end
          | _ => (corpus, metadata, Some v, None)
          end
      | _ => (corpus, metadata, None, None)
      end in
    let '(c, md, v, m) := served in
    (mkServer data c md v m (snapshot_of files), files)
  else
    let '(vectorizer, tfidf_matrix) := build_tfidf_index fit_transform corpus in
    let files' :=
      match vectorizer, tfidf_matrix with
      | Some v, Some m => mkDiskFiles (Stored v) (Stored m) (Stored metadata) (Stored corpus)
      | _, _ => files
      end in
    (mkServer data corpus metadata vectorizer tfidf_matrix (snapshot_of files'),
     files').

End Startup.

(** ** Catalog loader: [load_data] *)

(** [s.endswith(suffix)] *)
Definition ends_with (suffix s : str) : bool :=
  starts_with (rev suffix) (rev s).

Fixpoint after_first_dot (s : str) : option str :=
  match s with
  | [] => None
  | c :: s' => if Ascii.eqb c "."%char then Some s' else after_first_dot s'
  end.

(** [os.path.splitext(filename)[0]] for a name without directory part: the
    name up to its last dot, unless nothing but dots comes before that
    dot. *)
Definition splitext_root (filename : str) : str :=
  match after_first_dot (rev filename) with
  | None => filename
  | Some root_rev =>
      if existsb (fun c => negb (Ascii.eqb c "."%char)) root_rev
      then rev root_rev
      else filename
  end.

(** [.str.strip().str.lower().str.replace(' ', '_')] on one column name *)
Definition normalize_label (label : str) : str :=
  map (fun c => if Ascii.eqb c " "%char then "_"%char else c) (lower (strip label)).

Definition normalize_row (r : Row) : Row :=
  map (fun kv => (normalize_label (fst kv), snd kv)) r.

Definition normalize_frame (df : DataFrame) : DataFrame :=
  map (fun ir => (fst ir, normalize_row (snd ir))) df.

(** The loop over [os.listdir(data_dir)]: each entry is a file name with
    what [pd.read_csv] gives for it, [None] when it raises.  [None] as a
    result is the exception that leaves the loop. *)
Fixpoint load_files (entries : list (str * option DataFrame)) (df_dict : Catalog)
    : option Catalog :=
  match entries with
  | [] => Some df_dict
  | (filename, content) :: rest =>
      if ends_with (py ".csv") filename then
        match content with
        | None => None
        | Some df =>
            load_files rest
              (dict_set df_dict (splitext_root filename) (normalize_frame df))
        end
      else load_files rest df_dict
  end.

(** [listing] is [None] when the data directory cannot be listed. *)
Definition load_data (listing : option (list (str * option DataFrame)))
    : option Catalog :=
  match listing with
  | None => None
  | Some entries =>
      match load_files entries [] with
      | Some [] => None
      | Some df_dict => Some df_dict
      | None => None
      end
  end.

(** ** Pages of the search results: GET [/search] of [app/main.py] *)

(** [l[a:b]] for Python integers [a] and [b] *)
Definition py_bound (len i : Z) : Z :=
  if (i <? 0)%Z then Z.max 0 (i + len) else Z.min i len.

Definition py_slice {A : Type} (l : list A) (a b : Z) : list A :=
  let len := Z.of_nat (List.length l) in
  let a' := py_bound len a in
  let b' := py_bound len b in
  firstn (Z.to_nat (b' - a')) (skipn (Z.to_nat a') l).

(** The page of the results and the number of pages; [None] is the
    [ZeroDivisionError] of a page size of 0, which the handler turns into
    the answer 500. *)
Definition paginate {A : Type} (all_results : list A) (page page_size : Z)
    : option (list A * Z) :=
  let total := Z.of_nat (List.length all_results) in
  let start := ((page - 1) * page_size)%Z in
  let stop := (start + page_size)%Z in
  let page_results := py_slice all_results start stop in
  if (page_size =? 0)%Z then None
  else Some (page_results, ((total + page_size - 1) / page_size)%Z).

(** ** Notions used to state the further properties *)

(** No column label occurs twice in the row. *)
Definition distinct_labels (r : Row) : Prop := NoDup (map fst r).

(** The pattern has no capturing group. *)
Fixpoint no_group (r : regex) : bool :=
  match r with
  | Lit _ | Star _ | Plus _ => true
  | Cat r1 r2 | Alt r1 r2 => no_group r1 && no_group r2
  | Opt r1 => no_group r1
  | Grp _ _ => false
  end.

(** The texts that a pattern matches, captures apart. *)
Fixpoint in_lang (r : regex) (w : str) : Prop :=
  match r with
  | Lit l => w = l
  | Cat r1 r2 => exists w1 w2, w = w1 ++ w2 /\ in_lang r1 w1 /\ in_lang r2 w2
  | Alt r1 r2 => in_lang r1 w \/ in_lang r2 w
  | Star cls => forallb cls w = true
  | Plus cls => w <> [] /\ forallb cls w = true
  | Opt r1 => w = [] \/ in_lang r1 w
  | Grp _ r1 => in_lang r1 w
  end.

(** A numeral as a query writes it: digits and digit-grouping commas, with
    at least one digit and at most 15, so that the double that [float]
    returns is the number written; and the number it stands for. *)
Definition numeral (n : str) : Prop :=
  forallb digit_or_comma n = true /\ existsb is_digit n = true
  /\ (List.length (remove_commas n) <= 15)%nat.

Definition numeral_value (n : str) : Q := inject_Z (digits_val (remove_commas n)).

(** Text without digits and commas. *)
Definition numeral_free (s : str) : Prop :=
  forallb (fun c => negb (digit_or_comma c)) s = true.

(** Whitespace only. *)
Definition blank (s : str) : Prop := forallb is_space s = true.

(** The text does not go on with a digit or a comma. *)
Definition numeral_ends (s : str) : Prop :=
  match s with
  | [] => True
  | c :: _ => digit_or_comma c = false
  end.

(** A numeral taken from a text: not empty, digits and commas only, and made
    of characters of the text. *)
Definition numeral_of (q g : str) : Prop :=
  g <> [] /\ forallb digit_or_comma g = true /\ forall x, In x g -> In x q.

(** Text without digits and dots. *)
Definition plain_text (s : str) : Prop :=
  forallb (fun c => negb (is_digit c || Ascii.eqb c "."%char)) s = true.

(** A word that neither starts nor ends with whitespace. *)
Definition strip_safe (w : str) : bool :=
  match w with
  | [] => false
  | c :: _ => negb (is_space c) && negb (is_space (last w c))
  end.

(** The canned reply of the router, if any, from the lower-cased message and
    the number of its tokens: the first of the five rules that applies. *)
Definition canned_reply (text : str) (tokens : nat) : option str :=
  if any_in greetings text && (tokens <? 3)%nat then Some greeting_reply
  else if any_in farewells text then Some farewell_reply
  else if any_in thanks text then Some thanks_reply
  else if any_in help_words text then Some help_reply
  else if any_in identity_words text then Some identity_reply
  else None.

(** The attempts and the pauses of [get_gemini_response] up to attempt
    [k], counted from attempt [a]. *)
Fixpoint attempts_before (delay : Z) (a k : nat) : list GeminiEvent :=
  match k with
  | O => []
  | S k' => Attempted a :: Slept delay :: attempts_before delay (S a) k'
  end.

(** The request carries no username and password that Python takes for true. *)
Definition no_basic_auth (req : AdminRequest) : Prop :=
  truthy_str (fst (check_basic_auth req)) && truthy_str (snd (check_basic_auth req))
  = false.

(** Every frame of the dict is the normalized frame of a CSV entry. *)
Definition frames_from (entries : list (str * option DataFrame)) (d : Catalog) : Prop :=
  forall cat df, In (cat, df) d ->
    exists f content,
      In (f, Some content) entries /\ ends_with (py ".csv") f = true
      /\ cat = splitext_root f /\ df = normalize_frame content.

(** What one turn of the loop of [extract_price_value] decides at a label:
    go on with the next label ([Ok None]), return a price, or raise. *)
Definition price_at (r : Row) (col : str) : result (option Q) :=
  if contains (py "price") (lower col)
  then match row_get r col with
       | Several _ => Raise ValueError
       | Scalar None => Ok None
       | Scalar (Some v) =>
           match digits_and_dots v with
           | [] => Ok None
           | s =>
               match float_of_decimal s with
               | Ok x => Ok (Some x)
               | Raise _ => Ok None
               end
           end
       end
  else Ok None.

(** * Properties *)

Unset Implicit Arguments.

(** ** Text lemmas *)

Section TextFacts.

Lemma starts_with_app (n s : str) :
  starts_with n s = true <-> exists post, s = n ++ post.
Proof.
  revert s; induction n as [|a n IH]; intros s; simpl.
  - split; [intros _; now exists s | reflexivity].
  - destruct s as [|b s]; simpl.
    + split; [discriminate | intros [post H]; discriminate].
    + rewrite andb_true_iff, Ascii.eqb_eq, IH. split.
      * intros [-> [post ->]]. now exists post.
      * intros [post H]. injection H as -> ->. split; [reflexivity | now exists post].
Qed.

(** [needle in hay] holds exactly when [hay] is some text, then [needle],
    then some text. *)
Lemma contains_app (n s : str) :
  contains n s = true <-> exists pre post, s = pre ++ n ++ post.
Proof.
  induction s as [|b s IH].
  - simpl. rewrite orb_false_r, starts_with_app. split.
    + intros [post H]. now exists [], post.
    + intros [pre [post H]]. destruct pre; simpl in H.
      * now exists post.
      * discriminate.
  - cbn [contains]. rewrite orb_true_iff, starts_with_app, IH. split.
    + intros [[post H] | [pre [post H]]].
      * now exists [], post.
      * exists (b :: pre), post. now rewrite H.
    + intros [pre [post H]]. destruct pre as [|c pre]; simpl in H.
      * left. now exists post.
      * right. injection H as _ H. now exists pre, post.
Qed.

Lemma lstrip_split (s : str) :
  exists ws, s = ws ++ lstrip s /\ forallb is_space ws = true.
Proof.
  induction s as [|c s [ws [H1 H2]]]; simpl.
  - now exists [].
  - destruct (is_space c) eqn:E.
    + exists (c :: ws). simpl. rewrite E, H2. split; [now f_equal | reflexivity].
    + now exists [].
Qed.

Lemma rstrip_split (s : str) :
  exists ws, s = rstrip s ++ ws /\ forallb is_space ws = true.
Proof.
  unfold rstrip. destruct (lstrip_split (rev s)) as [ws [H1 H2]].
  exists (rev ws). split.
  - rewrite <- rev_app_distr, <- H1. now rewrite rev_involutive.
  - rewrite forallb_forall in *. intros x Hx. apply H2. now apply in_rev.
Qed.

(** Leading whitespace does not hide an occurrence of a word that starts
    with a character that is not whitespace. *)
Lemma contains_lstrip (c : ascii) (n s : str) :
  is_space c = false ->
  contains (c :: n) s = true -> contains (c :: n) (lstrip s) = true.
Proof.
  intros Hc. induction s as [|a s IH]; [trivial|].
  intros H. cbn [lstrip]. destruct (is_space a) eqn:Ea; [|exact H].
  cbn [contains starts_with] in H. apply orb_true_iff in H as [H | H].
  - apply andb_true_iff in H as [H _]. apply Ascii.eqb_eq in H. congruence.
  - now apply IH.
Qed.

Lemma contains_rev (n s : str) :
  contains n s = true -> contains (rev n) (rev s) = true.
Proof.
  rewrite !contains_app. intros [pre [post ->]].
  exists (rev post), (rev pre). now rewrite !rev_app_distr, app_assoc.
Qed.

Lemma contains_rstrip (n : str) (c : ascii) (s : str) :
  is_space c = false ->
  contains (n ++ [c]) s = true -> contains (n ++ [c]) (rstrip s) = true.
Proof.
  intros Hc H. unfold rstrip.
  rewrite <- (rev_involutive (n ++ [c])). apply contains_rev.
  rewrite rev_app_distr. simpl. apply contains_lstrip; [exact Hc|].
  apply contains_rev in H. now rewrite rev_app_distr in H.
Qed.

Lemma is_space_lower (c : ascii) : is_space (lower_char c) = is_space c.
Proof.
  destruct c as [[] [] [] [] [] [] [] []]; reflexivity.
Qed.

Lemma split_from_spaces (cur ws : str) :
  forallb is_space ws = true ->
  split_from cur ws = match cur with [] => [] | _ => [rev cur] end.
Proof.
  revert cur. induction ws as [|c ws IH]; intros cur H; [reflexivity|].
  simpl in H. apply andb_true_iff in H as [Hc Hws].
  simpl. rewrite Hc. destruct cur; rewrite (IH [] Hws); reflexivity.
Qed.

Lemma split_from_app_spaces (s ws cur : str) :
  forallb is_space ws = true ->
  split_from cur (s ++ ws) = split_from cur s.
Proof.
  intros Hws. revert cur. induction s as [|c s IH]; intros cur.
  - simpl. now apply split_from_spaces.
  - simpl. destruct (is_space c); [destruct cur|]; now rewrite IH.
Qed.

Lemma split_spaces_app (ws s : str) :
  forallb is_space ws = true -> split (ws ++ s) = split s.
Proof.
  unfold split. induction ws as [|c ws IH]; intros H; [reflexivity|].
  simpl in H. apply andb_true_iff in H as [Hc Hws].
  simpl. rewrite Hc. now apply IH.
Qed.

(** Stripping a text leaves its whitespace-separated tokens unchanged. *)
Lemma split_strip (s : str) : split (strip s) = split s.
Proof.
  unfold strip.
  destruct (rstrip_split (lstrip s)) as [ws [H1 H2]].
  destruct (lstrip_split s) as [ws' [H3 H4]].
  rewrite H3 at 2. rewrite split_spaces_app by exact H4.
  rewrite H1 at 2. unfold split. now rewrite split_from_app_spaces.
Qed.

Lemma split_from_lower_length (s cur cur' : str) :
  (cur = [] <-> cur' = []) ->
  List.length (split_from cur' (lower s)) = List.length (split_from cur s).
Proof.
  revert cur cur'. induction s as [|c s IH]; intros cur cur' H.
  - simpl. destruct cur, cur'; try reflexivity.
    + destruct H as [H _]. now specialize (H eq_refl).
    + destruct H as [_ H]. now specialize (H eq_refl).
  - simpl. rewrite is_space_lower. destruct (is_space c).
    + destruct cur, cur'; simpl; try (rewrite (IH [] []); tauto).
      * destruct H as [H _]. now specialize (H eq_refl).
      * destruct H as [_ H]. now specialize (H eq_refl).
    + apply IH. split; discriminate.
Qed.

(** Lower-casing a text keeps the number of its tokens. *)
Lemma split_lower_length (s : str) :
  List.length (split (lower s)) = List.length (split s).
Proof.
  unfold split. now apply split_from_lower_length.
Qed.

End TextFacts.

(** ** Matching lemmas *)

Section MatchFacts.

Lemma suffix_refl (s : str) : suffix_of s s.
Proof. now exists []. Qed.

Lemma suffix_cons (c : ascii) (t s : str) : suffix_of t s -> suffix_of t (c :: s).
Proof. intros [pre ->]. now exists (c :: pre). Qed.

Lemma suffix_trans (a b c : str) : suffix_of a b -> suffix_of b c -> suffix_of a c.
Proof. intros [p ->] [q ->]. exists (q ++ p). now rewrite app_assoc. Qed.

Lemma drop_prefix_app (l s s' : str) : drop_prefix l s = Some s' -> s = l ++ s'.
Proof.
  revert s. induction l as [|a l IH]; intros s H; simpl in H.
  - now injection H as ->.
  - destruct s as [|b s]; [discriminate|].
    destruct (Ascii.eqb a b) eqn:E; [|discriminate].
    apply Ascii.eqb_eq in E as ->. simpl. f_equal. now apply IH.
Qed.

Lemma absent_no_prefix (l s t : str) :
  contains l s = false -> suffix_of t s -> drop_prefix l t = None.
Proof.
  intros Hc [pre ->]. destruct (drop_prefix l t) as [t'|] eqn:E; [|reflexivity].
  apply drop_prefix_app in E. subst t.
  assert (contains l (pre ++ l ++ t') = true) by (apply contains_app; eauto).
  congruence.
Qed.

Lemma star_greedy_fail (A : Type) (cls : ascii -> bool) (s : str)
    (k : str -> option A) :
  (forall t, suffix_of t s -> k t = None) -> star_greedy cls s k = None.
Proof.
  induction s as [|c s IH]; intros H; simpl.
  - apply H, suffix_refl.
  - destruct (cls c).
    + rewrite IH; [apply H, suffix_refl|].
      intros t Ht. apply H. now apply suffix_cons.
    + apply H, suffix_refl.
Qed.

(** A pattern only ever continues on a suffix of its input: when the
    continuation fails on all of them, so does the pattern. *)
Lemma rmatch_fail (r : regex) : forall s caps k,
  (forall t caps', suffix_of t s -> k t caps' = None) ->
  rmatch r s caps k = None.
Proof.
  induction r as [l | r1 IH1 r2 IH2 | r1 IH1 r2 IH2 | cls | cls | r1 IH1 | n r1 IH1];
    intros s caps k H; simpl.
  - destruct (drop_prefix l s) as [s'|] eqn:E; [|reflexivity].
    apply H. exists l. now apply drop_prefix_app.
  - apply IH1. intros t caps' Ht. apply IH2. intros t' caps'' Ht'.
    apply H. eapply suffix_trans; eassumption.
  - rewrite IH1 by exact H. now apply IH2.
  - apply star_greedy_fail. intros t Ht. now apply H.
  - destruct s as [|c s]; [reflexivity|]. destruct (cls c); [|reflexivity].
    apply star_greedy_fail. intros t Ht. apply H. now apply suffix_cons.
  - rewrite IH1 by exact H. apply H, suffix_refl.
  - apply IH1. intros t caps' Ht. now apply H.
Qed.

Lemma cat_fail (r1 r2 : regex) (s : str) caps k :
  (forall t caps', suffix_of t s -> rmatch r2 t caps' k = None) ->
  rmatch (Cat r1 r2) s caps k = None.
Proof.
  intros H. cbn [rmatch]. apply rmatch_fail. exact H.
Qed.

Lemma lit_absent_fail (l s t : str) (rest : regex) caps k :
  contains l s = false -> suffix_of t s ->
  rmatch (Cat (Lit l) rest) t caps k = None.
Proof.
  intros Hc Ht. simpl. now rewrite (absent_no_prefix _ _ _ Hc Ht).
Qed.

Lemma alts_absent_fail (l0 : str) (ls : list str) (s t : str) caps k :
  any_in (l0 :: ls) s = false -> suffix_of t s ->
  rmatch (alts (map Lit (l0 :: ls))) t caps k = None.
Proof.
  unfold any_in. intros Hc Ht. revert l0 Hc caps k.
  induction ls as [|l' ls IH]; intros l Hc caps k;
    simpl in Hc; apply orb_false_iff in Hc as [Hl Hls].
  - simpl. now rewrite (absent_no_prefix _ _ _ Hl Ht).
  - change (alts (map Lit (l :: l' :: ls)))
      with (Alt (Lit l) (alts (map Lit (l' :: ls)))).
    cbn [rmatch]. rewrite (absent_no_prefix _ _ _ Hl Ht). now apply IH.
Qed.

Lemma search_fail (r : regex) (s : str) :
  (forall t, suffix_of t s -> match_here r t = None) -> search r s = None.
Proof.
  induction s as [|c s IH]; intros H; simpl.
  - now rewrite (H [] (suffix_refl [])).
  - rewrite (H (c :: s) (suffix_refl _)). apply IH.
    intros t Ht. apply H. now apply suffix_cons.
Qed.

End MatchFacts.

(** ** The constraint parser *)

Section ParserFacts.

Lemma contains_absent_char (c : ascii) (l s : str) :
  forallb (fun x => negb (Ascii.eqb c x)) s = true -> contains (c :: l) s = false.
Proof.
  induction s as [|b s IH]; intros H; [reflexivity|].
  simpl in H. apply andb_true_iff in H as [Hb Hs].
  cbn [contains starts_with]. rewrite (IH Hs).
  apply negb_true_iff in Hb. now rewrite Hb.
Qed.

Lemma numeral_chars (P : ascii -> bool) (ds : str) :
  (forall x, digit_or_comma x = true -> P x = true) ->
  forallb digit_or_comma ds = true -> forallb P ds = true.
Proof.
  intros HP H. rewrite forallb_forall in *. auto.
Qed.

Lemma numeral_not (c : ascii) :
  digit_or_comma c = false ->
  forall x, digit_or_comma x = true -> negb (Ascii.eqb c x) = true.
Proof.
  intros Hc x Hx. apply negb_true_iff. destruct (Ascii.eqb c x) eqn:E; [|reflexivity].
  apply Ascii.eqb_eq in E. congruence.
Qed.

Lemma numeral_not_space (x : ascii) : digit_or_comma x = true -> is_space x = false.
Proof. destruct x as [[] [] [] [] [] [] [] []]; now compute. Qed.

Lemma numeral_lower (ds : str) : forallb digit_or_comma ds = true -> lower ds = ds.
Proof.
  induction ds as [|c ds IH]; intros H; [reflexivity|].
  simpl in H. apply andb_true_iff in H as [Hc Hds]. simpl. rewrite (IH Hds). f_equal.
  clear - Hc. destruct c as [[] [] [] [] [] [] [] []]; try reflexivity; discriminate.
Qed.

Lemma star_greedy_all (A : Type) (cls : ascii -> bool) (s : str)
    (k : str -> option A) (r : A) :
  forallb cls s = true -> k [] = Some r -> star_greedy cls s k = Some r.
Proof.
  intros H Hk. induction s as [|c s IH]; [exact Hk|].
  simpl in H. apply andb_true_iff in H as [Hc Hs].
  simpl. now rewrite Hc, (IH Hs).
Qed.

Lemma float_of_numeral (ds : str) :
  forallb digit_or_comma ds = true -> existsb is_digit ds = true ->
  float_of_digits (remove_commas ds) = Ok (inject_Z (digits_val (remove_commas ds))).
Proof.
  intros Hall Hex. unfold float_of_digits.
  assert (Hd : forallb is_digit (remove_commas ds) = true).
  { unfold remove_commas. rewrite forallb_forall. intros x Hx.
    apply filter_In in Hx as [Hx Hn]. rewrite forallb_forall in Hall.
    specialize (Hall x Hx). unfold digit_or_comma in Hall.
    apply negb_true_iff in Hn. rewrite Hn, orb_false_r in Hall. exact Hall. }
  rewrite Hd. destruct (remove_commas ds) eqn:E; [|reflexivity].
  exfalso. apply existsb_exists in Hex as [x [Hx Hdx]].
  assert (Hin : In x (remove_commas ds)).
  { unfold remove_commas. apply filter_In. split; [exact Hx|].
    clear - Hdx. destruct x as [[] [] [] [] [] [] [] []]; try reflexivity; discriminate. }
  rewrite E in Hin. exact Hin.
Qed.

Lemma drop_prefix_here (l s : str) : drop_prefix l (l ++ s) = Some s.
Proof.
  induction l as [|a l IH]; [reflexivity|]. simpl. now rewrite Ascii.eqb_refl.
Qed.

Lemma star_greedy_stop (A : Type) (cls : ascii -> bool) (c : ascii) (s : str)
    (k : str -> option A) :
  cls c = false -> star_greedy cls (c :: s) k = k (c :: s).
Proof. intros H. simpl. now rewrite H. Qed.

Lemma star_greedy_step (A : Type) (cls : ascii -> bool) (c : ascii) (s : str)
    (k : str -> option A) (r : A) :
  cls c = true -> star_greedy cls s k = Some r -> star_greedy cls (c :: s) k = Some r.
Proof. intros H Hr. simpl. now rewrite H, Hr. Qed.

Lemma search_here (r : regex) (s : str) (c : captures) :
  match_here r s = Some c -> search r s = Some c.
Proof. intros H. destruct s; simpl; now rewrite H. Qed.

(** A numeral written after "under", with or without digit-grouping commas,
    is read with its commas removed. *)
Lemma under_numeral (ds : str) :
  forallb digit_or_comma ds = true -> existsb is_digit ds = true ->
  parse_price_constraints (py "under " ++ ds)
  = Ok (None, Some (inject_Z (digits_val (remove_commas ds)))).
Proof.
  intros Hall Hex.
  assert (Hlow : lower (py "under " ++ ds) = py "under " ++ ds).
  { unfold lower. rewrite map_app. change (map lower_char ds) with (lower ds).
    rewrite (numeral_lower _ Hall). reflexivity. }
  assert (Habs : forall c l, digit_or_comma c = false ->
            forallb (fun x => negb (Ascii.eqb c x)) (py "under ") = true ->
            contains (c :: l) (py "under " ++ ds) = false).
  { intros c l Hc Hu. apply contains_absent_char. rewrite forallb_app, Hu.
    simpl. apply numeral_chars; [|exact Hall].
    intros x Hx. exact (numeral_not _ Hc _ Hx). }
  unfold parse_price_constraints. rewrite Hlow.
  assert (H1 : search re_between (py "under " ++ ds) = None).
  { apply search_fail. intros t Ht. unfold match_here.
    apply lit_absent_fail with (s := py "under " ++ ds); [|exact Ht].
    now apply Habs. }
  assert (H2 : search re_range (py "under " ++ ds) = None).
  { apply search_fail. intros t Ht. unfold match_here, re_range, cats.
    apply cat_fail. intros t1 c1 Ht1. apply cat_fail. intros t2 c2 Ht2.
    apply lit_absent_fail with (s := py "under " ++ ds).
    - now apply Habs.
    - eapply suffix_trans; [exact Ht2|]. eapply suffix_trans; eassumption. }
  rewrite H1, H2.
  assert (H3 : search re_under (py "under " ++ ds) = Some [(1%nat, ds)]).
  { destruct ds as [|c ds']; [discriminate|].
    simpl in Hall. apply andb_true_iff in Hall as [Hc Hds].
    assert (Hsp := numeral_not_space _ Hc).
    assert (Hru : Ascii.eqb "226" c = false).
    { clear - Hc.
      destruct c as [[] [] [] [] [] [] [] []]; try reflexivity; discriminate. }
    apply search_here. unfold match_here, re_under, re_bound, max_keywords.
    cbn [alts cats map rmatch].
    change (py "under " ++ c :: ds') with (py "under" ++ " "%char :: c :: ds').
    rewrite drop_prefix_here.
    erewrite star_greedy_step; [reflexivity | reflexivity |].
    rewrite star_greedy_stop by exact Hsp.
    cbn [rupee drop_prefix]. rewrite Hru.
    rewrite star_greedy_stop by exact Hsp.
    rewrite Hc. apply star_greedy_all; [exact Hds|].
    now rewrite Nat.sub_0_r, firstn_all. }
  rewrite H3. unfold group_float. cbn [group Nat.eqb].
  rewrite float_of_numeral; [reflexivity | exact Hall | exact Hex].
Qed.

(** A query without any of the qualifying words and without a dash gives no
    bound, whatever numbers it holds. *)
Lemma no_keyword_no_bound (query : str) :
  contains (py "between") (lower query) = false ->
  contains (py "-") (lower query) = false ->
  any_in max_keywords (lower query) = false ->
  any_in min_keywords (lower query) = false ->
  parse_price_constraints query = Ok (None, None).
Proof.
  intros Hb Hd Hmax Hmin. unfold parse_price_constraints.
  set (q := lower query) in *.
  assert (H1 : search re_between q = None).
  { apply search_fail. intros t Ht.
    now apply lit_absent_fail with (s := q). }
  assert (H2 : search re_range q = None).
  { apply search_fail. intros t Ht. unfold match_here, re_range, cats.
    apply cat_fail. intros t1 c1 Ht1. apply cat_fail. intros t2 c2 Ht2.
    apply lit_absent_fail with (s := q); [exact Hd|].
    eapply suffix_trans; [exact Ht2|]. eapply suffix_trans; eassumption. }
  assert (H3 : search re_under q = None).
  { apply search_fail. intros t Ht. unfold match_here, re_under, re_bound.
    change (rmatch (alts (map Lit max_keywords)) t []
              (fun s' caps' => rmatch (cats [Star is_space; Opt (Lit rupee);
                 Star is_space; Grp 1 (Plus digit_or_comma)]) s' caps'
                 (fun _ caps => Some caps)) = None).
    now apply alts_absent_fail with (s := q). }
  assert (H4 : search re_over q = None).
  { apply search_fail. intros t Ht. unfold match_here, re_over, re_bound.
    change (rmatch (alts (map Lit min_keywords)) t []
              (fun s' caps' => rmatch (cats [Star is_space; Opt (Lit rupee);
                 Star is_space; Grp 1 (Plus digit_or_comma)]) s' caps'
                 (fun _ caps => Some caps)) = None).
    now apply alts_absent_fail with (s := q). }
  now rewrite H1, H2, H3, H4.
Qed.

End ParserFacts.

(** ** The intent router *)

Section RouterFacts.

Variables Vectorizer Matrix : Type.
Variable cosine_sims : Vectorizer -> Matrix -> str -> list Q.
Variable get_gemini_response : str -> str.

(** C10. The greeting test is a substring test: every message of fewer than
    three whitespace-separated tokens whose lower-cased text contains "hi"
    anywhere (inside "chips", say) gets the canned greeting; nothing is
    printed, the product search is not run and the generative service is not
    asked. *)
Theorem greeting_by_substring (message : str) (vectorizer : option Vectorizer)
    (tfidf_matrix : option Matrix) (metadata : list Meta) :
  contains (py "hi") (lower message) = true ->
  (List.length (split message) < 3)%nat ->
  generate_chat_response cosine_sims get_gemini_response message vectorizer
    tfidf_matrix metadata
  = ([], Ok (general greeting_reply)).
Proof.
  intros Hhi Hlen. unfold generate_chat_response.
  assert (Hin : any_in greetings (strip (lower message)) = true).
  { unfold any_in, greetings. cbn [existsb].
    assert (H : contains (py "hi") (strip (lower message)) = true).
    { unfold strip. apply (contains_rstrip (py "h") "i"%char); [reflexivity|].
      apply (contains_lstrip "h"%char (py "i")); [reflexivity|]. exact Hhi. }
    rewrite H. now rewrite orb_true_r. }
  assert (Hn : (List.length (split (strip (lower message))) <? 3)%nat = true).
  { rewrite split_strip, split_lower_length. now apply Nat.ltb_lt. }
  now rewrite Hin, Hn.
Qed.

End RouterFacts.

(** ** The corpus builder *)

Section CorpusFacts.

(** [important_fields] is a Python set, iterated in an order that changes
    from run to run; the weight of a field does not depend on that order. *)
Lemma weight_any_order (fields : list str) (col : str) :
  Permutation fields important_fields ->
  (if existsb (fun imp => contains imp col) fields then 3 else 1)%nat = weight col.
Proof.
  intros Hp. unfold weight.
  assert (H : existsb (fun imp => contains imp col) fields
              = existsb (fun imp => contains imp col) important_fields).
  { apply eq_true_iff_eq. rewrite !existsb_exists. split; intros [x [Hx Hc]]; exists x.
    - split; [now apply (Permutation_in _ Hp) | exact Hc].
    - split; [now apply (Permutation_in _ (Permutation_sym Hp)) | exact Hc]. }
  now rewrite H.
Qed.

Lemma fold_add_field (r : Row) (imp : str -> bool) (parts : list str) :
  (forall col, imp col = Spec.important_cs col) ->
  fold_left add_field r parts = parts ++ flat_map (Spec.field_tokens imp) r.
Proof.
  intros Himp. revert parts. induction r as [|[col val] r IH]; intros parts; simpl.
  - now rewrite app_nil_r.
  - rewrite IH. unfold Spec.field_tokens at 2. simpl. destruct val as [v|]; simpl.
    + destruct (strip v) as [|c val_str] eqn:E; [reflexivity|].
      rewrite Himp. unfold weight, Spec.important_cs.
      rewrite <- !app_assoc. reflexivity.
    + reflexivity.
Qed.

Lemma document_parts_layout (cat : str) (r : Row) :
  document_parts cat r = Spec.document_tokens Spec.important_cs cat r.
Proof.
  unfold document_parts, Spec.document_tokens. now apply fold_add_field.
Qed.

Lemma important_lower (col : str) :
  lower col = col -> Spec.important_cs col = Spec.important_ci col.
Proof.
  intros H. unfold Spec.important_ci. now rewrite H.
Qed.

Lemma fold_add_row (cat : str) (df : DataFrame) (corpus : list str)
    (metadata : list Meta) :
  fold_left (add_row cat) df (corpus, metadata)
  = (corpus ++ map (fun ir => document_text cat (snd ir)) df,
     metadata ++ map (fun ir => mkMeta cat (fst ir) (snd ir)) df).
Proof.
  revert corpus metadata. induction df as [|[idx r] df IH]; intros corpus metadata; simpl.
  - now rewrite !app_nil_r.
  - rewrite IH, <- !app_assoc. reflexivity.
Qed.

Lemma fold_add_frame (data : Catalog) (corpus : list str) (metadata : list Meta) :
  fold_left add_frame data (corpus, metadata)
  = (corpus ++ map (fun m => document_text (category m) (row m)) (records_of data),
     metadata ++ records_of data).
Proof.
  revert corpus metadata. induction data as [|[cat df] data IH]; intros corpus metadata.
  - simpl. now rewrite !app_nil_r.
  - cbn [fold_left add_frame]. rewrite fold_add_row, IH.
    unfold records_of. cbn [flat_map fst snd].
    rewrite map_app, map_map, <- !app_assoc. reflexivity.
Qed.

(** C6. The corpus and the metadata have the same length; the metadata are
    the records of the catalog in visiting order, each with its category,
    row label and row; and the document at a position is the one built from
    the record that the metadata hold at that position. *)
Theorem corpus_metadata_alignment (data : Catalog) :
  let corpus := fst (build_corpus_from_data data) in
  let metadata := snd (build_corpus_from_data data) in
  List.length corpus = List.length metadata
  /\ metadata = records_of data
  /\ forall i : nat,
       nth_error corpus i
       = option_map (fun m => document_text (category m) (row m))
                    (nth_error metadata i).
Proof.
  unfold build_corpus_from_data. rewrite fold_add_frame. cbn [fst snd app].
  repeat split.
  - now rewrite length_map.
  - intros i. now rewrite nth_error_map.
Qed.

End CorpusFacts.

(** ** Ordering of the candidates *)

Section SortFacts.

Variable A : Type.

Lemma sorted_app (R : A -> A -> Prop) (a b : list A) :
  StronglySorted R a -> StronglySorted R b ->
  (forall x y, In x a -> In y b -> R x y) ->
  StronglySorted R (a ++ b).
Proof.
  intros Ha Hb Hab. induction Ha as [|x a Ha IH Hx]; [exact Hb|].
  simpl. constructor.
  - apply IH. intros u v Hu Hv. apply Hab; [now right | exact Hv].
  - apply Forall_app. split; [exact Hx|].
    apply Forall_forall. intros y Hy. apply Hab; [now left | exact Hy].
Qed.

Lemma sorted_app_inv (R : A -> A -> Prop) (a b : list A) :
  StronglySorted R (a ++ b) ->
  StronglySorted R a /\ StronglySorted R b /\
  (forall x y, In x a -> In y b -> R x y).
Proof.
  induction a as [|x a IH]; simpl; intros H.
  - repeat split; [constructor | exact H | intros x y []].
  - apply StronglySorted_inv in H as [Hs Hx].
    destruct (IH Hs) as (Ha & Hb & Hab).
    apply Forall_app in Hx as [Hxa Hxb].
    repeat split; [now constructor | exact Hb |].
    intros u v [<- | Hu] Hv.
    + rewrite Forall_forall in Hxb. now apply Hxb.
    + now apply Hab.
Qed.

Lemma sorted_drop_middle (R : A -> A -> Prop) (a : list A) (x : A) (b : list A) :
  StronglySorted R (a ++ x :: b) -> StronglySorted R (a ++ b).
Proof.
  intros H. apply sorted_app_inv in H as (Ha & Hb & Hab).
  apply StronglySorted_inv in Hb as [Hb _].
  apply sorted_app; [exact Ha | exact Hb |].
  intros u v Hu Hv. apply Hab; [exact Hu | now right].
Qed.

Lemma sorted_keep_next (R : A -> A -> Prop) (a : list A) (x : A) (b : list A) :
  StronglySorted R (a ++ x :: b) -> StronglySorted R (a ++ [x]).
Proof.
  intros H. apply sorted_app_inv in H as (Ha & Hb & Hab).
  apply sorted_app; [exact Ha | repeat constructor |].
  intros u v Hu [<- | []]. apply Hab; [exact Hu | now left].
Qed.

Lemma sorted_rev (R : A -> A -> Prop) (l : list A) :
  StronglySorted R l -> StronglySorted (fun x y => R y x) (rev l).
Proof.
  induction 1 as [|x l Hl IH Hx]; [constructor|].
  simpl. apply sorted_app; [exact IH | repeat constructor |].
  intros u v Hu [<- | []]. rewrite Forall_forall in Hx. apply Hx.
  now apply in_rev.
Qed.

Lemma sorted_firstn (R : A -> A -> Prop) (n : nat) (l : list A) :
  StronglySorted R l -> StronglySorted R (firstn n l).
Proof.
  intros H. rewrite <- (firstn_skipn n l) in H.
  now apply sorted_app_inv in H.
Qed.

End SortFacts.

Section ArgsortFacts.

Variable sims : list Q.

Lemma insert_by_in (i : nat) (l : list nat) (x : nat) :
  In x (insert_by sims i l) <-> x = i \/ In x l.
Proof.
  induction l as [|j l IH]; simpl.
  - intuition.
  - destruct (Qle_bool (nth i sims 0) (nth j sims 0)); simpl; [intuition|].
    rewrite IH. intuition.
Qed.

Lemma insert_by_perm (i : nat) (l : list nat) :
  Permutation (insert_by sims i l) (i :: l).
Proof.
  induction l as [|j l IH]; simpl; [reflexivity|].
  destruct (Qle_bool (nth i sims 0) (nth j sims 0)); [reflexivity|].
  rewrite IH. apply perm_swap.
Qed.

Lemma insert_by_sorted (i : nat) (l : list nat) :
  StronglySorted (fun a b => nth a sims 0 <= nth b sims 0) l ->
  StronglySorted (fun a b => nth a sims 0 <= nth b sims 0) (insert_by sims i l).
Proof.
  induction 1 as [|j l Hl IH Hj]; simpl; [repeat constructor|].
  destruct (Qle_bool (nth i sims 0) (nth j sims 0)) eqn:E.
  - apply Qle_bool_iff in E. constructor; [now constructor|].
    constructor; [exact E|].
    rewrite Forall_forall in *. intros x Hx.
    eapply Qle_trans; [exact E | now apply Hj].
  - constructor; [exact IH|].
    apply Forall_forall. intros x Hx. apply insert_by_in in Hx as [-> | Hx].
    + destruct (Qlt_le_dec (nth j sims 0) (nth i sims 0)) as [Hlt | Hle].
      * now apply Qlt_le_weak.
      * apply Qle_bool_iff in Hle. congruence.
    + rewrite Forall_forall in Hj. now apply Hj.
Qed.

(** [argsort] lists every position once, by ascending score. *)
Lemma argsort_perm : Permutation (argsort sims) (seq 0 (List.length sims)).
Proof.
  unfold argsort. induction (seq 0 (List.length sims)) as [|i l IH]; simpl.
  - reflexivity.
  - rewrite insert_by_perm. now constructor.
Qed.

Lemma argsort_sorted :
  StronglySorted (fun a b => nth a sims 0 <= nth b sims 0) (argsort sims).
Proof.
  unfold argsort. induction (seq 0 (List.length sims)) as [|i l IH]; simpl.
  - constructor.
  - now apply insert_by_sorted.
Qed.

Lemma sorted_scores (l : list nat) :
  StronglySorted (fun a b => nth b sims 0 <= nth a sims 0) l ->
  descending (map (fun i => nth i sims 0) l).
Proof.
  unfold descending. induction 1 as [|i l Hl IH Hi]; simpl; constructor.
  - exact IH.
  - rewrite Forall_map. exact Hi.
Qed.

(** The candidates are positions of [sims], by descending score. *)
Lemma candidates_descending :
  descending (map (fun i => nth i sims 0) (candidate_indices sims)).
Proof.
  apply sorted_scores. unfold candidate_indices.
  apply sorted_firstn.
  apply (sorted_rev _ (fun a b => nth a sims 0 <= nth b sims 0)).
  exact argsort_sorted.
Qed.

Lemma candidates_in_range :
  Forall (fun i => (i < List.length sims)%nat) (candidate_indices sims).
Proof.
  apply Forall_forall. intros i Hi. unfold candidate_indices in Hi.
  assert (Hi' : In i (rev (argsort sims))).
  { rewrite <- (firstn_skipn (Nat.min 200 (List.length sims)) (rev (argsort sims))).
    apply in_or_app. now left. }
  apply in_rev in Hi'. rename Hi' into Hin. clear Hi. rename Hin into Hi.
  apply (Permutation_in _ argsort_perm) in Hi.
  apply in_seq in Hi. lia.
Qed.

Lemma candidates_length :
  (List.length (candidate_indices sims) <= 200)%nat.
Proof.
  unfold candidate_indices. rewrite length_firstn. lia.
Qed.

End ArgsortFacts.

(** ** The retrieval loop *)

Section LookupFacts.

Lemma str_eqb_eq (a b : str) : str_eqb a b = true <-> a = b.
Proof.
  unfold str_eqb. destruct (list_eq_dec ascii_dec a b); split; congruence.
Qed.

Lemma str_eqb_refl (a : str) : str_eqb a a = true.
Proof. now apply str_eqb_eq. Qed.

Lemma cells_under_cons (c : str) (v : Cell) (r : Row) (col : str) :
  cells_under ((c, v) :: r) col
  = if str_eqb c col then v :: cells_under r col else cells_under r col.
Proof.
  unfold cells_under. cbn [filter fst]. now destruct (str_eqb c col).
Qed.

Lemma cells_under_absent (r : Row) (col : str) :
  ~ In col (map fst r) -> cells_under r col = [].
Proof.
  induction r as [|[c v] r IH]; intros H; [reflexivity|].
  rewrite cells_under_cons. destruct (str_eqb c col) eqn:E.
  - apply str_eqb_eq in E. exfalso. apply H. now left.
  - apply IH. intros Hin. apply H. now right.
Qed.

Lemma cells_under_present (r : Row) (col : str) :
  In col (map fst r) -> cells_under r col <> [].
Proof.
  induction r as [|[c v] r IH]; intros H; [destruct H|].
  rewrite cells_under_cons. destruct (str_eqb c col) eqn:E; [discriminate|].
  apply IH. destruct H as [H | H]; [|exact H].
  cbn [fst] in H. apply str_eqb_eq in H. congruence.
Qed.

(** A label that occurs once: the cell under it is what the lookup gives. *)
Lemma row_get_once (r1 r2 : Row) (col : str) (v : Cell) :
  ~ In col (map fst r1) -> ~ In col (map fst r2) ->
  row_get (r1 ++ (col, v) :: r2) col = Scalar v.
Proof.
  intros H1 H2. unfold row_get, cells_under.
  rewrite filter_app, map_app. fold (cells_under r1 col).
  rewrite (cells_under_absent r1 col H1). cbn [app filter fst].
  rewrite str_eqb_refl. cbn [map snd]. fold (cells_under r2 col).
  now rewrite (cells_under_absent r2 col H2).
Qed.

(** A label that occurs twice: the lookup gives a Series. *)
Lemma row_get_repeated (r1 r2 : Row) (col : str) (v : Cell) :
  In col (map fst r2) ->
  exists cells, row_get (r1 ++ (col, v) :: r2) col = Several cells.
Proof.
  intros H2. unfold row_get.
  assert (E : exists a b l, cells_under (r1 ++ (col, v) :: r2) col = a :: b :: l).
  { unfold cells_under. rewrite filter_app, map_app. cbn [filter fst].
    rewrite str_eqb_refl. cbn [map snd]. fold (cells_under r1 col) (cells_under r2 col).
    pose proof (cells_under_present r2 col H2) as Hne.
    destruct (cells_under r2 col) as [|b l]; [congruence|].
    destruct (cells_under r1 col) as [|a l1]; cbn [app]; [now eauto|].
    destruct l1 as [|a' l1]; cbn [app]; eauto. }
  destruct E as (a & b & l & ->). now eexists.
Qed.

Lemma row_get_distinct (r : Row) (col : str) :
  distinct_labels r -> exists c, row_get r col = Scalar c.
Proof.
  unfold distinct_labels, row_get. induction r as [|[c v] r IH]; intros H.
  - now exists None.
  - cbn [map fst] in H. apply NoDup_cons_iff in H as [Hc Hr].
    rewrite cells_under_cons. destruct (str_eqb c col) eqn:E.
    + apply str_eqb_eq in E. subst c.
      rewrite (cells_under_absent r col Hc). now exists v.
    + now apply IH.
Qed.

(** On a row with distinct labels the price extractor raises nothing. *)
Lemma extract_from_returns (r : Row) (cols : list str) :
  distinct_labels r -> exists price_val, extract_price_from r cols = Ok price_val.
Proof.
  intros Hr. induction cols as [|col cols IH]; [now exists None|].
  cbn [extract_price_from]. destruct (contains (py "price") (lower col)); [|exact IH].
  destruct (row_get_distinct r col Hr) as [[v|] ->]; [|exact IH].
  destruct (digits_and_dots v) as [|d ds]; [exact IH|].
  destruct (float_of_decimal (d :: ds)) as [x|e]; [now exists (Some x) | exact IH].
Qed.

Lemma extract_returns (r : Row) :
  distinct_labels r -> exists price_val, extract_price_value r = Ok price_val.
Proof. apply extract_from_returns. Qed.

End LookupFacts.

(** ** The dict of a hit *)

Section JsonFacts.

Lemma json_safe_id (c : Cell) : json_safe c = c.
Proof. now destruct c. Qed.

Lemma dict_set_present (V : Type) (d : list (str * V)) (key : str) (value : V) :
  In key (map fst d) -> map fst (dict_set d key value) = map fst d.
Proof.
  induction d as [|[k v] d IH]; intros H; [destruct H|].
  cbn [dict_set]. destruct (str_eqb k key) eqn:E; [reflexivity|].
  cbn [map fst]. f_equal. apply IH. destruct H as [H | H]; [|exact H].
  cbn [fst] in H. apply str_eqb_eq in H. congruence.
Qed.

Lemma dict_set_absent (V : Type) (d : list (str * V)) (key : str) (value : V) :
  ~ In key (map fst d) -> dict_set d key value = d ++ [(key, value)].
Proof.
  induction d as [|[k v] d IH]; intros H; [reflexivity|].
  cbn [dict_set]. destruct (str_eqb k key) eqn:E.
  - apply str_eqb_eq in E. exfalso. apply H. now left.
  - cbn [app]. f_equal. apply IH. intros Hin. apply H. now right.
Qed.

Lemma dict_set_has (V : Type) (d : list (str * V)) (key : str) (value : V) :
  In (key, value) (dict_set d key value).
Proof.
  induction d as [|[k v] d IH]; [now left|].
  cbn [dict_set]. destruct (str_eqb k key) eqn:E.
  - apply str_eqb_eq in E. subst k. now left.
  - now right.
Qed.

Lemma dict_set_other (V : Type) (d : list (str * V)) (key : str) (value : V) k v :
  In (k, v) d -> k <> key -> In (k, v) (dict_set d key value).
Proof.
  induction d as [|[k0 v0] d IH]; intros H Hne; [destruct H|].
  cbn [dict_set]. destruct (str_eqb k0 key) eqn:E.
  - apply str_eqb_eq in E. subst k0. destruct H as [H | H]; [|now right].
    injection H as -> _. congruence.
  - destruct H as [H | H]; [now left | right; now apply IH].
Qed.

Lemma label_dec (l : str) (ls : list str) : {In l ls} + {~ In l ls}.
Proof. apply in_dec. apply list_eq_dec. apply ascii_dec. Qed.

Lemma distinct_snoc (d : Row) (key : str) (value : Cell) :
  distinct_labels d -> ~ In key (map fst d) -> distinct_labels (d ++ [(key, value)]).
Proof.
  unfold distinct_labels. intros Hd Hk. rewrite map_app. cbn [map fst].
  induction (map fst d) as [|a l IH]; cbn [app].
  - constructor; [intros []|constructor].
  - apply NoDup_cons_iff in Hd as [Ha Hl]. constructor.
    + intros Hin. apply in_app_or in Hin as [Hin | [<- | []]]; [now apply Ha|].
      apply Hk. now left.
    + apply IH; [exact Hl|]. intros Hin. apply Hk. now right.
Qed.

Lemma dict_set_distinct (d : Row) (key : str) (value : Cell) :
  distinct_labels d -> distinct_labels (dict_set d key value).
Proof.
  intros Hd. destruct (label_dec key (map fst d)) as [Hin | Hout].
  - unfold distinct_labels. now rewrite dict_set_present.
  - rewrite dict_set_absent by exact Hout. now apply distinct_snoc.
Qed.

Lemma dict_set_grows (d : Row) (key : str) (value : Cell) :
  exists extra,
    map fst (dict_set d key value) = map fst d ++ extra
    /\ forall l, In l extra -> l = key.
Proof.
  destruct (label_dec key (map fst d)) as [Hin | Hout].
  - exists []. rewrite dict_set_present by exact Hin. rewrite app_nil_r.
    split; [reflexivity | intros l []].
  - exists [key]. rewrite dict_set_absent by exact Hout. rewrite map_app.
    split; [reflexivity|]. now intros l [<- | []].
Qed.

Lemma dict_fold_step (kv : str * Cell) (r d : Row) :
  fold_left (fun result kv => dict_set result (fst kv) (json_safe (snd kv)))
    (kv :: r) d
  = fold_left (fun result kv => dict_set result (fst kv) (json_safe (snd kv)))
      r (dict_set d (fst kv) (snd kv)).
Proof. cbn [fold_left]. now rewrite json_safe_id. Qed.

(** The dict is filled at its end: the labels it had stay in front, and the
    new ones are labels of the row. *)
Lemma dict_fold_labels (r : Row) : forall d : Row,
  exists extra,
    map fst (fold_left (fun result kv => dict_set result (fst kv) (json_safe (snd kv)))
               r d)
    = map fst d ++ extra
    /\ forall l, In l extra -> In l (map fst r).
Proof.
  induction r as [|kv r IH]; intros d.
  - exists []. rewrite app_nil_r. split; [reflexivity | intros l []].
  - rewrite dict_fold_step.
    destruct (IH (dict_set d (fst kv) (snd kv))) as (extra & E & Hex).
    destruct (dict_set_grows d (fst kv) (snd kv)) as (e0 & E0 & He0).
    exists (e0 ++ extra). rewrite E, E0, <- app_assoc. split; [reflexivity|].
    intros l Hl. apply in_app_or in Hl as [Hl | Hl].
    + left. symmetry. now apply He0.
    + right. now apply Hex.
Qed.

Lemma dict_fold_distinct (r : Row) : forall d : Row,
  distinct_labels d ->
  distinct_labels
    (fold_left (fun result kv => dict_set result (fst kv) (json_safe (snd kv))) r d).
Proof.
  induction r as [|kv r IH]; intros d Hd; [exact Hd|].
  rewrite dict_fold_step. apply IH. now apply dict_set_distinct.
Qed.

Lemma dict_fold_keeps (r : Row) : forall (d : Row) k v,
  In (k, v) d -> ~ In k (map fst r) ->
  In (k, v)
    (fold_left (fun result kv => dict_set result (fst kv) (json_safe (snd kv))) r d).
Proof.
  induction r as [|kv r IH]; intros d k v Hin Hk; [exact Hin|].
  rewrite dict_fold_step. apply IH.
  - apply dict_set_other; [exact Hin|]. intros ->. apply Hk. now left.
  - intros H. apply Hk. now right.
Qed.

(** The dict of a row with distinct labels is the row. *)
Lemma dict_fold_distinct_row (r : Row) : forall d : Row,
  distinct_labels (d ++ r) ->
  fold_left (fun result kv => dict_set result (fst kv) (json_safe (snd kv))) r d
  = d ++ r.
Proof.
  induction r as [|[k v] r IH]; intros d Hd; [now rewrite app_nil_r|].
  rewrite dict_fold_step. cbn [fst snd].
  assert (Hk : ~ In k (map fst d)).
  { unfold distinct_labels in Hd. rewrite map_app in Hd. cbn [map fst] in Hd.
    apply NoDup_remove_2 in Hd. intros Hin. apply Hd. apply in_or_app. now left. }
  rewrite dict_set_absent by exact Hk.
  rewrite IH; [now rewrite <- app_assoc|]. now rewrite <- app_assoc.
Qed.

Lemma json_safe_distinct (r : Row) :
  distinct_labels r -> row_to_json_safe_dict r = r.
Proof.
  intros H. unfold row_to_json_safe_dict. now rewrite (dict_fold_distinct_row r []).
Qed.

Lemma json_safe_labels (r : Row) :
  distinct_labels (row_to_json_safe_dict r)
  /\ forall l, In l (map fst (row_to_json_safe_dict r)) -> In l (map fst r).
Proof.
  unfold row_to_json_safe_dict. split.
  - apply dict_fold_distinct. constructor.
  - destruct (dict_fold_labels r []) as (extra & E & Hex). rewrite E. exact Hex.
Qed.

Lemma cells_under_app (r1 r2 : Row) (col : str) :
  cells_under (r1 ++ r2) col = cells_under r1 col ++ cells_under r2 col.
Proof. unfold cells_under. now rewrite filter_app, map_app. Qed.

(** A lookup that gives a cell for a label of the row: the label occurs
    once. *)
Lemma row_get_scalar (r1 r2 : Row) (col : str) (v c : Cell) :
  row_get (r1 ++ (col, v) :: r2) col = Scalar c ->
  ~ In col (map fst r1) /\ ~ In col (map fst r2) /\ c = v.
Proof.
  unfold row_get. rewrite cells_under_app, cells_under_cons, str_eqb_refl.
  intros H.
  assert (E1 : cells_under r1 col = []).
  { destruct (cells_under r1 col) as [|a [|b l]]; [reflexivity | |];
      cbn [app] in H; [|discriminate H].
    destruct (cells_under r2 col); discriminate H. }
  rewrite E1 in H. cbn [app] in H.
  assert (E2 : cells_under r2 col = []).
  { destruct (cells_under r2 col); [reflexivity | discriminate H]. }
  rewrite E2 in H. injection H as <-.
  repeat split.
  - intros Hin. now apply cells_under_present in Hin.
  - intros Hin. now apply cells_under_present in Hin.
Qed.

Lemma distinct_in_get (d : Row) (col : str) (c : Cell) :
  distinct_labels d -> In (col, c) d -> row_get d col = Scalar c.
Proof.
  intros Hd Hin. apply in_split in Hin as (d1 & d2 & ->).
  unfold distinct_labels in Hd. rewrite map_app in Hd. cbn [map fst] in Hd.
  pose proof (NoDup_remove_2 _ _ _ Hd) as Hout.
  apply row_get_once; intros H; apply Hout; apply in_or_app; [now left | now right].
Qed.

(** The dict holds, under a label that occurs once in the row, the cell of
    the row. *)
Lemma json_safe_get (r : Row) (col : str) (c : Cell) :
  In col (map fst r) -> row_get r col = Scalar c ->
  row_get (row_to_json_safe_dict r) col = Scalar c.
Proof.
  intros Hin Hget. apply in_map_iff in Hin as ([k v] & Hk & Hin).
  cbn [fst] in Hk. subst k. apply in_split in Hin as (r1 & r2 & ->).
  apply row_get_scalar in Hget as (H1 & H2 & ->).
  apply distinct_in_get; [apply json_safe_labels|].
  unfold row_to_json_safe_dict. rewrite fold_left_app, dict_fold_step.
  apply dict_fold_keeps; [|exact H2]. apply dict_set_has.
Qed.

Lemma extract_step (r : Row) (col : str) (cols : list str) :
  extract_price_from r (col :: cols)
  = match price_at r col with
    | Raise e => Raise e
    | Ok (Some x) => Ok (Some x)
    | Ok None => extract_price_from r cols
    end.
Proof.
  cbn [extract_price_from]. unfold price_at.
  destruct (contains (py "price") (lower col)); [|reflexivity].
  destruct (row_get r col) as [[v|]|cells]; try reflexivity.
  destruct (digits_and_dots v) as [|d ds]; [reflexivity|].
  now destruct (float_of_decimal (d :: ds)).
Qed.

Lemma extract_skips (r : Row) (cols1 cols2 : list str) :
  Forall (fun l => price_at r l = Ok None) cols1 ->
  extract_price_from r (cols1 ++ cols2) = extract_price_from r cols2.
Proof.
  induction 1 as [|l cols1 Hl _ IH]; [reflexivity|].
  cbn [app]. now rewrite extract_step, Hl.
Qed.

Lemma extract_ok_inv (r : Row) (cols : list str) (price_val : option Q) :
  extract_price_from r cols = Ok price_val ->
  (price_val = None /\ Forall (fun l => price_at r l = Ok None) cols)
  \/ exists cols1 col cols2 x,
       cols = cols1 ++ col :: cols2
       /\ Forall (fun l => price_at r l = Ok None) cols1
       /\ price_at r col = Ok (Some x) /\ price_val = Some x.
Proof.
  induction cols as [|l cols IH]; intros H.
  - injection H as <-. left. now split.
  - rewrite extract_step in H. destruct (price_at r l) as [[x|]|e] eqn:El.
    + injection H as <-. right. exists [], l, cols, x. repeat split; auto.
    + destruct (IH H) as [[-> Hall] | (c1 & col & c2 & x & -> & Hall & Hcol & ->)].
      * left. split; [reflexivity | now constructor].
      * right. exists (l :: c1), col, c2, x. repeat split; auto.
    + discriminate H.
Qed.

(** What a turn decides on the row, when it does not raise, it decides on
    the dict. *)
Lemma price_at_json_safe (r : Row) (l : str) (d : option Q) :
  In l (map fst r) -> price_at r l = Ok d ->
  price_at (row_to_json_safe_dict r) l = Ok d.
Proof.
  unfold price_at. intros Hin H.
  destruct (contains (py "price") (lower l)); [|exact H].
  destruct (row_get r l) as [c|cells] eqn:Eg; [|discriminate H].
  now rewrite (json_safe_get r l c Hin Eg).
Qed.

(** The price read from the dict of a hit is the one read from its record. *)
Lemma extract_json_safe (r : Row) (price_val : option Q) :
  extract_price_value r = Ok price_val ->
  extract_price_value (row_to_json_safe_dict r) = Ok price_val.
Proof.
  unfold extract_price_value. intros H.
  destruct (json_safe_labels r) as [_ Hsub].
  apply extract_ok_inv in H
    as [[-> Hall] | (c1 & col & c2 & x & E & Hall & Hcol & ->)].
  - rewrite <- (app_nil_r (map fst (row_to_json_safe_dict r))).
    rewrite extract_skips; [reflexivity|].
    apply Forall_forall. intros l Hl. apply price_at_json_safe; [now apply Hsub|].
    rewrite Forall_forall in Hall. now apply Hall, Hsub.
  - apply map_eq_app in E as (r1 & r2' & -> & E1 & E2).
    apply map_eq_cons in E2 as ([k v] & r2 & -> & Ek & E2). cbn [fst] in Ek.
    subst k c1 c2.
    assert (Hin : In col (map fst (r1 ++ (col, v) :: r2))).
    { rewrite map_app. apply in_or_app. right. now left. }
    assert (Hget : exists c, row_get (r1 ++ (col, v) :: r2) col = Scalar c).
    { unfold price_at in Hcol.
      destruct (contains (py "price") (lower col)); [|discriminate Hcol].
      destruct (row_get (r1 ++ (col, v) :: r2) col) as [c|cells];
        [now exists c | discriminate Hcol]. }
    destruct Hget as [c Hget].
    destruct (row_get_scalar r1 r2 col v c Hget) as (H1 & H2 & _).
    pose proof (price_at_json_safe _ col (Some x) Hin Hcol) as Hcol'.
    assert (Hpre : forall l, In l (map fst r1) ->
              price_at (row_to_json_safe_dict (r1 ++ (col, v) :: r2)) l = Ok None).
    { intros l Hl. apply price_at_json_safe.
      - rewrite map_app. apply in_or_app. now left.
      - rewrite Forall_forall in Hall. now apply Hall. }
    set (D := row_to_json_safe_dict (r1 ++ (col, v) :: r2)) in *.
    assert (Hlab : exists d1 extra,
              map fst D = d1 ++ col :: extra
              /\ forall l, In l d1 -> In l (map fst r1)).
    { unfold D, row_to_json_safe_dict. rewrite fold_left_app, dict_fold_step.
      cbn [fst snd].
      destruct (dict_fold_labels r1 []) as (e1 & E1 & He1). cbn [map app] in E1.
      set (D1 := fold_left
                   (fun result kv => dict_set result (fst kv) (json_safe (snd kv)))
                   r1 []) in *.
      assert (Hout : ~ In col (map fst D1)).
      { rewrite E1. intros Hc. apply H1. now apply He1. }
      rewrite (dict_set_absent Cell D1 col v Hout).
      destruct (dict_fold_labels r2 (D1 ++ [(col, v)])) as (e2 & E2 & _).
      exists (map fst D1), e2. rewrite E2, map_app, <- app_assoc.
      split; [reflexivity|]. intros l Hl. rewrite E1 in Hl. now apply He1. }
    destruct Hlab as (d1 & extra & -> & Hd1).
    rewrite extract_skips.
    + now rewrite extract_step, Hcol'.
    + apply Forall_forall. intros l Hl. now apply Hpre, Hd1.
Qed.

End JsonFacts.

Section LoopFacts.

Variable sims : list Q.
Variable metadata : list Meta.
Variable category_filter : option str.
Variables min_p max_p : option Q.
Variable top_k : Z.

(** One turn of the loop, by what it decides about the candidate. *)
Lemma loop_step (idx : nat) (rest : list nat) (results : list Hit) :
  retrieve_loop sims metadata category_filter min_p max_p top_k (idx :: rest) results
  = match candidate_hit sims metadata category_filter min_p max_p idx with
    | Raise e => Raise e
    | Ok None =>
        retrieve_loop sims metadata category_filter min_p max_p top_k rest results
    | Ok (Some h) =>
        if (top_k <=? Z.of_nat (List.length (results ++ [h])))%Z
        then Ok (results ++ [h])
        else retrieve_loop sims metadata category_filter min_p max_p top_k rest
               (results ++ [h])
    end.
Proof.
  cbn [retrieve_loop]. unfold candidate_hit.
  destruct (Qlt_bool (nth idx sims 0) threshold); [reflexivity|].
  destruct (nth_error metadata idx) as [meta|]; [|reflexivity].
  destruct (truthy_str category_filter && _); [reflexivity|].
  destruct (extract_price_value (row meta)) as [price_val|e]; [|reflexivity].
  cbn [bind]. destruct (price_rejects min_p max_p price_val); reflexivity.
Qed.

Lemma candidate_hit_inv (idx : nat) (h : Hit) :
  candidate_hit sims metadata category_filter min_p max_p idx = Ok (Some h) ->
  exists meta,
    nth_error metadata idx = Some meta
    /\ h = make_hit (nth idx sims 0) meta
    /\ Qlt_bool (nth idx sims 0) threshold = false
    /\ (truthy_str category_filter = true -> category_filter = Some (category meta))
    /\ exists price_val,
         extract_price_value (row meta) = Ok price_val
         /\ price_rejects min_p max_p price_val = false.
Proof.
  unfold candidate_hit. intros H.
  destruct (Qlt_bool (nth idx sims 0) threshold) eqn:Et; [discriminate|].
  destruct (nth_error metadata idx) as [meta|]; [|discriminate].
  destruct (truthy_str category_filter && _) eqn:Ec; [discriminate|].
  destruct (extract_price_value (row meta)) as [price_val|e] eqn:Ex; [|discriminate].
  cbn [bind] in H.
  destruct (price_rejects _ _ _) eqn:Ep; [discriminate|].
  injection H as <-. exists meta. repeat split; try reflexivity;
    [|exists price_val; now split].
  intros Ht. rewrite Ht in Ec. cbn [andb] in Ec. apply negb_false_iff in Ec.
  destruct category_filter as [c|]; [|discriminate].
  unfold str_eqb in Ec. destruct (list_eq_dec ascii_dec (category meta) c); congruence.
Qed.

Ltac loop_turn H IH :=
  rewrite loop_step in H;
  match type of H with
  | context [candidate_hit ?a ?b ?c ?d ?e ?i] =>
      let Eh := fresh "Eh" in
      let Ek := fresh "Ek" in
      destruct (candidate_hit a b c d e i) as [[h|]|err] eqn:Eh;
      [ match type of H with
        | context [(?k <=? ?n)%Z] => destruct (k <=? n)%Z eqn:Ek
        end
      | | discriminate H ]
  end.

(** The loop only adds hits at the end of the list. *)
Lemma loop_extends (cands : list nat) : forall results r,
  retrieve_loop sims metadata category_filter min_p max_p top_k cands results = Ok r ->
  exists more, r = results ++ more.
Proof.
  induction cands as [|idx rest IH]; intros results r H.
  - injection H as <-. exists []. now rewrite app_nil_r.
  - loop_turn H IH.
    + injection H as <-. now exists [h].
    + apply IH in H as [more ->]. exists (h :: more). now rewrite <- app_assoc.
    + now apply IH.
Qed.

(** Hits come out in the order of the candidates. *)
Lemma loop_sorted (cands : list nat) : forall results r,
  descending (map score results ++ map (fun i => nth i sims 0) cands) ->
  retrieve_loop sims metadata category_filter min_p max_p top_k cands results = Ok r ->
  descending (map score r).
Proof.
  unfold descending.
  induction cands as [|idx rest IH]; intros results r Hs H.
  - injection H as <-. simpl in Hs. now rewrite app_nil_r in Hs.
  - cbn [map] in Hs. loop_turn H IH.
    + injection H as <-. apply candidate_hit_inv in Eh as (meta & _ & -> & _).
      rewrite map_app. cbn [map make_hit score].
      eapply sorted_keep_next. exact Hs.
    + apply IH in H; [exact H|].
      apply candidate_hit_inv in Eh as (meta & _ & -> & _).
      rewrite map_app, <- app_assoc. exact Hs.
    + apply IH in H; [exact H|]. eapply sorted_drop_middle. exact Hs.
Qed.

(** The loop stops as soon as [top_k] hits are held. *)
Lemma loop_bound (cands : list nat) : forall results r,
  (Z.of_nat (List.length results) < top_k)%Z ->
  retrieve_loop sims metadata category_filter min_p max_p top_k cands results = Ok r ->
  (Z.of_nat (List.length r) <= top_k)%Z.
Proof.
  induction cands as [|idx rest IH]; intros results r Hlt H.
  - injection H as <-. lia.
  - loop_turn H IH.
    + injection H as <-. rewrite length_app. simpl. lia.
    + apply IH in H; [exact H|]. apply Z.leb_gt in Ek. exact Ek.
    + now apply IH in H.
Qed.

(** With [top_k] below one the loop stops at its first hit. *)
Lemma loop_first_hit (cands : list nat) : forall r,
  (top_k <= 1)%Z ->
  retrieve_loop sims metadata category_filter min_p max_p top_k cands [] = Ok r ->
  (List.length r <= 1)%nat.
Proof.
  induction cands as [|idx rest IH]; intros r Hk H.
  - injection H as <-. simpl. lia.
  - loop_turn H IH.
    + injection H as <-. simpl. lia.
    + apply Z.leb_gt in Ek. simpl in Ek. lia.
    + now apply IH.
Qed.

(** The loop returns whenever every candidate has its metadata and no record
    repeats a column label. *)
Lemma loop_total (cands : list nat) : forall results,
  Forall (fun meta => distinct_labels (row meta)) metadata ->
  Forall (fun i => (i < List.length metadata)%nat) cands ->
  exists r,
    retrieve_loop sims metadata category_filter min_p max_p top_k cands results = Ok r.
Proof.
  induction cands as [|idx rest IH]; intros results Hlab Hin.
  - now exists results.
  - apply Forall_cons_iff in Hin as [Hidx Hrest]. rewrite loop_step.
    destruct (candidate_hit sims metadata category_filter min_p max_p idx)
      as [[h|]|err] eqn:Eh.
    + destruct (top_k <=? _)%Z; [eauto | now apply IH].
    + now apply IH.
    + exfalso. unfold candidate_hit in Eh.
      destruct (Qlt_bool _ _); [discriminate|].
      destruct (nth_error metadata idx) as [meta|] eqn:En.
      * destruct (_ && _); [discriminate|].
        assert (Hmeta : distinct_labels (row meta)).
        { rewrite Forall_forall in Hlab. apply Hlab. eapply nth_error_In. exact En. }
        destruct (extract_returns (row meta) Hmeta) as [price_val Ex].
        rewrite Ex in Eh. cbn [bind] in Eh.
        destruct (price_rejects _ _ _); discriminate.
      * apply nth_error_None in En. lia.
Qed.

(** Whatever holds of every hit a candidate can give holds of the results. *)
Lemma loop_forall (P : Hit -> Prop) (cands : list nat) : forall results r,
  (forall idx h, In idx cands ->
     candidate_hit sims metadata category_filter min_p max_p idx = Ok (Some h) -> P h) ->
  Forall P results ->
  retrieve_loop sims metadata category_filter min_p max_p top_k cands results = Ok r ->
  Forall P r.
Proof.
  induction cands as [|idx rest IH]; intros results r HP Hres H.
  - now injection H as <-.
  - assert (HP' : forall i h', In i rest ->
              candidate_hit sims metadata category_filter min_p max_p i = Ok (Some h') ->
              P h') by (intros i h' Hi; apply HP; now right).
    loop_turn H IH.
    + injection H as <-. apply Forall_app. split; [exact Hres|].
      constructor; [|constructor]. apply (HP idx); [now left | exact Eh].
    + apply (IH (results ++ [h])); [exact HP' | | exact H].
      apply Forall_app. split; [exact Hres|].
      constructor; [|constructor]. apply (HP idx); [now left | exact Eh].
    + now apply (IH results).
Qed.

(** A candidate that gives a hit is in the results, unless the loop stopped
    on [top_k] hits. *)
Lemma loop_keeps (cands : list nat) : forall results r idx h,
  In idx cands ->
  candidate_hit sims metadata category_filter min_p max_p idx = Ok (Some h) ->
  retrieve_loop sims metadata category_filter min_p max_p top_k cands results = Ok r ->
  In h r \/ (top_k <= Z.of_nat (List.length r))%Z.
Proof.
  induction cands as [|i rest IH]; intros results r idx h0 Hin Hh H; [destruct Hin|].
  loop_turn H IH.
  - injection H as <-. right. now apply Z.leb_le.
  - destruct Hin as [-> | Hin].
    + left. apply loop_extends in H as [more ->].
      rewrite Hh in Eh. injection Eh as <-.
      apply in_or_app. left. apply in_or_app. right. now left.
    + exact (IH _ _ idx h0 Hin Hh H).
  - destruct Hin as [-> | Hin]; [congruence|]. exact (IH _ _ idx h0 Hin Hh H).
Qed.

End LoopFacts.

(** ** Retrieval *)

Section RetrievalFacts.

Variables Vectorizer Matrix : Type.
Variable cosine_sims : Vectorizer -> Matrix -> str -> list Q.

(** What [retrieve_with_index] computes when an index is in place. *)
Lemma retrieve_unfold (query : str) (v : Vectorizer) (m : Matrix)
    (metadata : list Meta) (top_k : Z) (category_filter : option str)
    (hits : list Hit) :
  retrieve_with_index cosine_sims query (Some v) (Some m) metadata top_k
    category_filter = Ok hits ->
  exists min_p max_p,
    parse_price_constraints query = Ok (min_p, max_p)
    /\ retrieve_loop (cosine_sims v m query) metadata
         (detect_category category_filter (lower query)) min_p max_p top_k
         (candidate_indices (cosine_sims v m query)) [] = Ok hits.
Proof.
  unfold retrieve_with_index. intros H.
  destruct (parse_price_constraints query) as [[min_p max_p]|e]; [|discriminate].
  now exists min_p, max_p.
Qed.

(** X7. The hits are in descending order of score, for every [top_k]; they
    are at most [top_k] when [top_k] is at least one, and at most one
    otherwise. *)
Lemma retrieve_sorted_and_bounded (query : str) (vectorizer : option Vectorizer)
    (tfidf_matrix : option Matrix) (metadata : list Meta) (top_k : Z)
    (category_filter : option str) (hits : list Hit) :
  retrieve_with_index cosine_sims query vectorizer tfidf_matrix metadata top_k
    category_filter = Ok hits ->
  descending (map score hits)
  /\ ((1 <= top_k)%Z -> (Z.of_nat (List.length hits) <= top_k)%Z)
  /\ ((top_k <= 1)%Z -> (List.length hits <= 1)%nat).
Proof.
  intros H.
  destruct vectorizer as [v|], tfidf_matrix as [m|];
    try (injection H as <-; repeat split; [constructor | simpl; lia | simpl; lia]).
  apply retrieve_unfold in H as (min_p & max_p & _ & H).
  repeat split.
  - eapply loop_sorted; [|exact H]. apply candidates_descending.
  - intros Hk. eapply loop_bound; [|exact H]. simpl. lia.
  - intros Hk. eapply loop_first_hit; eassumption.
Qed.

(** Retrieval returns whenever the query parses, the metadata cover the
    scores and no record repeats a column label. *)
Lemma retrieve_returns (query : str) (vectorizer : option Vectorizer)
    (tfidf_matrix : option Matrix) (metadata : list Meta) (top_k : Z)
    (category_filter : option str) (pc : PriceConstraint) :
  parse_price_constraints query = Ok pc ->
  (forall v m, (List.length (cosine_sims v m query) <= List.length metadata)%nat) ->
  Forall (fun meta => distinct_labels (row meta)) metadata ->
  exists hits,
    retrieve_with_index cosine_sims query vectorizer tfidf_matrix metadata top_k
      category_filter = Ok hits.
Proof.
  intros Hp Hlen Hlab. unfold retrieve_with_index.
  destruct vectorizer as [v|], tfidf_matrix as [m|]; eauto.
  rewrite Hp. destruct pc as [min_p max_p]. cbn [bind].
  apply loop_total; [exact Hlab|]. eapply Forall_impl; [|apply candidates_in_range].
  intros i Hi. specialize (Hlen v m). cbn beta in Hi. lia.
Qed.

(** Every hit passed the category filter in force and was not rejected on
    its price. *)
Lemma retrieve_hits_pass_filters (query : str) (v : Vectorizer) (m : Matrix)
    (metadata : list Meta) (top_k : Z) (category_filter : option str)
    (min_p max_p : option Q) (hits : list Hit) :
  parse_price_constraints query = Ok (min_p, max_p) ->
  retrieve_with_index cosine_sims query (Some v) (Some m) metadata top_k
    category_filter = Ok hits ->
  Forall (fun h =>
            (truthy_str (detect_category category_filter (lower query)) = true ->
             detect_category category_filter (lower query) = Some (meta_category h))
            /\ exists price_val,
                 extract_price_value (data h) = Ok price_val
                 /\ price_rejects min_p max_p price_val = false)
         hits.
Proof.
  intros Hp H. apply retrieve_unfold in H as (lo & hi & Hp' & H).
  rewrite Hp in Hp'. injection Hp' as <- <-.
  eapply loop_forall; [| constructor | exact H].
  intros idx h _ Hh.
  apply candidate_hit_inv in Hh as (meta & _ & -> & _ & Hc & price_val & Hx & Hr).
  cbn [make_hit meta_category data]. split; [exact Hc|].
  exists price_val. split; [now apply extract_json_safe | exact Hr].
Qed.

(** What a price test that lets a record through says about its price,
    when neither the price nor the bound is zero. *)
Lemma price_within_bounds (min_p max_p : option Q) (p : Q) :
  price_rejects min_p max_p (Some p) = false -> ~ p == 0 ->
  (forall hi, max_p = Some hi -> ~ hi == 0 -> p <= hi)
  /\ (forall lo, min_p = Some lo -> ~ lo == 0 -> lo <= p).
Proof.
  unfold price_rejects, truthy, Qlt_bool. intros H Hp0.
  assert (Hp : Qeq_bool p 0 = false).
  { destruct (Qeq_bool p 0) eqn:E; [|reflexivity]. now apply Qeq_bool_iff in E. }
  rewrite Hp in H. cbn [negb] in H. rewrite !andb_true_r in H.
  apply orb_false_iff in H as [Hlo Hhi]. split.
  - intros hi -> Hhi0.
    assert (Hz : Qeq_bool hi 0 = false).
    { destruct (Qeq_bool hi 0) eqn:E; [|reflexivity]. now apply Qeq_bool_iff in E. }
    rewrite Hz in Hhi. cbn [negb andb] in Hhi.
    apply negb_false_iff, Qle_bool_iff in Hhi. exact Hhi.
  - intros lo -> Hlo0.
    assert (Hz : Qeq_bool lo 0 = false).
    { destruct (Qeq_bool lo 0) eqn:E; [|reflexivity]. now apply Qeq_bool_iff in E. }
    rewrite Hz in Hlo. cbn [negb andb] in Hlo.
    apply negb_false_iff, Qle_bool_iff in Hlo. exact Hlo.
Qed.

(** C3, as the code has it.  A candidate whose record gives no price, whose
    score reaches the threshold and which passes the category filter gives a
    hit whatever the price constraint of the query is, bound or no bound: it
    is among the results unless the loop stopped on [top_k] hits. *)
Theorem no_price_record_kept (query : str) (v : Vectorizer) (m : Matrix)
    (metadata : list Meta) (top_k : Z) (category_filter : option str)
    (hits : list Hit) (idx : nat) (meta : Meta) :
  retrieve_with_index cosine_sims query (Some v) (Some m) metadata top_k
    category_filter = Ok hits ->
  In idx (candidate_indices (cosine_sims v m query)) ->
  nth_error metadata idx = Some meta ->
  threshold <= nth idx (cosine_sims v m query) 0 ->
  (truthy_str (detect_category category_filter (lower query)) = true ->
   detect_category category_filter (lower query) = Some (category meta)) ->
  extract_price_value (row meta) = Ok None ->
  In (make_hit (nth idx (cosine_sims v m query) 0) meta) hits
  \/ (top_k <= Z.of_nat (List.length hits))%Z.
Proof.
  intros H Hin Hmeta Hsc Hcat Hprice.
  apply retrieve_unfold in H as (min_p & max_p & _ & H).
  eapply loop_keeps; [exact Hin | | exact H].
  unfold candidate_hit.
  assert (Ht : Qlt_bool (nth idx (cosine_sims v m query) 0) threshold = false).
  { unfold Qlt_bool. apply negb_false_iff. now apply Qle_bool_iff. }
  rewrite Ht, Hmeta, Hprice.
  assert (Hc : truthy_str (detect_category category_filter (lower query)) &&
               negb (str_eqb (category meta)
                       match detect_category category_filter (lower query) with
                       | Some c => c
                       | None => []
                       end) = false).
  { destruct (truthy_str (detect_category category_filter (lower query))) eqn:E;
      [|reflexivity].
    rewrite (Hcat eq_refl). cbn [andb]. apply negb_false_iff.
    unfold str_eqb. destruct (list_eq_dec ascii_dec (category meta) (category meta));
      congruence. }
  rewrite Hc. cbn [bind].
  assert (Hr : price_rejects min_p max_p None = false).
  { unfold price_rejects. cbn [truthy]. now rewrite !andb_false_r. }
  now rewrite Hr.
Qed.

End RetrievalFacts.

Lemma no_price_record_kept_witness :
  let q := py "laptop under 50000" in
  let meta := mkMeta (py "laptop") 0 [(py "name", Some (py "Dell Inspiron"))] in
  parse_price_constraints q = Ok (None, Some 50000)
  /\ extract_price_value (row meta) = Ok None
  /\ (In (make_hit (9 # 10) meta) [make_hit (9 # 10) meta]
      \/ (5 <= Z.of_nat (List.length [make_hit (9 # 10) meta]))%Z).
Proof.
  split; [reflexivity|]. split; [reflexivity|].
  apply (no_price_record_kept unit (list Q) Demo.sims_of
           (py "laptop under 50000") tt [9 # 10]
           [mkMeta (py "laptop") 0 [(py "name", Some (py "Dell Inspiron"))]]
           5 None _ 0%nat).
  - reflexivity.
  - left. reflexivity.
  - reflexivity.
  - vm_compute. discriminate.
  - reflexivity.
  - reflexivity.
Defined.

(** C3 as stated fails: the query "laptop under 50000" sets a max bound, the
    record has no price field, and the record is returned. *)
Lemma no_price_record_excluded_counterexample :
  let q := py "laptop under 50000" in
  let r := [(py "name", Some (py "Dell Inspiron"))] in
  parse_price_constraints q = Ok (None, Some 50000)
  /\ extract_price_value r = Ok None
  /\ retrieve_with_index Demo.sims_of q (Some tt) (Some [9 # 10])
       [mkMeta (py "laptop") 0 r] 5 None
     = Ok [mkHit (9 # 10) r (py "laptop") 0].
Proof.
  repeat split.
Qed.

(** C1 at [top_k = 0]: the loop tests the length of the results only after
    it has added a hit, so one hit is returned where at most zero were
    asked for. *)
Theorem top_k_zero_returns_a_hit :
  let r := [(py "name", Some (py "Dell Inspiron"))] in
  let top_k := 0%Z in
  exists hits,
    retrieve_with_index Demo.sims_of (py "dell") (Some tt) (Some [9 # 10])
      [mkMeta (py "laptop") 0 r] top_k None = Ok hits
    /\ hits = [mkHit (9 # 10) r (py "laptop") 0]
    /\ (top_k < Z.of_nat (List.length hits))%Z.
Proof.
  eexists. split; [reflexivity|]. split; [reflexivity|]. simpl. lia.
Qed.

(** C4 at a record whose price is 0 and at a bound that is 0: the price test
    reads the price and the bounds by their truth value, which is false at
    zero, so a record priced 0 is returned for "above 500" and a record
    priced 45000 is returned for "under 0". *)
Theorem zero_price_escapes_the_bounds :
  let free := [(py "name", Some (py "Laptop Sleeve")); (py "price", Some (py "0"))] in
  let dell := [(py "name", Some (py "Dell Inspiron")); (py "price", Some (py "45000"))] in
  (parse_price_constraints (py "laptop above 500") = Ok (Some 500, None)
   /\ extract_price_value free = Ok (Some 0)
   /\ retrieve_with_index Demo.sims_of (py "laptop above 500") (Some tt)
        (Some [9 # 10]) [mkMeta (py "laptop") 0 free] 5 None
      = Ok [mkHit (9 # 10) free (py "laptop") 0])
  /\ (parse_price_constraints (py "laptop under 0") = Ok (None, Some 0)
      /\ extract_price_value dell = Ok (Some 45000)
      /\ retrieve_with_index Demo.sims_of (py "laptop under 0") (Some tt)
           (Some [9 # 10]) [mkMeta (py "laptop") 0 dell] 5 None
         = Ok [mkHit (9 # 10) dell (py "laptop") 0]).
Proof.
  repeat split.
Qed.

(** ** Index builder and rebuild *)

Section RebuildFacts.

Variables Vectorizer Matrix : Type.
Variable cosine_sims : Vectorizer -> Matrix -> str -> list Q.
Variable fit_transform : list str -> result (Vectorizer * Matrix).

(** The builder returns the pair (None, None) exactly when fitting raised. *)
Lemma build_absent_iff (corpus : list str) :
  build_tfidf_index fit_transform corpus = (None, None)
  <-> exists e, fit_transform corpus = Raise e.
Proof.
  unfold build_tfidf_index. destruct (fit_transform corpus) as [[v m]|e].
  - split; [discriminate | intros [e H]; discriminate].
  - split; [eauto | reflexivity].
Qed.

(** C8, as the code has it.  When fitting raises, as scikit-learn does on an
    empty corpus and on a corpus that leaves no usable term, the builder
    returns the absent-index pair (None, None) instead of raising.  A
    rebuild whose index build fails this way still replaces the served
    state: corpus and metadata are the new ones, vectorizer and matrix are
    absent, and every retrieval returns no hit; only the artifacts on disk
    are left as they were. *)
Theorem failed_rebuild_drops_index (loaded : option Catalog)
    (s : Server Vectorizer Matrix) (e : pyexn) :
  let data := match loaded with Some d => d | None => [] end in
  let corpus := fst (build_corpus_from_data data) in
  let s' := fst (admin_rebuild fit_transform true loaded s) in
  fit_transform corpus = Raise e ->
  build_tfidf_index fit_transform corpus = (None, None)
  /\ VECTORIZER s' = None
  /\ TFIDF_MATRIX s' = None
  /\ CORPUS s' = corpus
  /\ METADATA s' = snd (build_corpus_from_data data)
  /\ disk s' = disk s
  /\ (forall query top_k category_filter,
        retrieve_with_index cosine_sims query (VECTORIZER s') (TFIDF_MATRIX s')
          (METADATA s') top_k category_filter = Ok []).
Proof.
  intros data corpus s' Hfit.
  assert (Hb : build_tfidf_index fit_transform corpus = (None, None)).
  { apply build_absent_iff. now exists e. }
  split; [exact Hb|].
  subst s'. unfold admin_rebuild. cbn [negb].
  change (match loaded with Some d => d | None => [] end) with data.
  rewrite (surjective_pairing (build_corpus_from_data data)).
  change (fst (build_corpus_from_data data)) with corpus. rewrite Hb.
  cbn [fst VECTORIZER TFIDF_MATRIX CORPUS METADATA disk].
  repeat split.
Qed.

End RebuildFacts.

Lemma failed_rebuild_drops_index_witness :
  let s := mkServer [] [py "laptop laptop laptop name Dell"]
             [mkMeta (py "laptop") 0 [(py "name", Some (py "Dell"))]]
             (Some tt) (Some [9 # 10]) None in
  Demo.fit (fst (build_corpus_from_data [])) = Raise ValueError
  /\ VECTORIZER (fst (admin_rebuild Demo.fit true None s)) = None
  /\ disk (fst (admin_rebuild Demo.fit true None s)) = disk s.
Proof.
  split; [reflexivity|].
  pose proof (failed_rebuild_drops_index unit (list Q) Demo.sims_of Demo.fit None
                (mkServer [] [py "laptop laptop laptop name Dell"]
                   [mkMeta (py "laptop") 0 [(py "name", Some (py "Dell"))]]
                   (Some tt) (Some [9 # 10]) None)
                ValueError eq_refl) as (_ & Hv & _ & _ & _ & Hd & _).
  split; [exact Hv | exact Hd].
Defined.

(** C8 as stated fails in its second half: a server that holds an index and
    answers a query with one hit holds no index after a rebuild whose load
    found no data, and answers the same query with no hit. *)
Lemma prior_index_in_service_counterexample :
  let r := [(py "name", Some (py "Dell"))] in
  let s := mkServer [(py "laptop", [(0%Z, r)])] [py "laptop laptop laptop name Dell"]
             [mkMeta (py "laptop") 0 r] (Some tt) (Some [9 # 10]) None in
  let s' := fst (admin_rebuild Demo.fit true None s) in
  build_tfidf_index Demo.fit (CORPUS s') = (None, None)
  /\ VECTORIZER s = Some tt /\ VECTORIZER s' = None
  /\ VECTORIZER s' <> VECTORIZER s
  /\ retrieve_with_index Demo.sims_of (py "dell") (VECTORIZER s) (TFIDF_MATRIX s)
       (METADATA s) 5 None = Ok [mkHit (9 # 10) r (py "laptop") 0]
  /\ retrieve_with_index Demo.sims_of (py "dell") (VECTORIZER s') (TFIDF_MATRIX s')
       (METADATA s') 5 None = Ok [].
Proof.
  repeat split. discriminate.
Qed.

Lemma greeting_by_substring_witness :
  contains (py "hi") (lower (py "Chips")) = true
  /\ (List.length (split (py "Chips")) < 3)%nat
  /\ generate_chat_response Demo.sims_of Demo.gemini (py "Chips")
       (Some tt) (Some [9 # 10]) []
     = ([], Ok (general greeting_reply)).
Proof.
  split; [reflexivity|]. split; [simpl; lia|].
  apply (greeting_by_substring unit (list Q) Demo.sims_of Demo.gemini (py "Chips")).
  - reflexivity.
  - simpl. lia.
Defined.

(** * Further properties of the engine *)

(** ** What a successful match looks like *)

Section MatchShape.

Lemma star_greedy_inv (A : Type) (cls : ascii -> bool) (s : str)
    (k : str -> option A) (c : A) :
  star_greedy cls s k = Some c ->
  exists pre s', s = pre ++ s' /\ forallb cls pre = true /\ k s' = Some c.
Proof.
  induction s as [|a s IH]; simpl; intros H.
  - now exists [], [].
  - destruct (cls a) eqn:Ea.
    + destruct (star_greedy cls s k) as [r|] eqn:Es.
      * injection H as <-. destruct (IH eq_refl) as (pre & s' & -> & Hpre & Hk).
        exists (a :: pre), s'. simpl. now rewrite Ea, Hpre.
      * now exists [], (a :: s).
    + now exists [], (a :: s).
Qed.

(** A pattern without groups hands its captures on unchanged, on a suffix of
    its input. *)
Lemma rmatch_no_group (r : regex) : forall s caps k c,
  no_group r = true ->
  rmatch r s caps k = Some c ->
  exists t, suffix_of t s /\ k t caps = Some c.
Proof.
  induction r as [l | r1 IH1 r2 IH2 | r1 IH1 r2 IH2 | cls | cls | r1 IH1 | n r1 IH1];
    intros s caps k c Hn H; simpl in Hn, H.
  - destruct (drop_prefix l s) as [s'|] eqn:E; [|discriminate].
    exists s'. split; [|exact H]. exists l. now apply drop_prefix_app.
  - apply andb_true_iff in Hn as [Hn1 Hn2].
    apply IH1 in H as (t & Ht & H); [|exact Hn1].
    apply IH2 in H as (t' & Ht' & H); [|exact Hn2].
    exists t'. split; [eapply suffix_trans; eassumption | exact H].
  - apply andb_true_iff in Hn as [Hn1 Hn2].
    destruct (rmatch r1 s caps k) as [c1|] eqn:E1.
    + injection H as <-. now apply IH1 in E1.
    + now apply IH2 in H.
  - apply star_greedy_inv in H as (pre & s' & -> & _ & H).
    exists s'. split; [now exists pre | exact H].
  - destruct s as [|a s]; [discriminate|]. destruct (cls a); [|discriminate].
    apply star_greedy_inv in H as (pre & s' & -> & _ & H).
    exists s'. split; [now exists (a :: pre) | exact H].
  - destruct (rmatch r1 s caps k) as [c1|] eqn:E1.
    + injection H as <-. now apply IH1 in E1.
    + exists s. split; [apply suffix_refl | exact H].
  - discriminate.
Qed.

Lemma firstn_consumed (g t : str) :
  firstn (List.length (g ++ t) - List.length t) (g ++ t) = g.
Proof.
  rewrite length_app, Nat.add_sub.
  rewrite firstn_app, Nat.sub_diag, firstn_all. simpl. apply app_nil_r.
Qed.

(** A group around a repeated character class records the text it took:
    at least one character, all of the class. *)
Lemma rmatch_group_plus (n : nat) (cls : ascii -> bool) (s : str) caps k c :
  rmatch (Grp n (Plus cls)) s caps k = Some c ->
  exists g t,
    s = g ++ t /\ g <> [] /\ forallb cls g = true /\ k t ((n, g) :: caps) = Some c.
Proof.
  cbn [rmatch]. destruct s as [|a s]; [discriminate|].
  destruct (cls a) eqn:Ea; [|discriminate]. intros H.
  apply star_greedy_inv in H as (pre & t & -> & Hpre & H).
  exists (a :: pre), t. split; [reflexivity|]. split; [discriminate|].
  split; [simpl; now rewrite Ea, Hpre|].
  change (a :: pre ++ t) with ((a :: pre) ++ t) in H.
  now rewrite firstn_consumed in H.
Qed.

Lemma search_inv (r : regex) (s : str) (c : captures) :
  search r s = Some c -> exists t, suffix_of t s /\ match_here r t = Some c.
Proof.
  induction s as [|a s IH]; simpl.
  - destruct (match_here r []) eqn:E; [|discriminate].
    intros H. injection H as <-. exists []. split; [apply suffix_refl | exact E].
  - destruct (match_here r (a :: s)) eqn:E.
    + intros H. injection H as <-. exists (a :: s). split; [apply suffix_refl | exact E].
    + intros H. apply IH in H as (t & Ht & H). exists t.
      split; [now apply suffix_cons | exact H].
Qed.

Lemma numeral_of_part (q t g t' : str) :
  suffix_of t q -> g <> [] -> forallb digit_or_comma g = true ->
  t = g ++ t' -> numeral_of q g.
Proof.
  intros [pre ->] Hne Hall ->. repeat split; [exact Hne | exact Hall |].
  intros x Hx. apply in_or_app. right. apply in_or_app. now left.
Qed.

Lemma suffix_app (g t : str) : suffix_of t (g ++ t).
Proof. now exists g. Qed.

(** The two range patterns record two numerals, the bound patterns one. *)
Lemma match_two_numerals (pre mid : regex) (q t : str) (c : captures) :
  no_group pre = true -> no_group mid = true -> suffix_of t q ->
  rmatch pre t []
    (fun s1 c1 => rmatch (Grp 1 (Plus digit_or_comma)) s1 c1
       (fun s2 c2 => rmatch mid s2 c2
          (fun s3 c3 => rmatch (Grp 2 (Plus digit_or_comma)) s3 c3
             (fun _ caps => Some caps)))) = Some c ->
  exists g1 g2, c = [(2%nat, g2); (1%nat, g1)] /\ numeral_of q g1 /\ numeral_of q g2.
Proof.
  intros Hp Hm Ht H.
  apply rmatch_no_group in H as (t1 & Ht1 & H); [|exact Hp].
  apply rmatch_group_plus in H as (g1 & t2 & E1 & Hne1 & Hall1 & H).
  apply rmatch_no_group in H as (t3 & Ht3 & H); [|exact Hm].
  apply rmatch_group_plus in H as (g2 & t4 & E2 & Hne2 & Hall2 & H).
  injection H as <-. exists g1, g2. split; [reflexivity|].
  assert (Hq1 : suffix_of t1 q) by (eapply suffix_trans; eassumption).
  split.
  - exact (numeral_of_part q t1 g1 t2 Hq1 Hne1 Hall1 E1).
  - assert (Hq3 : suffix_of t3 q).
    { eapply suffix_trans; [exact Ht3|]. eapply suffix_trans; [|exact Hq1].
      rewrite E1. apply suffix_app. }
    exact (numeral_of_part q t3 g2 t4 Hq3 Hne2 Hall2 E2).
Qed.

Lemma match_one_numeral (pre : regex) (q t : str) (c : captures) :
  no_group pre = true -> suffix_of t q ->
  rmatch pre t []
    (fun s1 c1 => rmatch (Grp 1 (Plus digit_or_comma)) s1 c1
       (fun _ caps => Some caps)) = Some c ->
  exists g, c = [(1%nat, g)] /\ numeral_of q g.
Proof.
  intros Hp Ht H.
  apply rmatch_no_group in H as (t1 & Ht1 & H); [|exact Hp].
  apply rmatch_group_plus in H as (g & t2 & E & Hne & Hall & H).
  injection H as <-. exists g. split; [reflexivity|].
  assert (Hq : suffix_of t1 q) by (eapply suffix_trans; eassumption).
  exact (numeral_of_part q t1 g t2 Hq Hne Hall E).
Qed.

End MatchShape.

(** ** More on the constraint parser *)

Section ParserMore.

Lemma digits_val_from (s : str) : forall acc : Z,
  forallb is_digit s = true -> (0 <= acc)%Z ->
  (0 <= fold_left (fun a c => 10 * a + digit_val c) s acc)%Z.
Proof.
  induction s as [|c s IH]; intros acc Hs Hacc; cbn [fold_left]; [exact Hacc|].
  cbn [forallb] in Hs. apply andb_true_iff in Hs as [Hc Hs]. apply IH; [exact Hs|].
  unfold is_digit in Hc. apply andb_true_iff in Hc as [Hlo _].
  apply Nat.leb_le in Hlo. unfold digit_val. unfold code in *. lia.
Qed.

Lemma digits_val_nonneg (s : str) :
  forallb is_digit s = true -> (0 <= digits_val s)%Z.
Proof.
  intros H. unfold digits_val. apply digits_val_from; [exact H | lia].
Qed.

Lemma float_of_digits_nonneg (s : str) (x : Q) :
  float_of_digits s = Ok x -> 0 <= x.
Proof.
  unfold float_of_digits. intros H.
  assert (Hx : forallb is_digit s = true /\ x = inject_Z (digits_val s)).
  { destruct s as [|c s]; [discriminate|].
    destruct (forallb is_digit (c :: s)); [|discriminate].
    injection H as <-. now split. }
  destruct Hx as [Hd ->]. unfold Qle, inject_Z. simpl.
  pose proof (digits_val_nonneg s Hd). lia.
Qed.

Lemma py_min_le_max (a b : Q) : py_min a b <= py_max a b.
Proof.
  unfold py_min, py_max.
  destruct (Qlt_le_dec b a) as [Hba | Hab], (Qlt_le_dec a b) as [Hab' | Hba'].
  - apply Qle_refl.
  - now apply Qlt_le_weak.
  - now apply Qlt_le_weak.
  - assert (E : a == b) by (now apply Qle_antisym). rewrite E. apply Qle_refl.
Qed.

Lemma py_min_nonneg (a b : Q) : 0 <= a -> 0 <= b -> 0 <= py_min a b.
Proof. intros Ha Hb. unfold py_min. now destruct (Qlt_le_dec b a). Qed.

Lemma py_max_nonneg (a b : Q) : 0 <= a -> 0 <= b -> 0 <= py_max a b.
Proof. intros Ha Hb. unfold py_max. now destruct (Qlt_le_dec a b). Qed.

Lemma between_numerals (q : str) (c : captures) :
  search re_between q = Some c ->
  exists g1 g2, c = [(2%nat, g2); (1%nat, g1)] /\ numeral_of q g1 /\ numeral_of q g2.
Proof.
  intros H. apply search_inv in H as (t & Ht & H).
  apply (match_two_numerals
           (Cat (Lit (py "between")) (Plus is_space))
           (Cat (Star is_space) (Cat (Alt (Lit (py "and")) (Lit (py "-")))
                                     (Star is_space)))
           q t c eq_refl eq_refl Ht).
  exact H.
Qed.

Lemma range_numerals (q : str) (c : captures) :
  search re_range q = Some c ->
  exists g1 g2, c = [(2%nat, g2); (1%nat, g1)] /\ numeral_of q g1 /\ numeral_of q g2.
Proof.
  intros H. apply search_inv in H as (t & Ht & H).
  apply (match_two_numerals (Lit [])
           (Cat (Star is_space) (Cat (Lit (py "-")) (Star is_space)))
           q t c eq_refl eq_refl Ht).
  exact H.
Qed.

Lemma bound_numeral (keywords : list str) (q : str) (c : captures) :
  search (re_bound keywords) q = Some c ->
  exists g, c = [(1%nat, g)] /\ numeral_of q g.
Proof.
  intros H. apply search_inv in H as (t & Ht & H).
  assert (Hk : no_group (alts (map Lit keywords)) = true).
  { clear. induction keywords as [|l [|l' ls] IH]; try reflexivity.
    change (no_group (Lit l) && no_group (alts (map Lit (l' :: ls))) = true).
    now rewrite IH. }
  apply (match_one_numeral
           (Cat (alts (map Lit keywords))
              (Cat (Star is_space) (Cat (Opt (Lit rupee)) (Star is_space))))
           q t c); [|exact Ht|exact H].
  cbn [no_group]. now rewrite Hk.
Qed.

(** The ways [parse_price_constraints] can end, with the numerals it read
    from the lower-cased query. *)
Lemma parse_cases (query : str) :
  (exists g1 g2,
     numeral_of (lower query) g1 /\ numeral_of (lower query) g2
     /\ parse_price_constraints query
        = (low <- float_of_digits (remove_commas g1) ;;
           high <- float_of_digits (remove_commas g2) ;;
           Ok (Some (py_min low high), Some (py_max low high))))
  \/ (exists g,
        numeral_of (lower query) g
        /\ parse_price_constraints query
           = (hi <- float_of_digits (remove_commas g) ;; Ok (None, Some hi)))
  \/ (exists g,
        numeral_of (lower query) g
        /\ parse_price_constraints query
           = (lo <- float_of_digits (remove_commas g) ;; Ok (Some lo, None)))
  \/ parse_price_constraints query = Ok (None, None).
Proof.
  unfold parse_price_constraints, group_float.
  destruct (search re_between (lower query)) as [c|] eqn:E1.
  { left. apply between_numerals in E1 as (g1 & g2 & -> & H1 & H2).
    exists g1, g2. split; [exact H1|]. split; [exact H2|]. reflexivity. }
  destruct (search re_range (lower query)) as [c|] eqn:E2.
  { left. apply range_numerals in E2 as (g1 & g2 & -> & H1 & H2).
    exists g1, g2. split; [exact H1|]. split; [exact H2|]. reflexivity. }
  destruct (search re_under (lower query)) as [c|] eqn:E3.
  { right. left. apply bound_numeral in E3 as (g & -> & Hg).
    exists g. split; [exact Hg | reflexivity]. }
  destruct (search re_over (lower query)) as [c|] eqn:E4.
  { right. right. left. apply bound_numeral in E4 as (g & -> & Hg).
    exists g. split; [exact Hg | reflexivity]. }
  now right; right; right.
Qed.

Lemma bind_ok (A B : Type) (m : result A) (f : A -> result B) (b : B) :
  bind m f = Ok b -> exists a, m = Ok a /\ f a = Ok b.
Proof. destruct m as [a|e]; [now exists a | discriminate]. Qed.

(** X1. Whatever the query, a constraint that the parser returns has bounds
    that are not negative, and when it has both its minimum is at most its
    maximum. *)
Theorem parsed_constraint_well_formed (query : str) (lo hi : option Q) :
  parse_price_constraints query = Ok (lo, hi) ->
  (forall x, lo = Some x -> 0 <= x)
  /\ (forall x, hi = Some x -> 0 <= x)
  /\ (forall x y, lo = Some x -> hi = Some y -> x <= y).
Proof.
  intros H.
  destruct (parse_cases query)
    as [(g1 & g2 & _ & _ & E) | [(g & _ & E) | [(g & _ & E) | E]]];
    rewrite E in H.
  - apply bind_ok in H as (low & Hlow & H). apply bind_ok in H as (high & Hhigh & H).
    injection H as <- <-.
    apply float_of_digits_nonneg in Hlow, Hhigh.
    repeat split.
    + intros x Hx. injection Hx as <-. now apply py_min_nonneg.
    + intros x Hx. injection Hx as <-. now apply py_max_nonneg.
    + intros x y Hx Hy. injection Hx as <-. injection Hy as <-. apply py_min_le_max.
  - apply bind_ok in H as (x0 & Hx0 & H). injection H as <- <-.
    apply float_of_digits_nonneg in Hx0.
    repeat split; try discriminate. intros x Hx. now injection Hx as <-.
  - apply bind_ok in H as (x0 & Hx0 & H). injection H as <- <-.
    apply float_of_digits_nonneg in Hx0.
    repeat split; try discriminate. intros x Hx. now injection Hx as <-.
  - injection H as <- <-. repeat split; discriminate.
Qed.

Lemma lower_char_comma (c : ascii) : lower_char c = ","%char -> c = ","%char.
Proof.
  destruct c as [[] [] [] [] [] [] [] []]; try reflexivity; intros H;
    vm_compute in H; discriminate H.
Qed.

Lemma numeral_has_digit (q g : str) :
  ~ In ","%char q -> numeral_of (lower q) g -> existsb is_digit g = true.
Proof.
  intros Hq (Hne & Hall & Hin). destruct g as [|c g]; [congruence|].
  cbn [forallb] in Hall. apply andb_true_iff in Hall as [Hc _].
  cbn [existsb]. unfold digit_or_comma in Hc. apply orb_true_iff in Hc as [Hd | Hcomma].
  - now rewrite Hd.
  - exfalso. apply Ascii.eqb_eq in Hcomma. subst c.
    specialize (Hin ","%char (or_introl eq_refl)).
    unfold lower in Hin. apply in_map_iff in Hin as (x & Hx & Hxq).
    apply lower_char_comma in Hx. now subst x.
Qed.

(** X2. A query without a comma never makes the parser raise. *)
Theorem parse_without_comma_returns (query : str) :
  ~ In ","%char query ->
  exists constraint, parse_price_constraints query = Ok constraint.
Proof.
  intros Hq.
  assert (Hf : forall g, numeral_of (lower query) g ->
            float_of_digits (remove_commas g)
            = Ok (inject_Z (digits_val (remove_commas g)))).
  { intros g Hg. apply float_of_numeral; [apply Hg|].
    exact (numeral_has_digit query g Hq Hg). }
  destruct (parse_cases query)
    as [(g1 & g2 & H1 & H2 & E) | [(g & Hg & E) | [(g & Hg & E) | E]]];
    rewrite E.
  - rewrite (Hf g1 H1), (Hf g2 H2). cbn [bind]. eauto.
  - rewrite (Hf g Hg). cbn [bind]. eauto.
  - rewrite (Hf g Hg). cbn [bind]. eauto.
  - eauto.
Qed.

Lemma star_greedy_prefix (A : Type) (cls : ascii -> bool) (pre rest : str)
    (k : str -> option A) (r : A) :
  forallb cls pre = true ->
  match rest with [] => true | c :: _ => negb (cls c) end = true ->
  k rest = Some r ->
  star_greedy cls (pre ++ rest) k = Some r.
Proof.
  intros Hpre Hrest Hk. induction pre as [|a pre IH].
  - simpl. destruct rest as [|c rest]; [exact Hk|].
    apply negb_true_iff in Hrest. simpl. now rewrite Hrest.
  - cbn [forallb] in Hpre. apply andb_true_iff in Hpre as [Ha Hpre].
    simpl. now rewrite Ha, (IH Hpre).
Qed.

Lemma commas_are_numeral (cs : str) :
  forallb (Ascii.eqb ","%char) cs = true -> forallb digit_or_comma cs = true.
Proof.
  intros H. rewrite forallb_forall in *. intros x Hx. specialize (H x Hx).
  apply Ascii.eqb_eq in H. now subst x.
Qed.

Lemma commas_removed (cs : str) :
  forallb (Ascii.eqb ","%char) cs = true -> remove_commas cs = [].
Proof.
  induction cs as [|c cs IH]; intros H; [reflexivity|].
  cbn [forallb] in H. apply andb_true_iff in H as [Hc Hcs].
  apply Ascii.eqb_eq in Hc. subst c. simpl. now apply IH.
Qed.

Lemma numeral_class_lower (c : ascii) :
  digit_or_comma (lower_char c) = digit_or_comma c.
Proof. destruct c as [[] [] [] [] [] [] [] []]; reflexivity. Qed.

(** X3. A comma right after the keyword makes the parser raise: for a query
    that starts with "under", then one or more commas, then anything that
    does not go on with a digit or a comma, and that holds neither "between"
    nor a dash, [float] is called on the empty text and [ValueError] leaves
    the parser. *)
Theorem comma_after_keyword_raises (cs rest : str) :
  cs <> [] ->
  forallb (Ascii.eqb ","%char) cs = true ->
  match rest with [] => true | c :: _ => negb (digit_or_comma c) end = true ->
  contains (py "between") (lower (py "under" ++ cs ++ rest)) = false ->
  contains (py "-") (lower (py "under" ++ cs ++ rest)) = false ->
  parse_price_constraints (py "under" ++ cs ++ rest) = Raise ValueError.
Proof.
  intros Hne Hcs Hrest Hb Hd.
  assert (Hnum := commas_are_numeral cs Hcs).
  assert (Hlow : lower (py "under" ++ cs ++ rest) = py "under" ++ cs ++ lower rest).
  { unfold lower. rewrite !map_app. change (map lower_char cs) with (lower cs).
    rewrite (numeral_lower cs Hnum). reflexivity. }
  unfold parse_price_constraints. rewrite Hlow in *.
  assert (H1 : search re_between (py "under" ++ cs ++ lower rest) = None).
  { apply search_fail. intros t Ht. unfold match_here.
    now apply lit_absent_fail with (s := py "under" ++ cs ++ lower rest). }
  assert (H2 : search re_range (py "under" ++ cs ++ lower rest) = None).
  { apply search_fail. intros t Ht. unfold match_here, re_range, cats.
    apply cat_fail. intros t1 c1 Ht1. apply cat_fail. intros t2 c2 Ht2.
    apply lit_absent_fail with (s := py "under" ++ cs ++ lower rest); [exact Hd|].
    eapply suffix_trans; [exact Ht2|]. eapply suffix_trans; eassumption. }
  rewrite H1, H2.
  assert (H3 : search re_under (py "under" ++ cs ++ lower rest) = Some [(1%nat, cs)]).
  { destruct cs as [|c cs']; [congruence|].
    cbn [forallb] in Hnum. apply andb_true_iff in Hnum as [Hc Hcs'].
    assert (Hsp := numeral_not_space c Hc).
    assert (Hru : Ascii.eqb "226" c = false).
    { cbn [forallb] in Hcs. apply andb_true_iff in Hcs as [Hcc _].
      apply Ascii.eqb_eq in Hcc. now subst c. }
    assert (Hrest' : match lower rest with
                     | [] => true
                     | c0 :: _ => negb (digit_or_comma c0)
                     end = true).
    { destruct rest as [|c0 rest']; [reflexivity|].
      cbn [lower map]. now rewrite numeral_class_lower. }
    apply search_here. unfold match_here, re_under, re_bound, max_keywords.
    cbn [alts cats map rmatch app].
    rewrite drop_prefix_here.
    rewrite star_greedy_stop by exact Hsp.
    cbn [rupee drop_prefix]. rewrite Hru.
    rewrite star_greedy_stop by exact Hsp.
    rewrite Hc.
    erewrite star_greedy_prefix; [reflexivity | exact Hcs' | exact Hrest' |].
    change (c :: cs' ++ lower rest) with ((c :: cs') ++ lower rest).
    now rewrite firstn_consumed. }
  rewrite H3. unfold group_float. cbn [group Nat.eqb].
  now rewrite (commas_removed cs Hcs).
Qed.

End ParserMore.

Lemma parsed_constraint_well_formed_witness :
  parse_price_constraints (py "between 3000 - 1,000") = Ok (Some 1000, Some 3000)
  /\ 0 <= 1000 /\ 0 <= 3000 /\ 1000 <= 3000.
Proof.
  split; [reflexivity|].
  destruct (parsed_constraint_well_formed (py "between 3000 - 1,000")
              (Some 1000) (Some 3000) eq_refl) as (Hlo & Hhi & Hord).
  split; [exact (Hlo _ eq_refl)|]. split; [exact (Hhi _ eq_refl)|].
  exact (Hord _ _ eq_refl eq_refl).
Defined.

Lemma parse_without_comma_returns_witness :
  ~ In ","%char (py "phones between 10000 and 20000")
  /\ exists constraint,
       parse_price_constraints (py "phones between 10000 and 20000") = Ok constraint.
Proof.
  assert (H : ~ In ","%char (py "phones between 10000 and 20000")).
  { intros H. repeat (destruct H as [H | H]; [discriminate H|]). exact H. }
  split; [exact H|].
  exact (parse_without_comma_returns (py "phones between 10000 and 20000") H).
Defined.

Lemma comma_after_keyword_raises_witness :
  parse_price_constraints (py "under, say 20000") = Raise ValueError.
Proof.
  apply (comma_after_keyword_raises (py ",") (py " say 20000"));
    [discriminate | reflexivity | reflexivity | reflexivity | reflexivity].
Defined.

(** ** The forms of query that the parser reads *)

Section Language.

Lemma star_greedy_complete (A : Type) (cls : ascii -> bool) (w t : str)
    (k : str -> option A) :
  forallb cls w = true -> k t <> None -> star_greedy cls (w ++ t) k <> None.
Proof.
  intros Hw Hk. induction w as [|a w IH].
  - cbn [app]. destruct t as [|c t']; [exact Hk|]. cbn [star_greedy].
    destruct (cls c); [|exact Hk].
    destruct (star_greedy cls t' k); [discriminate | exact Hk].
  - cbn [forallb] in Hw. apply andb_true_iff in Hw as [Ha Hw].
    cbn [app star_greedy]. rewrite Ha.
    destruct (star_greedy cls (w ++ t) k) eqn:E; [discriminate|].
    exfalso. exact (IH Hw eq_refl).
Qed.

(** A text of the language of a pattern is matched, whenever the rest of the
    match succeeds after it. *)
Lemma rmatch_complete (r : regex) : forall w t caps k,
  in_lang r w -> (forall caps', k t caps' <> None) ->
  rmatch r (w ++ t) caps k <> None.
Proof.
  induction r as [l | r1 IH1 r2 IH2 | r1 IH1 r2 IH2 | cls | cls | r1 IH1 | n r1 IH1];
    intros w t caps k Hw Hk; cbn [rmatch in_lang] in *.
  - subst w. rewrite drop_prefix_here. apply Hk.
  - destruct Hw as (w1 & w2 & -> & H1 & H2). rewrite <- app_assoc.
    apply IH1; [exact H1|]. intros caps'. now apply IH2.
  - destruct (rmatch r1 (w ++ t) caps k) eqn:E; [discriminate|].
    destruct Hw as [H | H]; [|now apply IH2].
    exfalso. exact (IH1 w t caps k H Hk E).
  - apply star_greedy_complete; [exact Hw | apply Hk].
  - destruct Hw as [Hne Hw]. destruct w as [|a w]; [congruence|].
    cbn [forallb] in Hw. apply andb_true_iff in Hw as [Ha Hw].
    cbn [app]. rewrite Ha. apply star_greedy_complete; [exact Hw | apply Hk].
  - destruct (rmatch r1 (w ++ t) caps k) eqn:E; [discriminate|].
    destruct Hw as [-> | H]; [apply Hk|].
    exfalso. exact (IH1 w t caps k H Hk E).
  - apply IH1; [exact Hw|]. intros caps'. apply Hk.
Qed.

(** A pattern without groups takes a text of its language off its input. *)
Lemma rmatch_sound (r : regex) : forall s caps k c,
  no_group r = true ->
  rmatch r s caps k = Some c ->
  exists w t, s = w ++ t /\ in_lang r w /\ k t caps = Some c.
Proof.
  induction r as [l | r1 IH1 r2 IH2 | r1 IH1 r2 IH2 | cls | cls | r1 IH1 | n r1 IH1];
    intros s caps k c Hn H; cbn [rmatch no_group in_lang] in *.
  - destruct (drop_prefix l s) as [s'|] eqn:E; [|discriminate].
    exists l, s'. split; [now apply drop_prefix_app|]. now split.
  - apply andb_true_iff in Hn as [Hn1 Hn2].
    apply IH1 in H as (w1 & t1 & -> & Hw1 & H); [|exact Hn1].
    apply IH2 in H as (w2 & t2 & -> & Hw2 & H); [|exact Hn2].
    exists (w1 ++ w2), t2. split; [now rewrite app_assoc|].
    split; [now exists w1, w2 | exact H].
  - apply andb_true_iff in Hn as [Hn1 Hn2].
    destruct (rmatch r1 s caps k) as [c1|] eqn:E1.
    + injection H as <-. apply IH1 in E1 as (w & t & -> & Hw & H); [|exact Hn1].
      exists w, t. split; [reflexivity|]. split; [now left | exact H].
    + apply IH2 in H as (w & t & -> & Hw & H); [|exact Hn2].
      exists w, t. split; [reflexivity|]. split; [now right | exact H].
  - apply star_greedy_inv in H as (pre & s' & -> & Hpre & H). now exists pre, s'.
  - destruct s as [|a s]; [discriminate|]. destruct (cls a) eqn:Ea; [|discriminate].
    apply star_greedy_inv in H as (pre & s' & -> & Hpre & H).
    exists (a :: pre), s'. split; [reflexivity|]. split; [|exact H].
    split; [discriminate|]. cbn [forallb]. now rewrite Ea, Hpre.
  - destruct (rmatch r1 s caps k) as [c1|] eqn:E1.
    + injection H as <-. apply IH1 in E1 as (w & t & -> & Hw & H); [|exact Hn].
      exists w, t. split; [reflexivity|]. split; [now right | exact H].
    + exists [], s. split; [reflexivity|]. split; [now left | exact H].
  - discriminate.
Qed.

Lemma in_lang_alts (kws : list str) (w : str) :
  kws <> [] -> in_lang (alts (map Lit kws)) w <-> In w kws.
Proof.
  induction kws as [|k [|k' ks] IH]; intros Hne; [congruence | |].
  - cbn. split; [intros ->; now left | intros [<- | []]; reflexivity].
  - change (alts (map Lit (k :: k' :: ks)))
      with (Alt (Lit k) (alts (map Lit (k' :: ks)))).
    cbn [in_lang]. rewrite IH by discriminate. cbn [In].
    split; intros [H | H]; auto.
Qed.

(** A text splits in one way only into a part made of a class of characters
    and a rest that does not go on with that class. *)
Lemma split_unique (cls : ascii -> bool) (a1 : str) : forall b1 a2 b2 : str,
  a1 ++ b1 = a2 ++ b2 ->
  forallb cls a1 = true -> forallb cls a2 = true ->
  (forall c t, b1 = c :: t -> cls c = false) ->
  (forall c t, b2 = c :: t -> cls c = false) ->
  a1 = a2 /\ b1 = b2.
Proof.
  induction a1 as [|x a1 IH]; intros b1 a2 b2 E H1 H2 Hb1 Hb2.
  - destruct a2 as [|y a2]; [now split|].
    cbn [app] in E. cbn [forallb] in H2. apply andb_true_iff in H2 as [Hy _].
    rewrite (Hb1 y (a2 ++ b2) E) in Hy. discriminate.
  - cbn [forallb] in H1. apply andb_true_iff in H1 as [Hx H1].
    destruct a2 as [|y a2].
    + cbn [app] in E. symmetry in E. rewrite (Hb2 x (a1 ++ b1) E) in Hx. discriminate.
    + cbn [app] in E. injection E as -> E.
      cbn [forallb] in H2. apply andb_true_iff in H2 as [_ H2].
      destruct (IH b1 a2 b2 E H1 H2 Hb1 Hb2) as [-> ->]. now split.
Qed.

End Language.

Section QueryForms.

Lemma search_first (r : regex) (c : captures) (t0 : str) (pre : str) :
  match_here r t0 <> None ->
  (forall p1 p2 c', pre = p1 ++ p2 -> match_here r (p2 ++ t0) = Some c' -> c' = c) ->
  search r (pre ++ t0) = Some c.
Proof.
  intros Hex Huniq. induction pre as [|a pre IH].
  - cbn [app]. apply search_here.
    destruct (match_here r t0) as [c'|] eqn:E; [|congruence].
    now rewrite (Huniq [] [] c' eq_refl E).
  - cbn [app search].
    destruct (match_here r (a :: pre ++ t0)) as [c'|] eqn:E.
    + now rewrite (Huniq [] (a :: pre) c' eq_refl E).
    + destruct (a :: pre ++ t0) eqn:El; [discriminate|]. injection El as <- <-.
      apply IH. intros p1 p2 c' -> H. exact (Huniq (a :: p1) p2 c' eq_refl H).
Qed.

Lemma numeral_free_app (a b : str) :
  numeral_free (a ++ b) <-> numeral_free a /\ numeral_free b.
Proof.
  unfold numeral_free. rewrite forallb_app. apply andb_true_iff.
Qed.

Lemma blank_free (s : str) : blank s -> numeral_free s.
Proof.
  unfold blank, numeral_free. rewrite !forallb_forall. intros H x Hx.
  specialize (H x Hx). apply negb_true_iff.
  destruct (digit_or_comma x) eqn:E; [|reflexivity].
  apply numeral_not_space in E. congruence.
Qed.

Lemma free_head (s : str) (c : ascii) (t : str) :
  numeral_free s -> s = c :: t -> digit_or_comma c = false.
Proof.
  intros H ->. unfold numeral_free in H. cbn [forallb] in H.
  apply andb_true_iff in H as [H _]. now apply negb_true_iff in H.
Qed.

Lemma run_head (g rest : str) (c : ascii) (t : str) :
  g <> [] -> forallb digit_or_comma g = true -> g ++ rest = c :: t ->
  negb (digit_or_comma c) = false.
Proof.
  intros Hne Hg E. destruct g as [|a g]; [congruence|].
  cbn [app] in E. injection E as <- _. cbn [forallb] in Hg.
  apply andb_true_iff in Hg as [Ha _]. now rewrite Ha.
Qed.

Lemma ends_head (rest : str) (c : ascii) (t : str) :
  numeral_ends rest -> rest = c :: t -> digit_or_comma c = false.
Proof. intros H ->. exact H. Qed.

(** The last group of a pattern takes the whole numeral in front of it. *)
Lemma final_group (i : nat) (g rest : str) (caps : captures) :
  g <> [] -> forallb digit_or_comma g = true -> numeral_ends rest ->
  rmatch (Grp i (Plus digit_or_comma)) (g ++ rest) caps (fun _ c => Some c)
  = Some ((i, g) :: caps).
Proof.
  intros Hne Hg Hrest. destruct g as [|a g]; [congruence|].
  cbn [forallb] in Hg. apply andb_true_iff in Hg as [Ha Hg].
  cbn [rmatch app]. rewrite Ha.
  erewrite star_greedy_prefix; [reflexivity | exact Hg | |].
  - destruct rest as [|c rest]; [reflexivity|]. cbn in Hrest. now rewrite Hrest.
  - change (a :: g ++ rest) with ((a :: g) ++ rest). now rewrite firstn_consumed.
Qed.

(** A match of a pattern that ends in a numeral group, on a text whose first
    digit or comma starts the numeral [n]: the group holds [n]. *)
Lemma one_numeral_unique (P : regex) (lead n post : str) (c : captures) :
  no_group P = true ->
  (forall w, in_lang P w -> numeral_free w) ->
  numeral_free lead ->
  n <> [] -> forallb digit_or_comma n = true -> numeral_ends post ->
  rmatch P (lead ++ n ++ post) []
    (fun s1 c1 => rmatch (Grp 1 (Plus digit_or_comma)) s1 c1
       (fun _ caps => Some caps)) = Some c ->
  c = [(1%nat, n)].
Proof.
  intros HP Hfree Hlead Hne Hn Hpost H.
  apply rmatch_sound in H as (w & t1 & E & Hw & H); [|exact HP].
  pose proof H as H'.
  apply rmatch_group_plus in H' as (g & t2 & Et & Hgne & Hg & _).
  destruct (split_unique (fun x => negb (digit_or_comma x)) lead (n ++ post) w t1)
    as [<- <-]; [exact E | exact Hlead | exact (Hfree w Hw) | | |].
  - intros x t Ex. exact (run_head n post x t Hne Hn Ex).
  - intros x t Ex. subst t1. exact (run_head g t2 x t Hgne Hg Ex).
  - assert (F : Some c = Some [(1%nat, n)]).
    { rewrite <- H. now apply final_group. }
    now injection F as ->.
Qed.

(** The same for a pattern with two numeral groups and a separator that
    takes at least one character, none of them a digit or a comma. *)
Lemma two_numerals_unique (P M : regex) (lead n1 gap n2 post : str) (c : captures) :
  no_group P = true -> no_group M = true ->
  (forall w, in_lang P w -> numeral_free w) ->
  (forall w, in_lang M w -> numeral_free w /\ w <> []) ->
  numeral_free lead ->
  n1 <> [] -> forallb digit_or_comma n1 = true ->
  numeral_free gap -> gap <> [] ->
  n2 <> [] -> forallb digit_or_comma n2 = true -> numeral_ends post ->
  rmatch P (lead ++ n1 ++ gap ++ n2 ++ post) []
    (fun s1 c1 => rmatch (Grp 1 (Plus digit_or_comma)) s1 c1
       (fun s2 c2 => rmatch M s2 c2
          (fun s3 c3 => rmatch (Grp 2 (Plus digit_or_comma)) s3 c3
             (fun _ caps => Some caps)))) = Some c ->
  c = [(2%nat, n2); (1%nat, n1)].
Proof.
  intros HP HM HfP HfM Hlead Hne1 Hn1 Hgap Hgne Hne2 Hn2 Hpost H.
  apply rmatch_sound in H as (w & t1 & E & Hw & H); [|exact HP].
  apply rmatch_group_plus in H as (g1 & t2 & Et1 & Hg1ne & Hg1 & H).
  destruct (split_unique (fun x => negb (digit_or_comma x)) lead
              (n1 ++ gap ++ n2 ++ post) w t1) as [<- <-];
    [exact E | exact Hlead | exact (HfP w Hw) | | |].
  - intros x t Ex. exact (run_head n1 _ x t Hne1 Hn1 Ex).
  - intros x t Ex. subst t1. exact (run_head g1 t2 x t Hg1ne Hg1 Ex).
  - apply rmatch_sound in H as (wm & t3 & Et2 & Hwm & H); [|exact HM].
    destruct (HfM wm Hwm) as [Hwmf Hwmne]. subst t2.
    destruct (split_unique digit_or_comma n1 (gap ++ n2 ++ post) g1 (wm ++ t3))
      as [<- E2]; [exact Et1 | exact Hn1 | exact Hg1 | | |].
    + intros x t Ex. destruct gap as [|y gap]; [congruence|].
      cbn [app] in Ex. injection Ex as <- _. exact (free_head _ y gap Hgap eq_refl).
    + intros x t Ex. destruct wm as [|y wm]; [congruence|].
      cbn [app] in Ex. injection Ex as <- _. exact (free_head _ y wm Hwmf eq_refl).
    + pose proof H as H'.
      apply rmatch_group_plus in H' as (g2 & t4 & Et3 & Hg2ne & Hg2 & _).
      destruct (split_unique (fun x => negb (digit_or_comma x)) gap (n2 ++ post) wm t3)
        as [<- <-]; [exact E2 | exact Hgap | exact Hwmf | | |].
      * intros x t Ex. exact (run_head n2 post x t Hne2 Hn2 Ex).
      * intros x t Ex. subst t3. exact (run_head g2 t4 x t Hg2ne Hg2 Ex).
      * assert (F : Some c = Some [(2%nat, n2); (1%nat, n1)]).
        { rewrite <- H. now apply final_group. }
        now injection F as ->.
Qed.

End QueryForms.

Section ParserForms.

Lemma keywords_free (k : str) :
  In k (max_keywords ++ min_keywords) -> numeral_free k.
Proof.
  intros H. repeat (destruct H as [<- | H]; [reflexivity|]). destruct H.
Qed.

Lemma numeral_not_empty (n : str) : numeral n -> n <> [].
Proof. intros (_ & H & _) ->. discriminate H. Qed.

Lemma alts_no_group (kws : list str) : no_group (alts (map Lit kws)) = true.
Proof.
  induction kws as [|l [|l' ls] IH]; try reflexivity.
  change (no_group (Lit l) && no_group (alts (map Lit (l' :: ls))) = true).
  now rewrite IH.
Qed.

Lemma bound_prefix_free (kws : list str) (w : str) :
  kws <> [] -> (forall k, In k kws -> numeral_free k) ->
  in_lang (Cat (alts (map Lit kws))
             (Cat (Star is_space) (Cat (Opt (Lit rupee)) (Star is_space)))) w ->
  numeral_free w.
Proof.
  intros Hne Hk H. cbn [in_lang] in H.
  destruct H as (w1 & w2 & -> & H1 & w3 & w4 & -> & H3 & w5 & w6 & -> & H5 & H6).
  apply in_lang_alts in H1; [|exact Hne].
  rewrite !numeral_free_app. repeat split.
  - now apply Hk.
  - now apply blank_free.
  - destruct H5 as [-> | ->]; reflexivity.
  - now apply blank_free.
Qed.

(** The bound patterns: the first keyword that is followed by a numeral,
    blanks and a currency sign apart, gives the bound. *)
Lemma search_bound (kws : list str) (pre kw sp1 cur sp2 n post : str) :
  (forall k, In k kws -> numeral_free k) -> In kw kws ->
  numeral_free pre -> blank sp1 -> cur = [] \/ cur = rupee -> blank sp2 ->
  numeral n -> numeral_ends post ->
  search (re_bound kws) (pre ++ kw ++ sp1 ++ cur ++ sp2 ++ n ++ post)
  = Some [(1%nat, n)].
Proof.
  intros Hk Hin Hpre Hs1 Hcur Hs2 Hnum Hpost.
  pose proof (numeral_not_empty n Hnum) as Hne. destruct Hnum as [Hn _].
  assert (Hkws : kws <> []) by (intros ->; destruct Hin).
  set (P := Cat (alts (map Lit kws))
              (Cat (Star is_space) (Cat (Opt (Lit rupee)) (Star is_space)))).
  assert (Hng : no_group P = true).
  { cbn [P no_group]. now rewrite alts_no_group. }
  assert (Hcurf : numeral_free cur) by (destruct Hcur as [-> | ->]; reflexivity).
  apply search_first.
  - unfold match_here.
    replace (kw ++ sp1 ++ cur ++ sp2 ++ n ++ post)
      with ((kw ++ sp1 ++ cur ++ sp2 ++ n) ++ post) by (now rewrite <- !app_assoc).
    apply rmatch_complete; [|discriminate].
    unfold re_bound. cbn [cats in_lang].
    exists kw, (sp1 ++ cur ++ sp2 ++ n). split; [reflexivity|].
    split; [now apply in_lang_alts|].
    exists sp1, (cur ++ sp2 ++ n). split; [reflexivity|]. split; [exact Hs1|].
    exists cur, (sp2 ++ n). split; [reflexivity|]. split; [exact Hcur|].
    exists sp2, n. split; [reflexivity|]. split; [exact Hs2|]. now split.
  - intros p1 p2 c' -> H.
    apply numeral_free_app in Hpre as [_ Hp2].
    replace (p2 ++ kw ++ sp1 ++ cur ++ sp2 ++ n ++ post)
      with ((p2 ++ kw ++ sp1 ++ cur ++ sp2) ++ n ++ post) in H
      by (now rewrite <- !app_assoc).
    apply (one_numeral_unique P (p2 ++ kw ++ sp1 ++ cur ++ sp2) n post c' Hng).
    + intros w Hw. now apply (bound_prefix_free kws).
    + rewrite !numeral_free_app. repeat split; try assumption;
        [now apply Hk | now apply blank_free | now apply blank_free].
    + exact Hne.
    + exact Hn.
    + exact Hpost.
    + exact H.
Qed.

Lemma separator_free (M : regex) (sep0 : list str) (w : str) :
  M = Cat (Star is_space) (Cat (alts (map Lit sep0)) (Star is_space)) ->
  sep0 <> [] -> (forall k, In k sep0 -> numeral_free k /\ k <> []) ->
  in_lang M w -> numeral_free w /\ w <> [].
Proof.
  intros -> Hne Hk H. cbn [in_lang] in H.
  destruct H as (w1 & w2 & -> & H1 & w3 & w4 & -> & H3 & H4).
  apply in_lang_alts in H3; [|exact Hne]. destruct (Hk w3 H3) as [Hf Hn]. split.
  - rewrite !numeral_free_app. repeat split; [now apply blank_free | exact Hf |].
    now apply blank_free.
  - intros E. apply app_eq_nil in E as [_ E]. apply app_eq_nil in E as [E _]. congruence.
Qed.

(** The explicit range: "between", a numeral, "and" or a dash, a numeral. *)
Lemma search_between (pre sp1 n1 sp2 sep sp3 n2 post : str) :
  numeral_free pre -> sp1 <> [] -> blank sp1 -> blank sp2 ->
  sep = py "and" \/ sep = py "-" -> blank sp3 ->
  numeral n1 -> numeral n2 -> numeral_ends post ->
  search re_between
    (pre ++ py "between" ++ sp1 ++ n1 ++ sp2 ++ sep ++ sp3 ++ n2 ++ post)
  = Some [(2%nat, n2); (1%nat, n1)].
Proof.
  intros Hpre Hs1ne Hs1 Hs2 Hsep Hs3 Hnum1 Hnum2 Hpost.
  pose proof (numeral_not_empty n1 Hnum1) as Hne1. destruct Hnum1 as [Hn1 _].
  pose proof (numeral_not_empty n2 Hnum2) as Hne2. destruct Hnum2 as [Hn2 _].
  set (P := Cat (Lit (py "between")) (Plus is_space)).
  set (M := Cat (Star is_space)
              (Cat (alts (map Lit [py "and"; py "-"])) (Star is_space))).
  assert (HfP : forall w, in_lang P w -> numeral_free w).
  { intros w (w1 & w2 & -> & -> & _ & H2). apply numeral_free_app.
    split; [reflexivity | now apply blank_free]. }
  assert (HfM : forall w, in_lang M w -> numeral_free w /\ w <> []).
  { intros w Hw. apply (separator_free M [py "and"; py "-"] w eq_refl);
      [discriminate | | exact Hw].
    intros k [<- | [<- | []]]; split; (reflexivity || discriminate). }
  assert (Hsepf : numeral_free sep /\ sep <> []).
  { destruct Hsep as [-> | ->]; split; (reflexivity || discriminate). }
  apply search_first.
  - unfold match_here.
    replace (py "between" ++ sp1 ++ n1 ++ sp2 ++ sep ++ sp3 ++ n2 ++ post)
      with ((py "between" ++ sp1 ++ n1 ++ sp2 ++ sep ++ sp3 ++ n2) ++ post)
      by (now rewrite <- !app_assoc).
    apply rmatch_complete; [|discriminate].
    unfold re_between. cbn [cats in_lang].
    exists (py "between"), (sp1 ++ n1 ++ sp2 ++ sep ++ sp3 ++ n2).
    split; [reflexivity|]. split; [reflexivity|].
    exists sp1, (n1 ++ sp2 ++ sep ++ sp3 ++ n2).
    split; [reflexivity|]. split; [now split|].
    exists n1, (sp2 ++ sep ++ sp3 ++ n2). split; [reflexivity|]. split; [now split|].
    exists sp2, (sep ++ sp3 ++ n2). split; [reflexivity|]. split; [exact Hs2|].
    exists sep, (sp3 ++ n2). split; [reflexivity|]. split; [exact Hsep|].
    exists sp3, n2. split; [reflexivity|]. split; [exact Hs3|]. now split.
  - intros p1 p2 c' -> H.
    apply numeral_free_app in Hpre as [_ Hp2].
    replace (p2 ++ py "between" ++ sp1 ++ n1 ++ sp2 ++ sep ++ sp3 ++ n2 ++ post)
      with ((p2 ++ py "between" ++ sp1) ++ n1 ++ (sp2 ++ sep ++ sp3) ++ n2 ++ post)
      in H by (now rewrite <- !app_assoc).
    apply (two_numerals_unique P M (p2 ++ py "between" ++ sp1) n1
             (sp2 ++ sep ++ sp3) n2 post c' eq_refl eq_refl HfP HfM);
      try assumption.
    + rewrite !numeral_free_app. repeat split; [exact Hp2 | now apply blank_free].
    + rewrite !numeral_free_app. repeat split;
        [now apply blank_free | apply Hsepf | now apply blank_free].
    + intros E. apply app_eq_nil in E as [_ E]. apply app_eq_nil in E as [E _].
      now apply Hsepf.
Qed.

(** The bare range: a numeral, a dash, a numeral. *)
Lemma search_range (pre n1 sp2 sp3 n2 post : str) :
  numeral_free pre -> blank sp2 -> blank sp3 ->
  numeral n1 -> numeral n2 -> numeral_ends post ->
  search re_range (pre ++ n1 ++ sp2 ++ py "-" ++ sp3 ++ n2 ++ post)
  = Some [(2%nat, n2); (1%nat, n1)].
Proof.
  intros Hpre Hs2 Hs3 Hnum1 Hnum2 Hpost.
  pose proof (numeral_not_empty n1 Hnum1) as Hne1. destruct Hnum1 as [Hn1 _].
  pose proof (numeral_not_empty n2 Hnum2) as Hne2. destruct Hnum2 as [Hn2 _].
  set (M := Cat (Star is_space) (Cat (alts (map Lit [py "-"])) (Star is_space))).
  assert (HfM : forall w, in_lang M w -> numeral_free w /\ w <> []).
  { intros w Hw. apply (separator_free M [py "-"] w eq_refl);
      [discriminate | | exact Hw].
    intros k [<- | []]; split; (reflexivity || discriminate). }
  apply search_first.
  - unfold match_here.
    replace (n1 ++ sp2 ++ py "-" ++ sp3 ++ n2 ++ post)
      with ((n1 ++ sp2 ++ py "-" ++ sp3 ++ n2) ++ post)
      by (now rewrite <- !app_assoc).
    apply rmatch_complete; [|discriminate].
    unfold re_range. cbn [cats in_lang].
    exists n1, (sp2 ++ py "-" ++ sp3 ++ n2). split; [reflexivity|]. split; [now split|].
    exists sp2, (py "-" ++ sp3 ++ n2). split; [reflexivity|]. split; [exact Hs2|].
    exists (py "-"), (sp3 ++ n2). split; [reflexivity|]. split; [reflexivity|].
    exists sp3, n2. split; [reflexivity|]. split; [exact Hs3|]. now split.
  - intros p1 p2 c' -> H.
    apply numeral_free_app in Hpre as [_ Hp2].
    replace (p2 ++ n1 ++ sp2 ++ py "-" ++ sp3 ++ n2 ++ post)
      with (p2 ++ n1 ++ (sp2 ++ py "-" ++ sp3) ++ n2 ++ post)
      in H by (now rewrite <- !app_assoc).
    apply (two_numerals_unique (Lit []) M p2 n1 (sp2 ++ py "-" ++ sp3) n2 post c'
             eq_refl eq_refl); try assumption.
    + intros w ->. reflexivity.
    + rewrite !numeral_free_app. repeat split; now apply blank_free.
    + intros E. apply app_eq_nil in E as [_ E]. discriminate E.
Qed.

Lemma no_between (q : str) :
  contains (py "between") q = false -> search re_between q = None.
Proof.
  intros Hb. apply search_fail. intros t Ht. now apply lit_absent_fail with (s := q).
Qed.

Lemma no_dash (q : str) : contains (py "-") q = false -> search re_range q = None.
Proof.
  intros Hd. apply search_fail. intros t Ht. unfold match_here, re_range, cats.
  apply cat_fail. intros t1 c1 Ht1. apply cat_fail. intros t2 c2 Ht2.
  apply lit_absent_fail with (s := q); [exact Hd|].
  eapply suffix_trans; [exact Ht2|]. eapply suffix_trans; eassumption.
Qed.

Lemma no_keyword (k0 : str) (ks : list str) (q : str) :
  any_in (k0 :: ks) q = false -> search (re_bound (k0 :: ks)) q = None.
Proof.
  intros Hk. apply search_fail. intros t Ht. unfold match_here, re_bound.
  change (rmatch (alts (map Lit (k0 :: ks))) t []
            (fun s' caps' => rmatch (cats [Star is_space; Opt (Lit rupee);
               Star is_space; Grp 1 (Plus digit_or_comma)]) s' caps'
               (fun _ caps => Some caps)) = None).
  now apply alts_absent_fail with (s := q).
Qed.

Lemma numeral_float (n : str) :
  numeral n -> float_of_digits (remove_commas n) = Ok (numeral_value n).
Proof. intros (Hall & Hex & _). now apply float_of_numeral. Qed.

(** "between A and B" and "between A - B", anywhere after text without
    digits and commas. *)
Lemma parse_between_form (query pre sp1 n1 sp2 sep sp3 n2 post : str) :
  lower query = pre ++ py "between" ++ sp1 ++ n1 ++ sp2 ++ sep ++ sp3 ++ n2 ++ post ->
  numeral_free pre -> sp1 <> [] -> blank sp1 -> blank sp2 ->
  sep = py "and" \/ sep = py "-" -> blank sp3 ->
  numeral n1 -> numeral n2 -> numeral_ends post ->
  parse_price_constraints query
  = Ok (Some (py_min (numeral_value n1) (numeral_value n2)),
        Some (py_max (numeral_value n1) (numeral_value n2))).
Proof.
  intros Hq Hpre Hne Hs1 Hs2 Hsep Hs3 Hn1 Hn2 Hpost.
  unfold parse_price_constraints. rewrite Hq.
  rewrite (search_between pre sp1 n1 sp2 sep sp3 n2 post) by assumption.
  unfold group_float. cbn [group Nat.eqb].
  now rewrite (numeral_float n1 Hn1), (numeral_float n2 Hn2).
Qed.

(** "A - B" without "between". *)
Lemma parse_range_form (query pre n1 sp2 sp3 n2 post : str) :
  lower query = pre ++ n1 ++ sp2 ++ py "-" ++ sp3 ++ n2 ++ post ->
  contains (py "between") (lower query) = false ->
  numeral_free pre -> blank sp2 -> blank sp3 ->
  numeral n1 -> numeral n2 -> numeral_ends post ->
  parse_price_constraints query
  = Ok (Some (py_min (numeral_value n1) (numeral_value n2)),
        Some (py_max (numeral_value n1) (numeral_value n2))).
Proof.
  intros Hq Hb Hpre Hs2 Hs3 Hn1 Hn2 Hpost.
  unfold parse_price_constraints. rewrite (no_between _ Hb). rewrite Hq.
  rewrite (search_range pre n1 sp2 sp3 n2 post) by assumption.
  unfold group_float. cbn [group Nat.eqb].
  now rewrite (numeral_float n1 Hn1), (numeral_float n2 Hn2).
Qed.

(** A maximum keyword and a numeral, in a query without "between" and
    without a dash. *)
Lemma parse_max_form (query pre kw sp1 cur sp2 n post : str) :
  lower query = pre ++ kw ++ sp1 ++ cur ++ sp2 ++ n ++ post ->
  In kw max_keywords ->
  contains (py "between") (lower query) = false ->
  contains (py "-") (lower query) = false ->
  numeral_free pre -> blank sp1 -> cur = [] \/ cur = rupee -> blank sp2 ->
  numeral n -> numeral_ends post ->
  parse_price_constraints query = Ok (None, Some (numeral_value n)).
Proof.
  intros Hq Hkw Hb Hd Hpre Hs1 Hcur Hs2 Hn Hpost.
  unfold parse_price_constraints. rewrite (no_between _ Hb), (no_dash _ Hd). rewrite Hq.
  unfold re_under.
  rewrite (search_bound max_keywords pre kw sp1 cur sp2 n post); try assumption.
  - unfold group_float. cbn [group Nat.eqb]. now rewrite (numeral_float n Hn).
  - intros k Hk. apply keywords_free. apply in_or_app. now left.
Qed.

(** A minimum keyword and a numeral, in a query without "between", without
    a dash and without a maximum keyword. *)
Lemma parse_min_form (query pre kw sp1 cur sp2 n post : str) :
  lower query = pre ++ kw ++ sp1 ++ cur ++ sp2 ++ n ++ post ->
  In kw min_keywords ->
  contains (py "between") (lower query) = false ->
  contains (py "-") (lower query) = false ->
  any_in max_keywords (lower query) = false ->
  numeral_free pre -> blank sp1 -> cur = [] \/ cur = rupee -> blank sp2 ->
  numeral n -> numeral_ends post ->
  parse_price_constraints query = Ok (Some (numeral_value n), None).
Proof.
  intros Hq Hkw Hb Hd Hmax Hpre Hs1 Hcur Hs2 Hn Hpost.
  assert (H3 : search re_under (lower query) = None)
    by exact (no_keyword (py "under") _ _ Hmax).
  unfold parse_price_constraints. rewrite (no_between _ Hb), (no_dash _ Hd), H3.
  rewrite Hq. unfold re_over.
  rewrite (search_bound min_keywords pre kw sp1 cur sp2 n post); try assumption.
  - unfold group_float. cbn [group Nat.eqb]. now rewrite (numeral_float n Hn).
  - intros k Hk. apply keywords_free. apply in_or_app. now right.
Qed.

End ParserForms.

(** C2, as the code has it.  The parser reads "under 2,000" as (None, 2000),
    "between 1000 and 3000" as (1000, 3000), "above 500" as (500, None) and
    "show me a laptop" as (None, None).  In the lower-cased query, after
    text without digits and commas: "between", a numeral, "and" or a dash,
    a numeral gives the two numbers in ascending order; without "between",
    a numeral, a dash, a numeral gives the same; without "between" and
    without a dash, a maximum keyword and a numeral give the maximum; and
    without a maximum keyword either, a minimum keyword and a numeral give
    the minimum.  Every numeral is read with its digit-grouping commas
    removed.  The keywords are looked for as pieces of text, not as words:
    the text before the keyword is free, so "over" is found in "cover".  A
    query in which none of the keywords occurs as a piece of text, and no
    dash, gives no bound, whatever numbers it holds. *)
Theorem price_parsing :
  parse_price_constraints (py "under 2,000") = Ok (None, Some 2000)
  /\ parse_price_constraints (py "between 1000 and 3000") = Ok (Some 1000, Some 3000)
  /\ parse_price_constraints (py "above 500") = Ok (Some 500, None)
  /\ parse_price_constraints (py "show me a laptop") = Ok (None, None)
  /\ (forall query pre sp1 n1 sp2 sep sp3 n2 post : str,
        lower query
        = pre ++ py "between" ++ sp1 ++ n1 ++ sp2 ++ sep ++ sp3 ++ n2 ++ post ->
        numeral_free pre -> sp1 <> [] -> blank sp1 -> blank sp2 ->
        sep = py "and" \/ sep = py "-" -> blank sp3 ->
        numeral n1 -> numeral n2 -> numeral_ends post ->
        parse_price_constraints query
        = Ok (Some (py_min (numeral_value n1) (numeral_value n2)),
              Some (py_max (numeral_value n1) (numeral_value n2))))
  /\ (forall query pre n1 sp2 sp3 n2 post : str,
        lower query = pre ++ n1 ++ sp2 ++ py "-" ++ sp3 ++ n2 ++ post ->
        contains (py "between") (lower query) = false ->
        numeral_free pre -> blank sp2 -> blank sp3 ->
        numeral n1 -> numeral n2 -> numeral_ends post ->
        parse_price_constraints query
        = Ok (Some (py_min (numeral_value n1) (numeral_value n2)),
              Some (py_max (numeral_value n1) (numeral_value n2))))
  /\ (forall query pre kw sp1 cur sp2 n post : str,
        lower query = pre ++ kw ++ sp1 ++ cur ++ sp2 ++ n ++ post ->
        In kw [py "under"; py "below"; py "less than"; py "max"; py "maximum"] ->
        contains (py "between") (lower query) = false ->
        contains (py "-") (lower query) = false ->
        numeral_free pre -> blank sp1 -> cur = [] \/ cur = rupee -> blank sp2 ->
        numeral n -> numeral_ends post ->
        parse_price_constraints query = Ok (None, Some (numeral_value n)))
  /\ (forall query pre kw sp1 cur sp2 n post : str,
        lower query = pre ++ kw ++ sp1 ++ cur ++ sp2 ++ n ++ post ->
        In kw [py "over"; py "above"; py "more than"; py "min"; py "minimum"] ->
        contains (py "between") (lower query) = false ->
        contains (py "-") (lower query) = false ->
        any_in [py "under"; py "below"; py "less than"; py "max"; py "maximum"]
          (lower query) = false ->
        numeral_free pre -> blank sp1 -> cur = [] \/ cur = rupee -> blank sp2 ->
        numeral n -> numeral_ends post ->
        parse_price_constraints query = Ok (Some (numeral_value n), None))
  /\ (forall query : str,
        contains (py "between") (lower query) = false ->
        contains (py "-") (lower query) = false ->
        any_in [py "under"; py "below"; py "less than"; py "max"; py "maximum"]
          (lower query) = false ->
        any_in [py "over"; py "above"; py "more than"; py "min"; py "minimum"]
          (lower query) = false ->
        parse_price_constraints query = Ok (None, None)).
Proof.
  split; [vm_compute; reflexivity|]. split; [vm_compute; reflexivity|].
  split; [vm_compute; reflexivity|]. split; [vm_compute; reflexivity|].
  split; [exact parse_between_form|]. split; [exact parse_range_form|].
  split; [exact parse_max_form|]. split; [exact parse_min_form|].
  exact no_keyword_no_bound.
Qed.

Lemma price_parsing_witness :
  parse_price_constraints (py "Phones between 20,000 and 1,50,000 only")
    = Ok (Some 20000, Some 150000)
  /\ parse_price_constraints (py "tv 40,000 - 9,999") = Ok (Some 9999, Some 40000)
  /\ parse_price_constraints (py "Laptop less than 1,50,000 with 16 gb ram")
     = Ok (None, Some 150000)
  /\ parse_price_constraints (py "phone cover 1,500") = Ok (Some 1500, None)
  /\ parse_price_constraints (py "dell laptop 16 gb ram 512 ssd") = Ok (None, None).
Proof.
  destruct price_parsing as (_ & _ & _ & _ & Hbetween & Hrange & Hmax & Hmin & Hbare).
  split; [|split; [|split; [|split]]].
  - apply (Hbetween (py "Phones between 20,000 and 1,50,000 only") (py "phones ")
             (py " ") (py "20,000") (py " ") (py "and") (py " ") (py "1,50,000")
             (py " only")); try reflexivity;
      try (repeat split; try reflexivity; apply Nat.leb_le; reflexivity).
    + discriminate.
    + now left.
  - apply (Hrange (py "tv 40,000 - 9,999") (py "tv ") (py "40,000") (py " ") (py " ")
             (py "9,999") []); try reflexivity;
      repeat split; try reflexivity; apply Nat.leb_le; reflexivity.
  - apply (Hmax (py "Laptop less than 1,50,000 with 16 gb ram") (py "laptop ")
             (py "less than") (py " ") [] [] (py "1,50,000") (py " with 16 gb ram"));
      try reflexivity;
      try (repeat split; try reflexivity; apply Nat.leb_le; reflexivity).
    + right. right. now left.
    + now left.
  - apply (Hmin (py "phone cover 1,500") (py "phone c") (py "over") (py " ") [] []
             (py "1,500") []); try reflexivity;
      try (repeat split; try reflexivity; apply Nat.leb_le; reflexivity).
    + now left.
    + now left.
  - apply Hbare; reflexivity.
Defined.

(** C2 as stated fails in its last part: no word of "phone cover 500" is one
    of the keywords, yet the number is read as a minimum, because "over" is
    found inside "cover"; and a dash between the numbers of a model name is
    read as a range. *)
Lemma bare_number_bound_counterexample :
  Forall (fun w => ~ In w (py "between" :: max_keywords ++ min_keywords))
    (split (py "phone cover 500"))
  /\ parse_price_constraints (py "phone cover 500") = Ok (Some 500, None)
  /\ parse_price_constraints (py "hp 15-3000 series") = Ok (Some 15, Some 3000).
Proof.
  split; [|split; vm_compute; reflexivity].
  repeat constructor; intros H;
    repeat (destruct H as [H | H]; [discriminate H|]); exact H.
Qed.

(** ** Price extraction *)

Section PriceFacts.

Lemma extract_from_skips (r : Row) (cols : list str) :
  (forall col, In col cols -> contains (py "price") (lower col) = false) ->
  extract_price_from r cols = Ok None.
Proof.
  induction cols as [|col cols IH]; intros H; [reflexivity|].
  cbn [extract_price_from]. rewrite (H col (or_introl eq_refl)).
  apply IH. intros c Hc. apply H. now right.
Qed.

Lemma extract_from_origin (r : Row) (cols : list str) (p : Q) :
  extract_price_from r cols = Ok (Some p) ->
  exists col v,
    In col cols /\ contains (py "price") (lower col) = true
    /\ row_get r col = Scalar (Some v)
    /\ float_of_decimal (digits_and_dots v) = Ok p.
Proof.
  induction cols as [|col cols IH]; [discriminate|].
  cbn [extract_price_from]. intros H.
  assert (Hrest : extract_price_from r cols = Ok (Some p) ->
          exists col0 v, In col0 (col :: cols)
            /\ contains (py "price") (lower col0) = true
            /\ row_get r col0 = Scalar (Some v)
            /\ float_of_decimal (digits_and_dots v) = Ok p).
  { intros H'. destruct (IH H') as (c & v & Hin & Hrest). exists c, v.
    split; [now right | exact Hrest]. }
  destruct (contains (py "price") (lower col)) eqn:Ec; [|now apply Hrest].
  destruct (row_get r col) as [[v|]|cells] eqn:Ev; [|now apply Hrest|discriminate].
  destruct (digits_and_dots v) as [|d ds] eqn:Ed; [now apply Hrest|].
  destruct (float_of_decimal (d :: ds)) as [x|e] eqn:Ef; [|now apply Hrest].
  injection H as <-. exists col, v. rewrite Ed.
  split; [now left|]. now repeat split.
Qed.

Lemma float_of_decimal_nonneg (s : str) (p : Q) :
  float_of_decimal s = Ok p -> 0 <= p.
Proof.
  unfold float_of_decimal. destruct (split_dot s) as [i frac].
  set (f := match frac with Some f => f | None => [] end).
  intros H.
  assert (Hd : forallb is_digit (i ++ f) = true
               /\ p = Qmake (digits_val (i ++ f)) (pow10 (List.length f))).
  { destruct (i ++ f) as [|c l]; [discriminate|].
    destruct (forallb is_digit (c :: l)); [|discriminate].
    injection H as <-. now split. }
  destruct Hd as [Hd ->]. unfold Qle. cbn [Qnum Qden].
  pose proof (digits_val_nonneg _ Hd). lia.
Qed.

(** X4. A price that [extract_price_value] returns is never negative, and it
    is read from a cell that is not missing, in a column whose name holds
    "price" in any letter case: it is [float] of the digits and dots of that
    cell.  A row with no such column gives no price. *)
Theorem extracted_price_origin (r : Row) :
  (forall p, extract_price_value r = Ok (Some p) ->
     0 <= p
     /\ exists col v,
          In col (map fst r) /\ contains (py "price") (lower col) = true
          /\ row_get r col = Scalar (Some v)
          /\ float_of_decimal (digits_and_dots v) = Ok p)
  /\ ((forall col, In col (map fst r) -> contains (py "price") (lower col) = false) ->
      extract_price_value r = Ok None).
Proof.
  unfold extract_price_value. split.
  - intros p H. apply extract_from_origin in H as (col & v & Hin & Hc & Hv & Hf).
    split; [now apply float_of_decimal_nonneg in Hf|]. now exists col, v.
  - apply extract_from_skips.
Qed.

Lemma extract_from_first (r : Row) (cols1 cols2 : list str) (col : str) (v : str) :
  (forall c, In c cols1 -> contains (py "price") (lower c) = false) ->
  contains (py "price") (lower col) = true ->
  row_get r col = Scalar (Some v) ->
  extract_price_from r (cols1 ++ col :: cols2)
  = match digits_and_dots v with
    | [] => extract_price_from r cols2
    | s => match float_of_decimal s with
           | Ok x => Ok (Some x)
           | Raise _ => extract_price_from r cols2
           end
    end.
Proof.
  intros H1 Hc Hv. induction cols1 as [|c cols1 IH].
  - cbn [app extract_price_from]. now rewrite Hc, Hv.
  - cbn [app extract_price_from]. rewrite (H1 c (or_introl eq_refl)).
    apply IH. intros c' Hc'. apply H1. now right.
Qed.

Lemma digits_and_dots_plain (s : str) : plain_text s -> digits_and_dots s = [].
Proof.
  unfold plain_text, digits_and_dots. induction s as [|c s IH]; intros H; [reflexivity|].
  cbn [forallb] in H. apply andb_true_iff in H as [Hc Hs].
  apply negb_true_iff in Hc. cbn [filter]. rewrite Hc. now apply IH.
Qed.

Lemma digits_and_dots_numeral (ds : str) :
  forallb digit_or_comma ds = true -> digits_and_dots ds = remove_commas ds.
Proof.
  unfold digits_and_dots, remove_commas.
  induction ds as [|c ds IH]; intros H; [reflexivity|].
  cbn [forallb] in H. apply andb_true_iff in H as [Hc Hds].
  cbn [filter]. rewrite (IH Hds).
  clear - Hc. destruct c as [[] [] [] [] [] [] [] []]; try reflexivity; discriminate.
Qed.

Lemma split_dot_digits (s : str) :
  forallb is_digit s = true -> split_dot s = (s, None).
Proof.
  induction s as [|c s IH]; intros H; [reflexivity|].
  cbn [forallb] in H. apply andb_true_iff in H as [Hc Hs].
  cbn [split_dot]. rewrite (IH Hs).
  assert (E : Ascii.eqb c "."%char = false).
  { clear - Hc. destruct c as [[] [] [] [] [] [] [] []]; try reflexivity; discriminate. }
  now rewrite E.
Qed.

Lemma float_of_decimal_digits (s : str) :
  s <> [] -> forallb is_digit s = true ->
  float_of_decimal s = Ok (inject_Z (digits_val s)).
Proof.
  intros Hne Hd. unfold float_of_decimal. rewrite (split_dot_digits s Hd).
  rewrite app_nil_r, Hd. destruct s; [congruence | reflexivity].
Qed.

Lemma numeral_digits (ds : str) :
  forallb digit_or_comma ds = true -> existsb is_digit ds = true ->
  remove_commas ds <> [] /\ forallb is_digit (remove_commas ds) = true.
Proof.
  intros Hall Hex.
  pose proof (float_of_numeral ds Hall Hex) as H. unfold float_of_digits in H.
  destruct (remove_commas ds) as [|c l] eqn:E; [discriminate|].
  split; [discriminate|].
  destruct (forallb is_digit (c :: l)); [reflexivity | discriminate].
Qed.

(** X5. Currency signs, letters, blanks and digit-grouping commas around a
    number do not change the price read from a cell: when the first column
    whose name holds "price" occurs once in the row and has a cell made of
    text without digits and dots, then a numeral of digits and commas (at
    most 15 digits), then such text again, the price is the number the
    digits spell.  It is the bound the constraint parser reads from "under"
    followed by the same numeral. *)
Theorem extracted_price_of_numeral (r1 r2 : Row) (col before ds after : str) :
  (forall c, In c (map fst r1) -> contains (py "price") (lower c) = false) ->
  contains (py "price") (lower col) = true ->
  ~ In col (map fst r2) ->
  plain_text before -> plain_text after ->
  numeral ds ->
  extract_price_value (r1 ++ (col, Some (before ++ ds ++ after)) :: r2)
  = Ok (Some (numeral_value ds))
  /\ parse_price_constraints (py "under " ++ ds) = Ok (None, Some (numeral_value ds)).
Proof.
  intros H1 Hc H2 Hb Ha (Hall & Hex & _). unfold numeral_value.
  assert (E : extract_price_value (r1 ++ (col, Some (before ++ ds ++ after)) :: r2)
              = Ok (Some (inject_Z (digits_val (remove_commas ds))))).
  { unfold extract_price_value. rewrite map_app. cbn [map fst].
    rewrite (extract_from_first _ _ _ col (before ++ ds ++ after) H1 Hc).
    - assert (Ed : digits_and_dots (before ++ ds ++ after) = remove_commas ds).
      { unfold digits_and_dots. rewrite !filter_app.
        fold (digits_and_dots before) (digits_and_dots ds) (digits_and_dots after).
        rewrite (digits_and_dots_plain _ Hb), (digits_and_dots_plain _ Ha).
        rewrite app_nil_r. cbn [app]. now apply digits_and_dots_numeral. }
      rewrite Ed. destruct (numeral_digits ds Hall Hex) as [Hne Hd].
      pose proof (float_of_decimal_digits _ Hne Hd) as Hf.
      destruct (remove_commas ds) as [|d l]; [congruence|]. now rewrite Hf.
    - apply row_get_once; [|exact H2]. intros Hin. apply H1 in Hin. congruence. }
  split; [exact E|]. now apply under_numeral.
Qed.

Lemma digits_and_dots_digits (ds : str) :
  forallb is_digit ds = true -> digits_and_dots ds = ds.
Proof.
  unfold digits_and_dots. induction ds as [|c ds IH]; intros H; [reflexivity|].
  cbn [forallb] in H. apply andb_true_iff in H as [Hc Hds].
  cbn [filter]. rewrite Hc. cbn [orb]. now rewrite (IH Hds).
Qed.

(** X6. A dot in the text before the number is kept with the digits: for a
    cell like "Rs. 45999", in the first column whose name holds "price" and
    under a label that occurs once in the row, the price read is the number
    (of at most 15 digits) divided by ten to the number of its digits. *)
Theorem dot_before_number_makes_fraction (r1 r2 : Row)
    (col before between ds after : str) :
  (forall c, In c (map fst r1) -> contains (py "price") (lower c) = false) ->
  contains (py "price") (lower col) = true ->
  ~ In col (map fst r2) ->
  plain_text before -> plain_text between -> plain_text after ->
  ds <> [] -> forallb is_digit ds = true -> (List.length ds <= 15)%nat ->
  extract_price_value
    (r1 ++ (col, Some (before ++ py "." ++ between ++ ds ++ after)) :: r2)
  = Ok (Some (Qmake (digits_val ds) (pow10 (List.length ds)))).
Proof.
  intros H1 Hc H2 Hb Hm Ha Hne Hd _.
  unfold extract_price_value. rewrite map_app. cbn [map fst].
  rewrite (extract_from_first _ _ _ col
             (before ++ py "." ++ between ++ ds ++ after) H1 Hc).
  - assert (Ed : digits_and_dots (before ++ py "." ++ between ++ ds ++ after)
                 = "."%char :: ds).
    { unfold digits_and_dots. rewrite !filter_app.
      fold (digits_and_dots before) (digits_and_dots between)
           (digits_and_dots ds) (digits_and_dots after).
      rewrite (digits_and_dots_plain _ Hb), (digits_and_dots_plain _ Hm),
        (digits_and_dots_plain _ Ha), (digits_and_dots_digits _ Hd).
      now rewrite app_nil_r. }
    rewrite Ed.
    assert (Hf : float_of_decimal ("."%char :: ds)
                 = Ok (Qmake (digits_val ds) (pow10 (List.length ds)))).
    { unfold float_of_decimal. cbn [split_dot Ascii.eqb Bool.eqb app].
      rewrite Hd. destruct ds; [congruence | reflexivity]. }
    now rewrite Hf.
  - apply row_get_once; [|exact H2]. intros Hin. apply H1 in Hin. congruence.
Qed.

End PriceFacts.

Lemma extracted_price_origin_witness :
  let r := [(py "name", Some (py "Dell")); (py "Selling_Price", Some (py "Rs 45,999"))] in
  extract_price_value r = Ok (Some 45999)
  /\ 0 <= 45999
  /\ extract_price_value [(py "name", Some (py "Dell")); (py "cost", Some (py "45999"))]
     = Ok None.
Proof.
  split; [reflexivity|].
  destruct (extracted_price_origin
              [(py "name", Some (py "Dell")); (py "Selling_Price", Some (py "Rs 45,999"))])
    as [H _].
  split; [exact (proj1 (H 45999 eq_refl))|].
  destruct (extracted_price_origin
              [(py "name", Some (py "Dell")); (py "cost", Some (py "45999"))])
    as [_ H'].
  apply H'. intros col [<- | [<- | []]]; reflexivity.
Defined.

Lemma extracted_price_of_numeral_witness :
  extract_price_value
    [(py "name", Some (py "Dell")); (py "price", Some (py "Rs 45,999 only"));
     (py "stock", Some (py "12"))]
  = Ok (Some 45999)
  /\ parse_price_constraints (py "under 45,999") = Ok (None, Some 45999).
Proof.
  destruct (extracted_price_of_numeral [(py "name", Some (py "Dell"))]
              [(py "stock", Some (py "12"))]
              (py "price") (py "Rs ") (py "45,999") (py " only")) as [H1 H2];
    try reflexivity.
  - intros c [<- | []]. reflexivity.
  - intros [H | []]. discriminate H.
  - repeat split; try reflexivity. apply Nat.leb_le. reflexivity.
  - split; [exact H1 | exact H2].
Defined.

Lemma dot_before_number_makes_fraction_witness :
  extract_price_value [(py "price", Some (py "Rs. 45999"))]
  = Ok (Some (45999 # 100000)).
Proof.
  apply (dot_before_number_makes_fraction [] [] (py "price") (py "Rs") (py " ")
           (py "45999") []); try reflexivity.
  - intros c [].
  - intros [].
  - discriminate.
  - apply Nat.leb_le. reflexivity.
Defined.

(** ** More on retrieval *)

Section RetrievalMore.

Variables Vectorizer Matrix : Type.
Variable cosine_sims : Vectorizer -> Matrix -> str -> list Q.

Lemma Qlt_bool_iff (a b : Q) : Qlt_bool a b = true <-> a < b.
Proof.
  unfold Qlt_bool. rewrite negb_true_iff. split.
  - intros H. destruct (Qlt_le_dec a b) as [Hlt | Hle]; [exact Hlt|].
    apply Qle_bool_iff in Hle. congruence.
  - intros H. destruct (Qle_bool b a) eqn:E; [|reflexivity].
    apply Qle_bool_iff in E. exfalso. exact (Qlt_not_le _ _ H E).
Qed.

(** X9. Every hit has a score that reaches the confidence threshold and is
    made from the record that the metadata hold at one of the positions of
    the score vector, with the score of that position: its data are the
    dict of the row, which is the row itself when no label is repeated. *)
Theorem hits_reach_threshold (query : str) (v : Vectorizer) (m : Matrix)
    (metadata : list Meta) (top_k : Z) (category_filter : option str)
    (hits : list Hit) :
  retrieve_with_index cosine_sims query (Some v) (Some m) metadata top_k
    category_filter = Ok hits ->
  Forall (fun h =>
            threshold <= score h
            /\ exists idx meta,
                 (idx < List.length (cosine_sims v m query))%nat
                 /\ nth_error metadata idx = Some meta
                 /\ score h = nth idx (cosine_sims v m query) 0
                 /\ data h = row_to_json_safe_dict (row meta)
                 /\ (distinct_labels (row meta) -> data h = row meta)
                 /\ meta_category h = category meta
                 /\ meta_index h = index meta)
         hits.
Proof.
  intros H. apply retrieve_unfold in H as (lo & hi & _ & H).
  eapply loop_forall; [| constructor | exact H].
  intros idx h Hin Hh.
  apply candidate_hit_inv in Hh as (meta & Hm & -> & Ht & _).
  cbn [make_hit score data meta_category meta_index]. split.
  - destruct (Qlt_le_dec (nth idx (cosine_sims v m query) 0) threshold) as [Hlt | Hle];
      [|exact Hle].
    apply Qlt_bool_iff in Hlt. congruence.
  - exists idx, meta. repeat split; try assumption.
    + pose proof (candidates_in_range (cosine_sims v m query)) as Hr.
      rewrite Forall_forall in Hr. now apply Hr.
    + apply json_safe_distinct.
Qed.

Lemma detect_explicit (c : str) (query_lower : str) :
  c <> [] -> detect_category (Some c) query_lower = Some c.
Proof. intros H. destruct c; [congruence | reflexivity]. Qed.

Lemma extract_from_repeated (r : Row) (cols1 cols2 : list str) (col : str)
    (cells : list Cell) :
  (forall c, In c cols1 -> contains (py "price") (lower c) = false) ->
  contains (py "price") (lower col) = true ->
  row_get r col = Several cells ->
  extract_price_from r (cols1 ++ col :: cols2) = Raise ValueError.
Proof.
  intros H1 Hc Hv. induction cols1 as [|c cols1 IH].
  - cbn [app extract_price_from]. now rewrite Hc, Hv.
  - cbn [app extract_price_from]. rewrite (H1 c (or_introl eq_refl)).
    apply IH. intros c' Hc'. apply H1. now right.
Qed.

(** X29. A label that is repeated stops the extractor: when the first column
    whose name holds "price" has a label that occurs again later in the
    row, [extract_price_value] raises [ValueError], whatever the cells hold;
    and retrieval raises it when such a record is the one candidate, its
    score reaches the threshold and its category is the one asked for. *)
Theorem repeated_price_label_raises (r1 r2 : Row) (col : str) (cell : Cell) :
  (forall c, In c (map fst r1) -> contains (py "price") (lower c) = false) ->
  contains (py "price") (lower col) = true ->
  In col (map fst r2) ->
  extract_price_value (r1 ++ (col, cell) :: r2) = Raise ValueError
  /\ forall (v : Vectorizer) (m : Matrix) (query : str) (top_k : Z) (cat : str)
       (idx : Z) (pc : PriceConstraint) (s : Q),
       parse_price_constraints query = Ok pc ->
       cosine_sims v m query = [s] -> threshold <= s -> cat <> [] ->
       retrieve_with_index cosine_sims query (Some v) (Some m)
         [mkMeta cat idx (r1 ++ (col, cell) :: r2)] top_k (Some cat)
       = Raise ValueError.
Proof.
  intros H1 Hc H2.
  assert (E : extract_price_value (r1 ++ (col, cell) :: r2) = Raise ValueError).
  { destruct (row_get_repeated r1 r2 col cell H2) as [cells Hcells].
    unfold extract_price_value. rewrite map_app. cbn [map fst].
    exact (extract_from_repeated _ _ _ col cells H1 Hc Hcells). }
  split; [exact E|].
  intros v m query top_k cat idx pc s Hp Hs Ht Hcat.
  unfold retrieve_with_index. rewrite Hp. destruct pc as [lo hi]. cbn [bind].
  rewrite Hs, (detect_explicit cat (lower query) Hcat).
  change (candidate_indices [s]) with [0%nat].
  cbn [retrieve_loop nth nth_error category row].
  assert (Hq : Qlt_bool s threshold = false).
  { unfold Qlt_bool. apply negb_false_iff. now apply Qle_bool_iff. }
  rewrite Hq.
  assert (Hf : truthy_str (Some cat) && negb (str_eqb cat cat) = false).
  { rewrite str_eqb_refl. now rewrite andb_false_r. }
  rewrite Hf, E. reflexivity.
Qed.

(** X10. A category filter that is given and not empty is the one applied,
    whatever the query says; without one, the category is read from the
    query, headphone words first, then phone words, then laptop words; and
    every hit has the category in force. *)
Theorem hits_have_the_category (query : str) (v : Vectorizer) (m : Matrix)
    (metadata : list Meta) (top_k : Z) (category_filter : option str)
    (hits : list Hit) (c : str) :
  retrieve_with_index cosine_sims query (Some v) (Some m) metadata top_k
    category_filter = Ok hits ->
  c <> [] ->
  category_filter = Some c
  \/ (truthy_str category_filter = false
      /\ ((c = py "headphone"
           /\ any_in [py "headphone"; py "headset"; py "earbud"] (lower query) = true)
          \/ (c = py "mobile"
              /\ any_in [py "headphone"; py "headset"; py "earbud"] (lower query) = false
              /\ any_in [py "mobile"; py "smartphone"; py "phone"] (lower query) = true)
          \/ (c = py "laptop"
              /\ any_in [py "headphone"; py "headset"; py "earbud"] (lower query) = false
              /\ any_in [py "mobile"; py "smartphone"; py "phone"] (lower query) = false
              /\ any_in [py "laptop"; py "notebook"; py "pc"] (lower query) = true))) ->
  Forall (fun h => meta_category h = c) hits.
Proof.
  intros H Hc Hcase.
  assert (Hd : detect_category category_filter (lower query) = Some c).
  { destruct Hcase as [-> | [Hf Hq]]; [now apply detect_explicit|].
    unfold detect_category. rewrite Hf. cbn [negb].
    destruct Hq as [[-> Hh] | [[-> [Hh Hm]] | [-> [Hh [Hm Hl]]]]].
    - now rewrite Hh.
    - now rewrite Hh, Hm.
    - now rewrite Hh, Hm, Hl. }
  destruct (parse_price_constraints query) as [[lo hi]|e] eqn:Ep.
  - pose proof (retrieve_hits_pass_filters _ _ cosine_sims query v m metadata top_k
                  category_filter lo hi hits Ep H) as Hall.
    eapply Forall_impl; [|exact Hall]. cbn beta. intros h [Hcat _].
    rewrite Hd in Hcat. assert (Ht : truthy_str (Some c) = true).
    { destruct c; [congruence | reflexivity]. }
    specialize (Hcat Ht). now injection Hcat as ->.
  - unfold retrieve_with_index in H. rewrite Ep in H. discriminate H.
Qed.

(** X11. When the bound of the query and the price of the record are both
    not zero, the price filter holds: every hit whose record gives a price
    other than zero has that price at most the maximum of the query and at
    least its minimum, for the bounds that are not zero. *)
Theorem hits_within_nonzero_bounds (query : str) (v : Vectorizer) (m : Matrix)
    (metadata : list Meta) (top_k : Z) (category_filter : option str)
    (min_p max_p : option Q) (hits : list Hit) :
  parse_price_constraints query = Ok (min_p, max_p) ->
  retrieve_with_index cosine_sims query (Some v) (Some m) metadata top_k
    category_filter = Ok hits ->
  Forall (fun h =>
            forall p, extract_price_value (data h) = Ok (Some p) -> ~ p == 0 ->
              (forall hi, max_p = Some hi -> ~ hi == 0 -> p <= hi)
              /\ (forall lo, min_p = Some lo -> ~ lo == 0 -> lo <= p))
         hits.
Proof.
  intros Hp H.
  pose proof (retrieve_hits_pass_filters _ _ cosine_sims query v m metadata top_k
                category_filter min_p max_p hits Hp H) as Hall.
  eapply Forall_impl; [|exact Hall]. cbn beta.
  intros h [_ (price_val & Ex & Hr)] p Hprice Hp0.
  rewrite Hprice in Ex. injection Ex as <-. now apply price_within_bounds.
Qed.

Lemma loop_all_below (sims : list Q) (metadata : list Meta)
    (cf : option str) (lo hi : option Q) (top_k : Z) (cands : list nat) :
  forall results,
  Forall (fun i => nth i sims 0 < threshold) cands ->
  retrieve_loop sims metadata cf lo hi top_k cands results = Ok results.
Proof.
  induction cands as [|idx rest IH]; intros results H; [reflexivity|].
  apply Forall_cons_iff in H as [Hidx Hrest].
  cbn [retrieve_loop]. apply Qlt_bool_iff in Hidx. rewrite Hidx. now apply IH.
Qed.

(** X12. When no score reaches the threshold the result is the empty list,
    also when the metadata do not match the index: no record is looked up,
    so nothing is raised. *)
Theorem no_match_is_empty (query : str) (v : Vectorizer) (m : Matrix)
    (metadata : list Meta) (top_k : Z) (category_filter : option str)
    (pc : PriceConstraint) :
  parse_price_constraints query = Ok pc ->
  Forall (fun s => s < threshold) (cosine_sims v m query) ->
  retrieve_with_index cosine_sims query (Some v) (Some m) metadata top_k
    category_filter = Ok [].
Proof.
  intros Hp Hs. unfold retrieve_with_index. rewrite Hp. destruct pc as [lo hi].
  cbn [bind]. apply loop_all_below.
  pose proof (candidates_in_range (cosine_sims v m query)) as Hr.
  rewrite Forall_forall in *. intros i Hi. apply Hs. apply nth_In. now apply Hr.
Qed.

Lemma loop_no_metadata (sims : list Q) (cf : option str) (lo hi : option Q)
    (top_k : Z) (cands : list nat) :
  forall results,
  Exists (fun i => threshold <= nth i sims 0) cands ->
  retrieve_loop sims [] cf lo hi top_k cands results = Raise IndexError.
Proof.
  induction cands as [|idx rest IH]; intros results H; [inversion H|].
  cbn [retrieve_loop].
  destruct (Qlt_bool (nth idx sims 0) threshold) eqn:Et.
  - apply IH. apply Exists_cons in H as [H | H]; [|exact H].
    apply Qlt_bool_iff in Et. exfalso. exact (Qlt_not_le _ _ Et H).
  - now destruct idx.
Qed.

Lemma best_candidate (sims : list Q) (s : Q) :
  In s sims -> Exists (fun i => s <= nth i sims 0) (candidate_indices sims).
Proof.
  intros Hs. unfold candidate_indices.
  pose proof (argsort_perm sims) as Hperm.
  pose proof (sorted_rev _ _ _ (argsort_sorted sims)) as Hsorted.
  apply (In_nth _ _ 0) in Hs as (j & Hj & <-).
  assert (Hin : In j (rev (argsort sims))).
  { apply in_rev. rewrite rev_involutive.
    apply (Permutation_in _ (Permutation_sym Hperm)). apply in_seq. lia. }
  assert (Hlen : List.length (rev (argsort sims)) = List.length sims).
  { rewrite length_rev, (Permutation_length Hperm). apply length_seq. }
  destruct (rev (argsort sims)) as [|i0 l]; [destruct Hin|].
  cbn [List.length] in Hlen.
  replace (Nat.min 200 (List.length sims)) with (S (Nat.min 199 (List.length l)))
    by (rewrite <- Hlen; lia).
  cbn [firstn]. apply Exists_cons_hd.
  apply StronglySorted_inv in Hsorted as [_ Hhead].
  destruct Hin as [-> | Hin]; [apply Qle_refl|].
  rewrite Forall_forall in Hhead. now apply Hhead.
Qed.

(** X13. With an index in place and no metadata at all, a query that parses
    and has a score that reaches the threshold makes retrieval raise
    [IndexError]. *)
Theorem missing_metadata_raises (query : str) (v : Vectorizer) (m : Matrix)
    (top_k : Z) (category_filter : option str) (pc : PriceConstraint) (s : Q) :
  parse_price_constraints query = Ok pc ->
  In s (cosine_sims v m query) -> threshold <= s ->
  retrieve_with_index cosine_sims query (Some v) (Some m) [] top_k category_filter
  = Raise IndexError.
Proof.
  intros Hp Hs Ht. unfold retrieve_with_index. rewrite Hp. destruct pc as [lo hi].
  cbn [bind]. apply loop_no_metadata.
  eapply Exists_impl; [|exact (best_candidate _ s Hs)].
  cbn beta. intros i Hi. eapply Qle_trans; eassumption.
Qed.

End RetrievalMore.

Lemma retrieve_sorted_and_bounded_witness :
  let metadata := [mkMeta (py "laptop") 0 [(py "name", Some (py "Dell"))];
                   mkMeta (py "laptop") 1 [(py "name", Some (py "Lenovo"))]] in
  let hits := [mkHit (9 # 10) [(py "name", Some (py "Lenovo"))] (py "laptop") 1] in
  retrieve_with_index Demo.sims_of (py "laptop") (Some tt) (Some [1 # 2; 9 # 10])
    metadata 1 None = Ok hits
  /\ descending (map score hits)
  /\ (Z.of_nat (List.length hits) <= 1)%Z.
Proof.
  split; [reflexivity|].
  destruct (retrieve_sorted_and_bounded unit (list Q) Demo.sims_of (py "laptop")
              (Some tt) (Some [1 # 2; 9 # 10])
              [mkMeta (py "laptop") 0 [(py "name", Some (py "Dell"))];
               mkMeta (py "laptop") 1 [(py "name", Some (py "Lenovo"))]]
              1 None _ eq_refl) as (Hs & Hb & _).
  split; [exact Hs | apply Hb; lia].
Defined.


Section RetrievalTotal.

Variables Vectorizer Matrix : Type.
Variable cosine_sims : Vectorizer -> Matrix -> str -> list Q.

(** X8. Retrieval returns a list, and raises nothing, whenever the query
    parses, the metadata are at least as many as the scores and no record of
    the metadata repeats a column label. *)
Theorem aligned_retrieval_returns (query : str) (v : Vectorizer) (m : Matrix)
    (metadata : list Meta) (top_k : Z) (category_filter : option str)
    (pc : PriceConstraint) :
  parse_price_constraints query = Ok pc ->
  (List.length (cosine_sims v m query) <= List.length metadata)%nat ->
  Forall (fun meta => distinct_labels (row meta)) metadata ->
  exists hits,
    retrieve_with_index cosine_sims query (Some v) (Some m) metadata top_k
      category_filter = Ok hits.
Proof.
  intros Hp Hlen Hlab. unfold retrieve_with_index.
  rewrite Hp. destruct pc as [min_p max_p]. cbn [bind].
  apply loop_total; [exact Hlab|]. eapply Forall_impl; [|apply candidates_in_range].
  intros i Hi. cbn beta in Hi. lia.
Qed.

End RetrievalTotal.

Lemma aligned_retrieval_returns_witness :
  exists hits,
    retrieve_with_index Demo.sims_of (py "laptop under 50000") (Some tt)
      (Some [1 # 2])
      [mkMeta (py "laptop") 0
         [(py "name", Some (py "Dell")); (py "price", Some (py "45000"))]]
      3 None = Ok hits.
Proof.
  apply (aligned_retrieval_returns unit (list Q) Demo.sims_of
           (py "laptop under 50000") tt [1 # 2]
           [mkMeta (py "laptop") 0
              [(py "name", Some (py "Dell")); (py "price", Some (py "45000"))]]
           3 None (None, Some 50000)).
  - reflexivity.
  - simpl. lia.
  - constructor; [|constructor]. unfold distinct_labels. cbn [row map fst].
    constructor; [|constructor; [intros []|constructor]].
    intros [H | []]. discriminate H.
Defined.

Lemma hits_reach_threshold_witness :
  Forall (fun h => threshold <= score h)
    [mkHit (9 # 10) [(py "name", Some (py "Dell"))] (py "laptop") 0].
Proof.
  pose proof (hits_reach_threshold unit (list Q) Demo.sims_of (py "laptop") tt
                [9 # 10; 1 # 100]
                [mkMeta (py "laptop") 0 [(py "name", Some (py "Dell"))];
                 mkMeta (py "laptop") 1 [(py "name", Some (py "Lenovo"))]]
                5 None _ eq_refl) as H.
  eapply Forall_impl; [|exact H]. cbn beta. intros h [Ht _]. exact Ht.
Defined.

Lemma repeated_price_label_raises_witness :
  let r := [(py "name", Some (py "Dell")); (py "price", Some (py "45000"));
            (py "price", Some (py "44000"))] in
  extract_price_value r = Raise ValueError
  /\ retrieve_with_index Demo.sims_of (py "dell") (Some tt) (Some [9 # 10])
       [mkMeta (py "laptop") 0 r] 5 (Some (py "laptop"))
     = Raise ValueError.
Proof.
  destruct (repeated_price_label_raises unit (list Q) Demo.sims_of
              [(py "name", Some (py "Dell"))] [(py "price", Some (py "44000"))]
              (py "price") (Some (py "45000"))) as [H1 H2].
  - intros c [<- | []]. reflexivity.
  - reflexivity.
  - now left.
  - split; [exact H1|].
    apply (H2 tt [9 # 10] (py "dell") 5%Z (py "laptop") 0%Z (None, None) (9 # 10));
      try reflexivity.
    + vm_compute. discriminate.
    + discriminate.
Defined.

Lemma hits_have_the_category_witness :
  Forall (fun h => meta_category h = py "headphone")
    [mkHit (9 # 10) [(py "name", Some (py "Sony WH"))] (py "headphone") 0].
Proof.
  apply (hits_have_the_category unit (list Q) Demo.sims_of (py "Sony headphone") tt
           [9 # 10; 8 # 10]
           [mkMeta (py "headphone") 0 [(py "name", Some (py "Sony WH"))];
            mkMeta (py "mobile") 0 [(py "name", Some (py "Sony Xperia"))]]
           5 None _ (py "headphone")).
  - reflexivity.
  - discriminate.
  - right. split; [reflexivity|]. left. split; reflexivity.
Defined.

Lemma hits_within_nonzero_bounds_witness :
  parse_price_constraints (py "laptop under 50000") = Ok (None, Some 50000)
  /\ Forall (fun h =>
               forall p, extract_price_value (data h) = Ok (Some p) -> ~ p == 0 ->
                 (forall hi, Some 50000 = Some hi -> ~ hi == 0 -> p <= hi)
                 /\ (forall lo, @None Q = Some lo -> ~ lo == 0 -> lo <= p))
       [mkHit (8 # 10) [(py "name", Some (py "Acer")); (py "price", Some (py "45000"))]
          (py "laptop") 1].
Proof.
  split; [reflexivity|].
  apply (hits_within_nonzero_bounds unit (list Q) Demo.sims_of
           (py "laptop under 50000") tt [9 # 10; 8 # 10]
           [mkMeta (py "laptop") 0
              [(py "name", Some (py "Dell")); (py "price", Some (py "65000"))];
            mkMeta (py "laptop") 1
              [(py "name", Some (py "Acer")); (py "price", Some (py "45000"))]]
           5 None None (Some 50000)).
  - reflexivity.
  - reflexivity.
Defined.

Lemma no_match_is_empty_witness :
  retrieve_with_index Demo.sims_of (py "garden hose") (Some tt) (Some [0; 1 # 100])
    [] 5 None = Ok [].
Proof.
  apply (no_match_is_empty unit (list Q) Demo.sims_of (py "garden hose") tt
           [0; 1 # 100] [] 5 None (None, None)).
  - reflexivity.
  - repeat constructor.
Defined.

Lemma missing_metadata_raises_witness :
  retrieve_with_index Demo.sims_of (py "dell") (Some tt) (Some [1 # 100; 9 # 10])
    [] 5 None = Raise IndexError.
Proof.
  apply (missing_metadata_raises unit (list Q) Demo.sims_of (py "dell") tt
           [1 # 100; 9 # 10] 5 None (None, None) (9 # 10)).
  - reflexivity.
  - right. left. reflexivity.
  - vm_compute. discriminate.
Defined.

(** ** More on the intent router *)

Section RouterMore.

Variables Vectorizer Matrix : Type.
Variable cosine_sims : Vectorizer -> Matrix -> str -> list Q.
Variable get_gemini_response : str -> str.

Lemma strip_parts (s : str) :
  exists ws ws', s = ws ++ strip s ++ ws'.
Proof.
  unfold strip. destruct (lstrip_split s) as [ws [H1 _]].
  destruct (rstrip_split (lstrip s)) as [ws' [H2 _]].
  exists ws, ws'. now rewrite <- H2.
Qed.

Lemma contains_strip (w s : str) :
  strip_safe w = true -> contains w (strip s) = contains w s.
Proof.
  intros Hw. apply eq_true_iff_eq. split; intros H.
  - apply contains_app in H as (pre & post & H).
    destruct (strip_parts s) as (ws & ws' & Hs).
    apply contains_app. exists (ws ++ pre), (post ++ ws').
    rewrite Hs, H. now rewrite <- !app_assoc.
  - destruct w as [|c n]; [discriminate|].
    unfold strip_safe in Hw. apply andb_true_iff in Hw as [Hc Hd].
    apply negb_true_iff in Hc, Hd.
    unfold strip.
    assert (Hl : c :: n <> []) by discriminate.
    pose proof (app_removelast_last c Hl) as E.
    set (w' := removelast (c :: n)) in *. set (d := last (c :: n) c) in *.
    rewrite E. apply contains_rstrip; [exact Hd|]. rewrite <- E.
    apply contains_lstrip; [exact Hc | exact H].
Qed.

Lemma any_in_strip (ws : list str) (s : str) :
  forallb strip_safe ws = true -> any_in ws (strip s) = any_in ws s.
Proof.
  unfold any_in. induction ws as [|w ws IH]; intros H; [reflexivity|].
  cbn [forallb] in H. apply andb_true_iff in H as [Hw Hws].
  cbn [existsb]. now rewrite (contains_strip w s Hw), (IH Hws).
Qed.

(** The router decides on the lower-cased message as it is: the blanks that
    [strip] removes change neither a keyword test nor the token count. *)
Lemma chat_by_lower_text (message : str) (vectorizer : option Vectorizer)
    (tfidf_matrix : option Matrix) (metadata : list Meta) :
  generate_chat_response cosine_sims get_gemini_response message vectorizer
    tfidf_matrix metadata
  = match canned_reply (lower message) (List.length (split message)) with
    | Some r => ([], Ok (general r))
    | None =>
        if any_in product_keywords (lower message) then
          match retrieve_with_index cosine_sims message vectorizer tfidf_matrix
                  metadata 3 None with
          | Raise e => ([Printed (py "INFO: Routing to product search.")], Raise e)
          | Ok [] =>
              ([Printed (py "INFO: Routing to product search.");
                Printed (py "INFO: No product results, falling back to Gemini.");
                AskedGemini (no_match_prompt message)],
               Ok (general (get_gemini_response (no_match_prompt message))))
          | Ok hits =>
              ([Printed (py "INFO: Routing to product search.")],
               Ok (mkReply (py "product") product_reply (Some hits)))
          end
        else
          ([Printed (py "INFO: Routing to Gemini for general conversation.");
            AskedGemini message],
           Ok (general (get_gemini_response message)))
    end.
Proof.
  unfold generate_chat_response, canned_reply.
  rewrite !any_in_strip by reflexivity.
  rewrite split_strip, split_lower_length.
  destruct (any_in greetings (lower message) && _); [reflexivity|].
  destruct (any_in farewells (lower message)); [reflexivity|].
  destruct (any_in thanks (lower message)); [reflexivity|].
  destruct (any_in help_words (lower message)); [reflexivity|].
  destruct (any_in identity_words (lower message)); [reflexivity|].
  destruct (any_in product_keywords (lower message)); [|reflexivity].
  destruct (retrieve_with_index cosine_sims message vectorizer tfidf_matrix
              metadata 3 None) as [[|h hits]|e]; reflexivity.
Qed.

Lemma hits_threshold_helper (v : Vectorizer) (m : Matrix) (metadata : list Meta)
    (hits : list Hit) (message : str) (top_k : Z) (cf : option str) :
  retrieve_with_index cosine_sims message (Some v) (Some m) metadata top_k cf
  = Ok hits ->
  Forall (fun h => threshold <= score h) hits.
Proof.
  intros H. apply retrieve_unfold in H as (lo & hi & _ & H).
  eapply loop_forall; [| constructor | exact H].
  intros idx h _ Hh. apply candidate_hit_inv in Hh as (meta & _ & -> & Ht & _).
  cbn [make_hit score].
  destruct (Qlt_le_dec (nth idx (cosine_sims v m message) 0) threshold) as [Hlt | Hle];
    [|exact Hle].
  apply Qlt_bool_iff in Hlt. congruence.
Qed.

(** C5, as the code has it.  The router answers "hello" with the canned
    greeting, "bye" with the farewell and "thank you so much" with the
    thanks.  A message that holds "laptop" is a product query when none of
    the five canned rules applies to it (one that does is answered by that
    rule): retrieval is run on the message with top_k = 3, its hits are the
    reply, and when it returns no hit (as it does when no index is loaded)
    the generative service is asked with a prompt that says that no
    matching product was found and carries the message twice.  When the
    message holds "under 50000" after text without digits and commas, with
    no digit or comma right after it, and holds neither "between" nor a
    dash, the constraint is (None, 50000) and the retrieval loop is run
    under it, with the category read from the message ("laptop" when it
    holds no headphone or phone word). *)
Theorem router_coverage (vectorizer : option Vectorizer)
    (tfidf_matrix : option Matrix) (metadata : list Meta) :
  let chat := generate_chat_response cosine_sims get_gemini_response in
  let routed := Printed (py "INFO: Routing to product search.") in
  let fell_back :=
    Printed (py "INFO: No product results, falling back to Gemini.") in
  chat (py "hello") vectorizer tfidf_matrix metadata
    = ([], Ok (general
                 (py "Hello. How may I assist you with product search or questions today?")))
  /\ chat (py "bye") vectorizer tfidf_matrix metadata
    = ([], Ok (general
                 (py "Goodbye. If you need further assistance, please ask anytime.")))
  /\ chat (py "thank you so much") vectorizer tfidf_matrix metadata
    = ([], Ok (general
                 (py "You're welcome. Would you like help with anything else?")))
  /\ forall message : str,
       canned_reply (lower message) (List.length (split message)) = None ->
       contains (py "laptop") (lower message) = true ->
       let prompt :=
         py "I could not find matching products in the store for the following query: '"
         ++ message
         ++ py "'. Please provide general guidance based on product knowledge: "
         ++ message in
       chat message vectorizer tfidf_matrix metadata
       = match retrieve_with_index cosine_sims message vectorizer tfidf_matrix
                 metadata 3 None with
         | Raise e => ([routed], Raise e)
         | Ok [] =>
             ([routed; fell_back; AskedGemini prompt],
              Ok (general (get_gemini_response prompt)))
         | Ok hits =>
             ([routed],
              Ok (mkReply (py "product")
                    (py "Here are the most relevant products matching your query:")
                    (Some hits)))
         end
       /\ chat message None None metadata
          = ([routed; fell_back; AskedGemini prompt],
             Ok (general (get_gemini_response prompt)))
       /\ forall (v : Vectorizer) (m : Matrix) (pre post : str),
            lower message = pre ++ py "under 50000" ++ post ->
            numeral_free pre -> numeral_ends post ->
            contains (py "between") (lower message) = false ->
            contains (py "-") (lower message) = false ->
            parse_price_constraints message = Ok (None, Some 50000)
            /\ retrieve_with_index cosine_sims message (Some v) (Some m) metadata 3 None
               = retrieve_loop (cosine_sims v m message) metadata
                   (detect_category None (lower message)) None (Some 50000) 3
                   (candidate_indices (cosine_sims v m message)) []
            /\ (any_in [py "headphone"; py "headset"; py "earbud"] (lower message)
                = false ->
                any_in [py "mobile"; py "smartphone"; py "phone"] (lower message)
                = false ->
                detect_category None (lower message) = Some (py "laptop")).
Proof.
  intros chat routed fell_back.
  split; [vm_compute; reflexivity|]. split; [vm_compute; reflexivity|].
  split; [vm_compute; reflexivity|].
  intros message Hcanned Hlaptop prompt.
  assert (Hprod : any_in product_keywords (lower message) = true).
  { unfold any_in, product_keywords. cbn [existsb]. rewrite Hlaptop.
    now rewrite !orb_true_r. }
  split; [|split].
  - unfold chat. rewrite chat_by_lower_text, Hcanned, Hprod. reflexivity.
  - unfold chat. rewrite chat_by_lower_text, Hcanned, Hprod. reflexivity.
  - intros v m pre post Hq Hpre Hpost Hb Hd.
    assert (Hp : parse_price_constraints message = Ok (None, Some 50000)).
    { apply (parse_max_form message pre (py "under") (py " ") [] [] (py "50000") post);
        try assumption; try reflexivity.
      - now left.
      - now left.
      - repeat split; try reflexivity. apply Nat.leb_le. reflexivity. }
    split; [exact Hp|]. split.
    + unfold retrieve_with_index. now rewrite Hp.
    + intros Hh Hm. unfold detect_category. cbn [truthy_str negb].
      rewrite Hh, Hm. unfold any_in. cbn [existsb]. now rewrite Hlaptop.
Qed.

(** X14. The canned rules come first and cost nothing: when one of the five
    rules applies to the lower-cased message, the reply is its fixed text
    whatever the index, the metadata and the rest of the message are;
    nothing is printed, the product search is not run (so a price phrase
    that would make the parser raise is harmless) and the generative
    service is not asked. *)
Theorem canned_rules_come_first (message : str) (vectorizer : option Vectorizer)
    (tfidf_matrix : option Matrix) (metadata : list Meta) (r : str) :
  canned_reply (lower message) (List.length (split message)) = Some r ->
  generate_chat_response cosine_sims get_gemini_response message vectorizer
    tfidf_matrix metadata
  = ([], Ok (general r)).
Proof.
  intros H. now rewrite chat_by_lower_text, H.
Qed.

(** X15. A product query whose price phrase makes the parser raise makes the
    router raise too when an index is loaded; with no index loaded the same
    message is answered by the generative service, because retrieval
    returns before it parses the query. *)
Theorem router_propagates_parser_error (message : str) (v : Vectorizer)
    (m : Matrix) (metadata : list Meta) (e : pyexn) :
  canned_reply (lower message) (List.length (split message)) = None ->
  any_in product_keywords (lower message) = true ->
  parse_price_constraints message = Raise e ->
  generate_chat_response cosine_sims get_gemini_response message (Some v) (Some m)
    metadata
  = ([Printed (py "INFO: Routing to product search.")], Raise e)
  /\ generate_chat_response cosine_sims get_gemini_response message None None
       metadata
     = ([Printed (py "INFO: Routing to product search.");
         Printed (py "INFO: No product results, falling back to Gemini.");
         AskedGemini (no_match_prompt message)],
        Ok (general (get_gemini_response (no_match_prompt message)))).
Proof.
  intros Hc Hk Hp. rewrite !chat_by_lower_text, Hc, Hk. split.
  - unfold retrieve_with_index. now rewrite Hp.
  - reflexivity.
Qed.

(** X16. A reply of type "product" carries between one and three hits, in
    descending order of score, each with a score that reaches the
    threshold; only the routing line was printed and the generative service
    was not asked. *)
Theorem product_reply_shape (message : str) (vectorizer : option Vectorizer)
    (tfidf_matrix : option Matrix) (metadata : list Meta)
    (trace : list Event) (reply : Reply) :
  generate_chat_response cosine_sims get_gemini_response message vectorizer
    tfidf_matrix metadata = (trace, Ok reply) ->
  rtype reply = py "product" ->
  trace = [Printed (py "INFO: Routing to product search.")]
  /\ response reply = product_reply
  /\ exists hits,
       results reply = Some hits
       /\ (1 <= List.length hits <= 3)%nat
       /\ descending (map score hits)
       /\ Forall (fun h => threshold <= score h) hits.
Proof.
  rewrite chat_by_lower_text. intros H Ht.
  destruct (canned_reply (lower message) (List.length (split message))) as [r|].
  { injection H as <- <-. discriminate Ht. }
  destruct (any_in product_keywords (lower message)).
  2:{ injection H as <- <-. discriminate Ht. }
  destruct (retrieve_with_index cosine_sims message vectorizer tfidf_matrix
              metadata 3 None) as [[|h hits]|e] eqn:Er.
  - injection H as <- <-. discriminate Ht.
  - injection H as <- <-. split; [reflexivity|]. split; [reflexivity|].
    exists (h :: hits). split; [reflexivity|].
    destruct vectorizer as [v|]; [|discriminate Er].
    destruct tfidf_matrix as [m|]; [|discriminate Er].
    pose proof (hits_threshold_helper v m metadata (h :: hits) message 3 None Er) as Hth.
    apply retrieve_unfold in Er as (lo & hi & _ & Er).
    split; [|split].
    + split; [simpl; lia|].
      pose proof (loop_bound _ _ _ _ _ 3%Z _ [] _ ltac:(simpl; lia) Er). lia.
    + eapply loop_sorted; [|exact Er]. apply candidates_descending.
    + exact Hth.
  - discriminate H.
Qed.

(** X17. A message to which no canned rule applies and which holds no
    product keyword goes to the generative service once, as it was typed
    (not lower-cased, not stripped), and the reply is what the service
    returns; the index is not used. *)
Theorem general_conversation_path (message : str) (vectorizer : option Vectorizer)
    (tfidf_matrix : option Matrix) (metadata : list Meta) :
  canned_reply (lower message) (List.length (split message)) = None ->
  any_in product_keywords (lower message) = false ->
  generate_chat_response cosine_sims get_gemini_response message vectorizer
    tfidf_matrix metadata
  = ([Printed (py "INFO: Routing to Gemini for general conversation.");
      AskedGemini message],
     Ok (general (get_gemini_response message))).
Proof.
  intros Hc Hk. now rewrite chat_by_lower_text, Hc, Hk.
Qed.

End RouterMore.

Lemma router_coverage_witness :
  let message := py "Show me a gaming laptop under 50000 please" in
  canned_reply (lower message) (List.length (split message)) = None
  /\ contains (py "laptop") (lower message) = true
  /\ parse_price_constraints message = Ok (None, Some 50000)
  /\ generate_chat_response Demo.sims_of Demo.gemini message None None []
     = ([Printed (py "INFO: Routing to product search.");
         Printed (py "INFO: No product results, falling back to Gemini.");
         AskedGemini (no_match_prompt message)],
        Ok (general (Demo.gemini (no_match_prompt message)))).
Proof.
  split; [reflexivity|]. split; [reflexivity|].
  destruct (router_coverage unit (list Q) Demo.sims_of Demo.gemini None None [])
    as (_ & _ & _ & H).
  destruct (H (py "Show me a gaming laptop under 50000 please") eq_refl eq_refl)
    as (_ & Hfall & Hparse).
  split; [|exact Hfall].
  apply (Hparse tt [] (py "show me a gaming laptop ") (py " please"));
    reflexivity.
Defined.

(** C5 as stated fails: a message that holds "laptop" and "under 50000" is
    answered by the thanks rule when it also holds "thanks"; and the
    constraint of a message that holds "under 50000" is another one when
    the numeral goes on. *)
Lemma router_canned_rule_wins_counterexample :
  let message := py "thanks, a laptop under 50000 please" in
  contains (py "laptop") (lower message) = true
  /\ contains (py "under 50000") (lower message) = true
  /\ generate_chat_response Demo.sims_of Demo.gemini message (Some tt) (Some [9 # 10])
       [mkMeta (py "laptop") 0 [(py "name", Some (py "Dell"))]]
     = ([], Ok (general thanks_reply))
  /\ contains (py "under 50000") (lower (py "gaming laptop under 500000")) = true
  /\ parse_price_constraints (py "gaming laptop under 500000")
     = Ok (None, Some 500000).
Proof.
  repeat split.
Qed.

Lemma canned_rules_come_first_witness :
  parse_price_constraints (py "  Thanks, find laptops under, say 50000  ")
    = Raise ValueError
  /\ generate_chat_response Demo.sims_of Demo.gemini
       (py "  Thanks, find laptops under, say 50000  ") (Some tt) (Some [9 # 10]) []
     = ([], Ok (general thanks_reply)).
Proof.
  split; [reflexivity|].
  apply (canned_rules_come_first unit (list Q) Demo.sims_of Demo.gemini).
  reflexivity.
Defined.

Lemma router_propagates_parser_error_witness :
  generate_chat_response Demo.sims_of Demo.gemini (py "under, say 20000")
    (Some tt) (Some [9 # 10]) []
  = ([Printed (py "INFO: Routing to product search.")], Raise ValueError).
Proof.
  apply (router_propagates_parser_error unit (list Q) Demo.sims_of Demo.gemini
           (py "under, say 20000") tt [9 # 10] [] ValueError); reflexivity.
Defined.

Lemma product_reply_shape_witness :
  let hit := mkHit (9 # 10) [(py "name", Some (py "Dell"))] (py "laptop") 0 in
  generate_chat_response Demo.sims_of Demo.gemini (py "show me a laptop")
    (Some tt) (Some [9 # 10]) [mkMeta (py "laptop") 0 [(py "name", Some (py "Dell"))]]
  = ([Printed (py "INFO: Routing to product search.")],
     Ok (mkReply (py "product") product_reply (Some [hit])))
  /\ exists hits,
       Some [hit] = Some hits /\ (1 <= List.length hits <= 3)%nat.
Proof.
  split; [reflexivity|].
  destruct (product_reply_shape unit (list Q) Demo.sims_of Demo.gemini
              (py "show me a laptop") (Some tt) (Some [9 # 10])
              [mkMeta (py "laptop") 0 [(py "name", Some (py "Dell"))]]
              _ _ eq_refl eq_refl) as (_ & _ & hits & Hr & Hlen & _).
  exists hits. split; [exact Hr | exact Hlen].
Defined.

Lemma general_conversation_path_witness :
  generate_chat_response Demo.sims_of Demo.gemini (py " Tell me a joke ")
    (Some tt) (Some [9 # 10]) []
  = ([Printed (py "INFO: Routing to Gemini for general conversation.");
      AskedGemini (py " Tell me a joke ")],
     Ok (general (Demo.gemini (py " Tell me a joke ")))).
Proof.
  apply (general_conversation_path unit (list Q) Demo.sims_of Demo.gemini);
    reflexivity.
Defined.

(** ** Recommendations *)

Section RecommendFacts.

Variable str_of_missing : str.
Variable str_of_series : list Cell -> str.
Variables Vectorizer Matrix : Type.
Variable cosine_sims : Vectorizer -> Matrix -> str -> list Q.

Section LoopOfRecommend.

Variable sims : list Q.
Variable metadata : list Meta.
Variable original_idx : option nat.
Variable top_n : Z.

Lemma recommend_loop_sorted (cands : list nat) : forall results r,
  descending (map score results ++ map (fun i => nth i sims 0) cands) ->
  recommend_loop sims metadata original_idx top_n cands results = Ok r ->
  descending (map score r).
Proof.
  unfold descending.
  induction cands as [|idx rest IH]; intros results r Hs H.
  - injection H as <-. simpl in Hs. now rewrite app_nil_r in Hs.
  - cbn [map] in Hs. cbn [recommend_loop] in H.
    assert (Hskip : StronglySorted (fun a b => b <= a)
                      (map score results ++ map (fun i => nth i sims 0) rest))
      by (eapply sorted_drop_middle; exact Hs).
    destruct (is_original original_idx idx); [now apply (IH results)|].
    destruct (Qle_bool (nth idx sims 0) recommend_threshold); [now apply (IH results)|].
    destruct (nth_error metadata idx) as [meta|]; [|discriminate].
    assert (Hnew : map score (results ++ [make_hit (nth idx sims 0) meta])
                   = map score results ++ [nth idx sims 0])
      by (now rewrite map_app).
    destruct (top_n <=? _)%Z.
    + injection H as <-. rewrite Hnew. eapply sorted_keep_next. exact Hs.
    + apply IH in H; [exact H|]. rewrite Hnew, <- app_assoc. exact Hs.
Qed.

Lemma recommend_loop_bound (cands : list nat) : forall results r,
  (Z.of_nat (List.length results) < top_n)%Z ->
  recommend_loop sims metadata original_idx top_n cands results = Ok r ->
  (Z.of_nat (List.length r) <= top_n)%Z.
Proof.
  induction cands as [|idx rest IH]; intros results r Hlt H.
  - injection H as <-. lia.
  - cbn [recommend_loop] in H.
    destruct (is_original original_idx idx); [now apply (IH results)|].
    destruct (Qle_bool (nth idx sims 0) recommend_threshold); [now apply (IH results)|].
    destruct (nth_error metadata idx) as [meta|]; [|discriminate].
    destruct (top_n <=? _)%Z eqn:Ek.
    + injection H as <-. rewrite length_app. simpl. lia.
    + apply Z.leb_gt in Ek. now apply IH in H.
Qed.

Lemma recommend_loop_forall (P : Hit -> Prop) (cands : list nat) : forall results r,
  (forall idx meta,
     is_original original_idx idx = false ->
     recommend_threshold < nth idx sims 0 ->
     nth_error metadata idx = Some meta ->
     P (make_hit (nth idx sims 0) meta)) ->
  Forall P results ->
  recommend_loop sims metadata original_idx top_n cands results = Ok r ->
  Forall P r.
Proof.
  induction cands as [|idx rest IH]; intros results r HP Hres H.
  - now injection H as <-.
  - cbn [recommend_loop] in H.
    destruct (is_original original_idx idx) eqn:Eo; [now apply (IH results)|].
    destruct (Qle_bool (nth idx sims 0) recommend_threshold) eqn:Et;
      [now apply (IH results)|].
    destruct (nth_error metadata idx) as [meta|] eqn:Em; [|discriminate].
    assert (Hnew : Forall P (results ++ [make_hit (nth idx sims 0) meta])).
    { apply Forall_app. split; [exact Hres|]. constructor; [|constructor].
      apply HP; [exact Eo | | exact Em].
      destruct (Qlt_le_dec recommend_threshold (nth idx sims 0)) as [Hlt | Hle];
        [exact Hlt|].
      apply Qle_bool_iff in Hle. congruence. }
    destruct (top_n <=? _)%Z.
    + now injection H as <-.
    + now apply (IH _ _ HP Hnew).
Qed.

End LoopOfRecommend.

Lemma set_item_other (sims : list Q) : forall i x sims' j,
  set_item sims i x = Ok sims' -> j <> i -> nth j sims' 0 = nth j sims 0.
Proof.
  induction sims as [|s rest IH]; intros i x sims' j H Hj; [discriminate|].
  destruct i as [|i'].
  - injection H as <-. destruct j; [congruence | reflexivity].
  - cbn [set_item] in H. destruct (set_item rest i' x) as [rest'|e] eqn:E;
      [|discriminate].
    injection H as <-. destruct j as [|j']; [reflexivity|].
    cbn [nth]. apply (IH i' x rest' j' E). congruence.
Qed.

Lemma py_take_sorted (A : Type) (R : A -> A -> Prop) (k : Z) (l : list A) :
  StronglySorted R l -> StronglySorted R (py_take k l).
Proof.
  intros H. unfold py_take. destruct (0 <=? k)%Z; now apply sorted_firstn.
Qed.

(** X18. The recommendations are in descending order of score, at most
    [top_n] of them when [top_n] is at least one; each has a score above
    0.1 and is made from a record of the metadata other than the one
    matched by the title, with the similarity of its own position: its data
    are the dict of the row, which is the row itself when no label is
    repeated. *)
Theorem recommendations_leave_out_the_original (product_title : str)
    (v : Vectorizer) (m : Matrix) (metadata : list Meta) (top_n : Z)
    (hits : list Hit) :
  get_recommendations str_of_missing str_of_series cosine_sims product_title v m
    metadata top_n
  = Ok hits ->
  descending (map score hits)
  /\ ((1 <= top_n)%Z -> (Z.of_nat (List.length hits) <= top_n)%Z)
  /\ Forall (fun h =>
               recommend_threshold < score h
               /\ exists idx meta,
                    find_original str_of_missing str_of_series
                      (lower product_title) metadata 0
                      <> Some idx
                    /\ nth_error metadata idx = Some meta
                    /\ score h = nth idx (cosine_sims v m product_title) 0
                    /\ data h = row_to_json_safe_dict (row meta)
                    /\ (distinct_labels (row meta) -> data h = row meta)
                    /\ meta_category h = category meta
                    /\ meta_index h = index meta)
            hits.
Proof.
  unfold get_recommendations. intros H.
  set (sims := cosine_sims v m product_title) in *.
  set (original := find_original str_of_missing str_of_series
                     (lower product_title) metadata 0) in *.
  apply bind_ok in H as (sims' & Hset & H).
  assert (Hother : forall idx, is_original original idx = false ->
            nth idx sims' 0 = nth idx sims 0 /\ original <> Some idx).
  { intros idx Ho. destruct original as [i|].
    - cbn [is_original] in Ho. apply Nat.eqb_neq in Ho.
      split; [now apply (set_item_other sims i 0 sims' idx Hset) | congruence].
    - injection Hset as <-. split; [reflexivity | discriminate]. }
  split; [|split].
  - eapply recommend_loop_sorted; [|exact H]. cbn [map app].
    apply sorted_scores. apply py_take_sorted.
    apply (sorted_rev _ (fun a b => nth a sims' 0 <= nth b sims' 0)).
    apply argsort_sorted.
  - intros Hk. eapply recommend_loop_bound; [|exact H]. simpl. lia.
  - eapply recommend_loop_forall; [| constructor | exact H].
    intros idx meta Ho Ht Hm. destruct (Hother idx Ho) as [Hsc Hne].
    cbn [make_hit score data meta_category meta_index]. split; [exact Ht|].
    exists idx, meta. repeat split; try assumption. apply json_safe_distinct.
Qed.

End RecommendFacts.

Lemma recommendations_leave_out_the_original_witness :
  let metadata := [mkMeta (py "laptop") 0 [(py "name", Some (py "Dell Inspiron"))];
                   mkMeta (py "laptop") 1 [(py "name", Some (py "Dell Vostro"))]] in
  get_recommendations (py "nan") (fun _ => py "Series") Demo.sims_of
    (py "dell inspiron 15") tt [1; 7 # 10] metadata 5
  = Ok [mkHit (7 # 10) [(py "name", Some (py "Dell Vostro"))] (py "laptop") 1]
  /\ descending
       (map score [mkHit (7 # 10) [(py "name", Some (py "Dell Vostro"))] (py "laptop") 1]).
Proof.
  split; [reflexivity|].
  exact (proj1 (recommendations_leave_out_the_original (py "nan")
                  (fun _ => py "Series") unit (list Q)
                  Demo.sims_of (py "dell inspiron 15") tt [1; 7 # 10]
                  [mkMeta (py "laptop") 0 [(py "name", Some (py "Dell Inspiron"))];
                   mkMeta (py "laptop") 1 [(py "name", Some (py "Dell Vostro"))]]
                  5 _ eq_refl)).
Defined.

(** ** Web search *)

Section WebFacts.

Variable search_web_for_products : str -> Z -> list str.
Variable fetch_product_from_url : str -> option PageInfo.

Lemma fetch_loop_spec (top_n : Z) (urls : list str) : forall fetched results fs rs,
  fetch_loop fetch_product_from_url top_n urls fetched results = (fs, rs) ->
  Forall (fun info => useful info = true) results ->
  (exists n, fs = fetched ++ firstn n urls)
  /\ Forall (fun info => useful info = true) rs
  /\ ((Z.of_nat (List.length results) < top_n)%Z ->
      (Z.of_nat (List.length rs) <= top_n)%Z)
  /\ (forall info, In info rs ->
        In info results
        \/ exists u, In u urls /\ fetch_product_from_url u = Some info).
Proof.
  induction urls as [|u rest IH]; intros fetched results fs rs H Hres.
  - injection H as <- <-. repeat split.
    + exists 0%nat. now rewrite app_nil_r.
    + exact Hres.
    + lia.
    + intros info Hin. now left.
  - cbn [fetch_loop] in H.
    assert (Hshift : forall fs' n, fs' = (fetched ++ [u]) ++ firstn n rest ->
              exists n', fs' = fetched ++ firstn n' (u :: rest)).
    { intros fs' n ->. exists (S n). now rewrite <- app_assoc. }
    destruct (fetch_product_from_url u) as [info|] eqn:Ef.
    + set (results' := if useful info then results ++ [info] else results) in *.
      assert (Hres' : Forall (fun i => useful i = true) results').
      { unfold results'. destruct (useful info) eqn:Eu; [|exact Hres].
        apply Forall_app. split; [exact Hres | now repeat constructor]. }
      assert (Hlen : (List.length results' <= S (List.length results))%nat).
      { unfold results'. destruct (useful info); [|lia].
        rewrite length_app. simpl. lia. }
      assert (Hin' : forall i, In i results' ->
                In i results
                \/ exists u0, In u0 (u :: rest) /\ fetch_product_from_url u0 = Some i).
      { unfold results'. intros i Hi. destruct (useful info); [|now left].
        apply in_app_or in Hi as [Hi | [<- | []]]; [now left|].
        right. exists u. split; [now left | exact Ef]. }
      destruct (top_n <=? Z.of_nat (List.length results'))%Z eqn:Ek.
      * injection H as <- <-. repeat split.
        -- exists 1%nat. reflexivity.
        -- exact Hres'.
        -- lia.
        -- exact Hin'.
      * apply Z.leb_gt in Ek.
        destruct (IH _ _ _ _ H Hres') as ((n & Hn) & Hu & Hb & Hi).
        repeat split.
        -- exact (Hshift fs n Hn).
        -- exact Hu.
        -- intros _. now apply Hb.
        -- intros i Hin. destruct (Hi i Hin) as [Hr | (u0 & Hu0 & Hf0)].
           ++ now apply Hin'.
           ++ right. exists u0. split; [now right | exact Hf0].
    + destruct (IH _ _ _ _ H Hres) as ((n & Hn) & Hu & Hb & Hi).
      repeat split.
      * exact (Hshift fs n Hn).
      * exact Hu.
      * exact Hb.
      * intros i Hin. destruct (Hi i Hin) as [Hr | (u0 & Hu0 & Hf0)]; [now left|].
        right. exists u0. split; [now right | exact Hf0].
Qed.

(** X19. For [top_n] not negative, the web search returns at most [top_n]
    pages, each with a title or an image that is not empty and each fetched
    from one of the links of the search; the pages fetched are the first
    links of the search result, at most three times [top_n] of them, and
    none at all when [top_n] is 0. *)
Theorem web_results_bounded (query : str) (top_n : Z) :
  (0 <= top_n)%Z ->
  let urls := search_web_for_products query (top_n * 4) in
  let fetched := fst (search_web_and_fetch search_web_for_products
                        fetch_product_from_url query top_n) in
  let results := snd (search_web_and_fetch search_web_for_products
                        fetch_product_from_url query top_n) in
  (Z.of_nat (List.length results) <= top_n)%Z
  /\ Forall (fun info => useful info = true) results
  /\ (exists n, fetched = firstn n urls)
  /\ (Z.of_nat (List.length fetched) <= 3 * top_n)%Z
  /\ Forall (fun info => exists u, In u urls /\ fetch_product_from_url u = Some info)
       results.
Proof.
  intros Hk urls fetched results. subst fetched results.
  unfold search_web_and_fetch. fold urls.
  assert (Htake : py_take (top_n * 3) urls = firstn (Z.to_nat (top_n * 3)) urls).
  { unfold py_take. replace (0 <=? top_n * 3)%Z with true; [reflexivity|].
    symmetry. apply Z.leb_le. lia. }
  rewrite Htake.
  destruct (fetch_loop fetch_product_from_url top_n
              (firstn (Z.to_nat (top_n * 3)) urls) [] []) as [fs rs] eqn:E.
  cbn [fst snd].
  destruct (fetch_loop_spec top_n _ [] [] fs rs E (Forall_nil _))
    as ((n & Hn) & Hu & Hb & Hi).
  cbn [app] in Hn.
  assert (Hfs : fs = firstn (Nat.min n (Z.to_nat (top_n * 3))) urls)
    by (now rewrite Hn, firstn_firstn).
  repeat split.
  - destruct (Z.eq_dec top_n 0) as [-> | Hne].
    + cbn in E. injection E as <- <-. simpl. lia.
    + apply Hb. simpl. lia.
  - exact Hu.
  - eexists. exact Hfs.
  - rewrite Hfs, length_firstn. lia.
  - apply Forall_forall. intros info Hin.
    destruct (Hi info Hin) as [[] | (u & Hu0 & Hf)].
    exists u. split; [|exact Hf].
    rewrite <- (firstn_skipn (Z.to_nat (top_n * 3)) urls).
    apply in_or_app. now left.
Qed.

End WebFacts.

Lemma web_results_bounded_witness :
  let search := fun (_ : str) (_ : Z) => [py "http://a"; py "http://b"; py "http://c"] in
  let fetch := fun u : str =>
    if str_eqb u (py "http://a")
    then Some (mkPageInfo None None None None u (Some (py "timeout")))
    else Some (mkPageInfo (Some (py "Dell Inspiron")) None None None u None) in
  search_web_and_fetch search fetch (py "dell") 1
  = ([py "http://a"; py "http://b"],
     [mkPageInfo (Some (py "Dell Inspiron")) None None None (py "http://b") None])
  /\ (Z.of_nat (List.length (snd (search_web_and_fetch search fetch (py "dell") 1)))
      <= 1)%Z.
Proof.
  split; [reflexivity|].
  apply (web_results_bounded
           (fun (_ : str) (_ : Z) => [py "http://a"; py "http://b"; py "http://c"])
           (fun u : str =>
              if str_eqb u (py "http://a")
              then Some (mkPageInfo None None None None u (Some (py "timeout")))
              else Some (mkPageInfo (Some (py "Dell Inspiron")) None None None u None))
           (py "dell") 1).
  lia.
Defined.

(** ** The generative service wrapper *)

Section GeminiFacts.

Variable api_key : option str.
Variable generate : str -> nat -> Attempt.
Variable formalize_text : str -> str.

Lemma gemini_attempts_first (query : str) (tone : option str) (delay : Z)
    (text : str) (k : nat) : forall remaining a trace,
  (0 <= delay)%Z ->
  (k < remaining)%nat ->
  (forall j, (j < k)%nat -> generate query (a + j) = Failed) ->
  generate query (a + k) = Generated text ->
  gemini_attempts generate formalize_text query tone delay remaining a trace
  = (trace ++ attempts_before delay a k ++ [Attempted (a + k)],
     Ok (Some (match text with
               | [] => no_answer_text
               | _ => if formal tone then formalize_text text else text
               end))).
Proof.
  induction k as [|k IH]; intros remaining a trace Hd Hk Hfail Hgen.
  - destruct remaining as [|remaining']; [lia|].
    rewrite Nat.add_0_r in *. cbn [gemini_attempts attempts_before app].
    rewrite Hgen. now destruct text.
  - destruct remaining as [|rem']; [lia|].
    cbn [gemini_attempts]. specialize (Hfail 0%nat ltac:(lia)) as H0.
    rewrite Nat.add_0_r in H0. rewrite H0.
    destruct rem' as [|remaining']; [lia|].
    replace (delay <? 0)%Z with false by (symmetry; apply Z.ltb_ge; lia).
    rewrite (IH (S remaining') (S a) _ Hd ltac:(lia)).
    + cbn [attempts_before]. rewrite <- !app_assoc. cbn [app].
      now replace (S a + k)%nat with (a + S k)%nat by lia.
    + intros j Hj. replace (S a + j)%nat with (a + S j)%nat by lia.
      apply Hfail. lia.
    + now replace (S a + k)%nat with (a + S k)%nat by lia.
Qed.

Lemma gemini_attempts_all_failed (query : str) (tone : option str) (delay : Z)
    (n : nat) : forall a trace,
  (0 <= delay)%Z ->
  (forall j, (j <= n)%nat -> generate query (a + j) = Failed) ->
  gemini_attempts generate formalize_text query tone delay (S n) a trace
  = (trace ++ attempts_before delay a n ++ [Attempted (a + n)],
     Ok (Some trouble_text)).
Proof.
  induction n as [|n IH]; intros a trace Hd Hfail.
  - cbn [gemini_attempts attempts_before app].
    specialize (Hfail 0%nat (Nat.le_refl 0)). rewrite Nat.add_0_r in *.
    now rewrite Hfail.
  - remember (S n) as rem' eqn:Er. cbn [gemini_attempts].
    specialize (Hfail 0%nat ltac:(lia)) as H0.
    rewrite Nat.add_0_r in H0. rewrite H0. subst rem'.
    replace (delay <? 0)%Z with false by (symmetry; apply Z.ltb_ge; lia).
    rewrite (IH (S a) _ Hd).
    + cbn [attempts_before]. rewrite <- !app_assoc. cbn [app].
      now replace (S a + n)%nat with (a + S n)%nat by lia.
    + intros j Hj. replace (S a + j)%nat with (a + S j)%nat by lia.
      apply Hfail. lia.
Qed.

(** X20. With a usable key, the reply is that of the first attempt that
    does not fail, among the first [retries]: its text (made formal when the
    tone starts with "form"), or the fixed no-answer text when the text is
    empty, in which case no further attempt is made.  The attempts before
    it are each followed by one pause of [delay] seconds. *)
Theorem gemini_first_answer (query : str) (tone : option str)
    (retries delay : Z) (k : nat) (text : str) :
  key_usable api_key = true ->
  (0 <= delay)%Z ->
  (Z.of_nat k < retries)%Z ->
  (forall j, (j < k)%nat -> generate query j = Failed) ->
  generate query k = Generated text ->
  get_gemini_response_full api_key generate formalize_text query tone retries delay
  = (attempts_before delay 0 k ++ [Attempted k],
     Ok (Some (match text with
               | [] => no_answer_text
               | _ => if formal tone then formalize_text text else text
               end))).
Proof.
  intros Hkey Hd Hk Hfail Hgen. unfold get_gemini_response_full.
  rewrite Hkey. cbn [negb].
  rewrite (gemini_attempts_first query tone delay text k (Z.to_nat retries) 0 []
             Hd ltac:(lia) Hfail Hgen).
  reflexivity.
Qed.

(** X21. The wrapper gives up in three ways.  Without a usable key (unset,
    empty or the placeholder) it returns the fixed notice and makes no
    attempt.  With a key and every one of the [retries] attempts failing it
    returns the fixed apology after exactly [retries] attempts and
    [retries - 1] pauses.  With a key and [retries] below one it makes no
    attempt and returns [None], not a text. *)
Theorem gemini_gives_up (query : str) (tone : option str) (retries delay : Z) :
  (key_usable api_key = false ->
   get_gemini_response_full api_key generate formalize_text query tone retries delay
   = ([], Ok (Some unavailable_text)))
  /\ (key_usable api_key = true -> (0 <= delay)%Z -> (1 <= retries)%Z ->
      (forall j, (Z.of_nat j < retries)%Z -> generate query j = Failed) ->
      get_gemini_response_full api_key generate formalize_text query tone retries delay
      = (attempts_before delay 0 (Z.to_nat retries - 1)
           ++ [Attempted (Z.to_nat retries - 1)],
         Ok (Some trouble_text)))
  /\ (key_usable api_key = true -> (retries <= 0)%Z ->
      get_gemini_response_full api_key generate formalize_text query tone retries delay
      = ([], Ok None)).
Proof.
  unfold get_gemini_response_full. repeat split.
  - intros Hkey. now rewrite Hkey.
  - intros Hkey Hd Hr Hfail. rewrite Hkey. cbn [negb].
    destruct (Z.to_nat retries) as [|n] eqn:En; [lia|].
    rewrite (gemini_attempts_all_failed query tone delay n 0 [] Hd).
    + now rewrite Nat.sub_succ, Nat.sub_0_r.
    + intros j Hj. apply Hfail. lia.
  - intros Hkey Hr. rewrite Hkey. cbn [negb].
    replace (Z.to_nat retries) with 0%nat by lia. reflexivity.
Qed.

End GeminiFacts.

Lemma gemini_first_answer_witness :
  let generate := fun (_ : str) (n : nat) =>
    match n with O => Failed | _ => Generated (py "Try a Dell.") end in
  get_gemini_response_full (Some (py "key-123")) generate (fun t => t)
    (py "best laptop?") (Some (py "casual")) 2 5
  = ([Attempted 0; Slept 5; Attempted 1], Ok (Some (py "Try a Dell."))).
Proof.
  apply (gemini_first_answer (Some (py "key-123"))
           (fun (_ : str) (n : nat) =>
              match n with O => Failed | _ => Generated (py "Try a Dell.") end)
           (fun t => t) (py "best laptop?") (Some (py "casual")) 2 5 1
           (py "Try a Dell.")).
  - reflexivity.
  - lia.
  - lia.
  - intros j Hj. now replace j with 0%nat by lia.
  - reflexivity.
Defined.

Lemma gemini_gives_up_witness :
  get_gemini_response_full (Some (py "key-123")) (fun _ _ => Failed) (fun t => t)
    (py "best laptop?") (Some (py "casual")) 2 5
  = ([Attempted 0; Slept 5; Attempted 1], Ok (Some trouble_text))
  /\ get_gemini_response_full (Some (py "DUMMY_KEY_BECAUSE_WE_HAVE_TO"))
       (fun _ _ => Failed) (fun t => t) (py "best laptop?") (Some (py "casual")) 2 5
     = ([], Ok (Some unavailable_text)).
Proof.
  split.
  - apply (proj1 (proj2 (gemini_gives_up (Some (py "key-123")) (fun _ _ => Failed)
                           (fun t => t) (py "best laptop?") (Some (py "casual"))
                           2 5))); try reflexivity; lia.
  - apply (proj1 (gemini_gives_up (Some (py "DUMMY_KEY_BECAUSE_WE_HAVE_TO"))
                    (fun _ _ => Failed) (fun t => t) (py "best laptop?")
                    (Some (py "casual")) 2 5)).
    reflexivity.
Defined.

(** ** Admin authentication *)

Section AuthFacts.

Variables Vectorizer Matrix : Type.
Variable fit_transform : list str -> result (Vectorizer * Matrix).
Variable check_password_hash : str -> str -> bool.

Lemma auth_without_basic (cfg : AdminConfig) (req : AdminRequest) :
  no_basic_auth req ->
  is_admin_authenticated check_password_hash cfg req
  = (let token := py_or (py_or (header_token req) (arg_token req)) (form_token req) in
     truthy_str token && truthy_str (ADMIN_TOKEN cfg)
     && str_eqb (opt_text token) (opt_text (ADMIN_TOKEN cfg))).
Proof.
  unfold no_basic_auth, is_admin_authenticated.
  destruct (check_basic_auth req) as [u p]. cbn [fst snd]. intros ->.
  now rewrite !andb_false_r.
Qed.

(** X22. A request without a username and password in its Authorization
    header is authenticated in one way only: the first non-empty token among
    its header, query string and form equals the server's token, and that
    token is set and not empty.  So a request with no token at all is
    refused under every configuration, no token is accepted while the
    server's token is unset, and a refused rebuild answers 403 and leaves
    the served state as it was. *)
Theorem token_is_the_only_way_without_basic_auth (cfg : AdminConfig)
    (req : AdminRequest) (loaded : option Catalog) (s : Server Vectorizer Matrix) :
  no_basic_auth req ->
  let token := py_or (py_or (header_token req) (arg_token req)) (form_token req) in
  (is_admin_authenticated check_password_hash cfg req = true
   <-> exists t, t <> [] /\ token = Some t /\ ADMIN_TOKEN cfg = Some t)
  /\ (truthy_str (header_token req) = false ->
      truthy_str (arg_token req) = false ->
      truthy_str (form_token req) = false ->
      is_admin_authenticated check_password_hash cfg req = false)
  /\ (truthy_str (ADMIN_TOKEN cfg) = false ->
      is_admin_authenticated check_password_hash cfg req = false)
  /\ (is_admin_authenticated check_password_hash cfg req = false ->
      admin_rebuild fit_transform
        (is_admin_authenticated check_password_hash cfg req) loaded s
      = (s, Forbidden)).
Proof.
  intros Hb token. rewrite (auth_without_basic cfg req Hb). fold token.
  cbn zeta. repeat split.
  - intros H. apply andb_true_iff in H as [H He]. apply andb_true_iff in H as [Ht Ha].
    destruct token as [[|c t]|]; try discriminate.
    destruct (ADMIN_TOKEN cfg) as [[|c' t']|]; try discriminate.
    unfold str_eqb in He. cbn [opt_text] in He.
    destruct (list_eq_dec ascii_dec (c :: t) (c' :: t')) as [E|]; [|discriminate].
    exists (c :: t). rewrite <- E. now repeat split.
  - intros (t & Hne & -> & ->). destruct t as [|c t]; [congruence|].
    cbn [truthy_str opt_text andb]. unfold str_eqb.
    destruct (list_eq_dec ascii_dec (c :: t) (c :: t)); congruence.
  - intros Hh Ha Hf. unfold token, py_or. rewrite Hh, Ha. now rewrite Hf.
  - intros Ha. rewrite Ha. now rewrite andb_false_r.
  - intros H. unfold admin_rebuild. now rewrite H.
Qed.

(** X23. When the credentials file names a user and the request carries a
    username and a password, the answer is the check of that password
    against the stored hash together with the equality of the usernames,
    and nothing else: the environment credentials and every token are
    ignored, so a request with the right token and a wrong password is
    refused. *)
Theorem stored_credentials_decide (cfg : AdminConfig) (req : AdminRequest)
    (c : Credentials) (name u p : str) :
  stored_credentials cfg = Some c ->
  cred_username c = Some name -> name <> [] ->
  authorization req = Some (Some u, Some p) -> u <> [] -> p <> [] ->
  is_admin_authenticated check_password_hash cfg req
  = check_password_hash (opt_text (cred_password_hash c)) p && str_eqb u name.
Proof.
  intros Hc Hn Hne Ha Hu Hp. unfold is_admin_authenticated, check_basic_auth.
  rewrite Ha, Hc, Hn.
  destruct name as [|n0 name]; [congruence|].
  destruct u as [|u0 u]; [congruence|]. destruct p as [|p0 p]; [congruence|].
  reflexivity.
Qed.

End AuthFacts.

Lemma token_is_the_only_way_without_basic_auth_witness :
  let cfg := mkAdminConfig None None None (Some (py "s3cret")) in
  let req := mkAdminRequest None None (Some (py "s3cret")) None in
  no_basic_auth req
  /\ is_admin_authenticated (fun h p => str_eqb h p) cfg req = true
  /\ is_admin_authenticated (fun h p => str_eqb h p) cfg
       (mkAdminRequest None None None None) = false.
Proof.
  split; [reflexivity|]. split.
  - apply (proj1 (token_is_the_only_way_without_basic_auth unit (list Q) Demo.fit
                    (fun h p => str_eqb h p)
                    (mkAdminConfig None None None (Some (py "s3cret")))
                    (mkAdminRequest None None (Some (py "s3cret")) None)
                    None (mkServer [] [] [] None None None) eq_refl)).
    exists (py "s3cret"). repeat split. discriminate.
  - apply (proj1 (proj2 (token_is_the_only_way_without_basic_auth unit (list Q)
                    Demo.fit (fun h p => str_eqb h p)
                    (mkAdminConfig None None None (Some (py "s3cret")))
                    (mkAdminRequest None None None None)
                    None (mkServer [] [] [] None None None) eq_refl)));
      reflexivity.
Defined.

Lemma stored_credentials_decide_witness :
  let cfg := mkAdminConfig
               (Some (mkCredentials (Some (py "admin")) (Some (py "hash-of-pw"))))
               None None (Some (py "s3cret")) in
  let req := mkAdminRequest (Some (Some (py "admin"), Some (py "guess")))
               (Some (py "s3cret")) None None in
  is_admin_authenticated (fun h p => str_eqb h (py "hash-of-" ++ p)) cfg req = false.
Proof.
  cbv zeta.
  rewrite (stored_credentials_decide (fun h p => str_eqb h (py "hash-of-" ++ p))
             (mkAdminConfig
                (Some (mkCredentials (Some (py "admin")) (Some (py "hash-of-pw"))))
                None None (Some (py "s3cret")))
             (mkAdminRequest (Some (Some (py "admin"), Some (py "guess")))
                (Some (py "s3cret")) None None)
             (mkCredentials (Some (py "admin")) (Some (py "hash-of-pw")))
             (py "admin") (py "admin") (py "guess"));
    try reflexivity; discriminate.
Defined.

(** ** Start of the server *)

Section StartupFacts.

Variables Vectorizer Matrix : Type.
Variable fit_transform : list str -> result (Vectorizer * Matrix).

Lemma snapshot_of_files_of (disk : option (Persisted Vectorizer Matrix)) :
  snapshot_of (files_of disk) = disk.
Proof. destruct disk as [[v m md c]|]; reflexivity. Qed.

Lemma startup_with_snapshot (loaded : option Catalog)
    (p : Persisted Vectorizer Matrix) :
  startup fit_transform loaded (files_of (Some p))
  = (mkServer (match loaded with Some d => d | None => [] end)
       (p_corpus p) (p_metadata p) (Some (p_vectorizer p)) (Some (p_matrix p))
       (Some p),
     files_of (Some p)).
Proof.
  unfold startup. destruct (build_corpus_from_data _) as [corpus metadata].
  destruct p as [v m md c]. reflexivity.
Qed.

(** X24. Restarting after a rebuild.  After a rebuild that built its index,
    a restart on the files it wrote serves the snapshot the rebuild served
    (corpus, metadata, vectorizer, matrix), whatever the CSV files hold at
    the restart.  After a rebuild whose index build failed, and which left
    the server without an index, a restart on the files serves the snapshot
    that was persisted before. *)
Theorem restart_serves_the_persisted_snapshot (loaded loaded' : option Catalog)
    (s : Server Vectorizer Matrix) :
  let s' := fst (admin_rebuild fit_transform true loaded s) in
  let restarted := fst (startup fit_transform loaded' (files_of (disk s'))) in
  (forall v m,
     VECTORIZER s' = Some v -> TFIDF_MATRIX s' = Some m ->
     VECTORIZER restarted = VECTORIZER s' /\ TFIDF_MATRIX restarted = TFIDF_MATRIX s'
     /\ METADATA restarted = METADATA s' /\ CORPUS restarted = CORPUS s')
  /\ (forall p,
        VECTORIZER s' = None -> disk s = Some p ->
        VECTORIZER restarted = Some (p_vectorizer p)
        /\ TFIDF_MATRIX restarted = Some (p_matrix p)
        /\ METADATA restarted = p_metadata p /\ CORPUS restarted = p_corpus p).
Proof.
  intros s' restarted. subst restarted s'. unfold admin_rebuild. cbn [negb].
  destruct (build_corpus_from_data _) as [corpus metadata].
  unfold build_tfidf_index. destruct (fit_transform corpus) as [[v m]|e];
    cbn [fst VECTORIZER TFIDF_MATRIX METADATA CORPUS disk].
  - split.
    + intros v0 m0 _ _. now rewrite startup_with_snapshot.
    + intros p Hv. discriminate Hv.
  - split.
    + intros v0 m0 Hv. discriminate Hv.
    + intros p _ Hd. rewrite Hd, startup_with_snapshot. now repeat split.
Qed.

(** X25. At start the artifacts win over the CSV files, one by one.  When
    all four load, the served snapshot is the persisted one, whatever the
    CSV files hold now.  When the vectorizer and the matrix load and the
    metadata file fails to, the persisted index is served with the metadata
    and the corpus built from the CSV files of the moment.  When one of the
    four is absent, the index is built from the CSV files and, if built,
    written with its corpus and metadata. *)
Theorem startup_prefers_artifacts (loaded : option Catalog)
    (files : DiskFiles Vectorizer Matrix) :
  let data := match loaded with Some d => d | None => [] end in
  let built := build_corpus_from_data data in
  let started := fst (startup fit_transform loaded files) in
  (forall p, snapshot_of files = Some p ->
     started = mkServer data (p_corpus p) (p_metadata p) (Some (p_vectorizer p))
                 (Some (p_matrix p)) (Some p))
  /\ (forall v m,
        vectorizer_file files = Stored v -> matrix_file files = Stored m ->
        metadata_file files = Unreadable -> file_exists (corpus_file files) = true ->
        VECTORIZER started = Some v /\ TFIDF_MATRIX started = Some m
        /\ METADATA started = snd built /\ CORPUS started = fst built)
  /\ (file_exists (vectorizer_file files) && file_exists (matrix_file files)
      && file_exists (metadata_file files) && file_exists (corpus_file files) = false ->
      VECTORIZER started = fst (build_tfidf_index fit_transform (fst built))
      /\ TFIDF_MATRIX started = snd (build_tfidf_index fit_transform (fst built))
      /\ METADATA started = snd built /\ CORPUS started = fst built
      /\ (forall v m,
            build_tfidf_index fit_transform (fst built) = (Some v, Some m) ->
            snd (startup fit_transform loaded files)
            = files_of (Some (mkPersisted v m (snd built) (fst built))))).
Proof.
  intros data built started. subst started built. unfold startup. fold data.
  destruct (build_corpus_from_data data) as [corpus metadata]. cbn [fst snd].
  repeat split.
  - intros p Hp. unfold snapshot_of in *.
    destruct (vectorizer_file files) as [| |v]; try discriminate.
    destruct (matrix_file files) as [| |m]; try discriminate.
    destruct (metadata_file files) as [| |md]; try discriminate.
    destruct (corpus_file files) as [| |c]; try discriminate.
    now injection Hp as <-.
  - rewrite H, H0, H1, H2. reflexivity.
  - rewrite H, H0, H1, H2. reflexivity.
  - rewrite H, H0, H1, H2. reflexivity.
  - rewrite H, H0, H1, H2. reflexivity.
  - rewrite H. now destruct (build_tfidf_index fit_transform corpus).
  - rewrite H. now destruct (build_tfidf_index fit_transform corpus).
  - rewrite H. now destruct (build_tfidf_index fit_transform corpus).
  - rewrite H. now destruct (build_tfidf_index fit_transform corpus).
  - intros v m Hb. rewrite H, Hb. reflexivity.
Qed.

End StartupFacts.

Lemma restart_serves_the_persisted_snapshot_witness :
  let prior := mkPersisted tt [9 # 10] [mkMeta (py "laptop") 0 [(py "name", Some (py "Dell"))]]
                 [py "laptop laptop laptop name Dell"] in
  let s := mkServer [] (p_corpus prior) (p_metadata prior) (Some tt) (Some [9 # 10])
             (Some prior) in
  let s' := fst (admin_rebuild Demo.fit true None s) in
  VECTORIZER s' = None
  /\ VECTORIZER (fst (startup Demo.fit None (files_of (disk s')))) = Some tt
  /\ METADATA (fst (startup Demo.fit None (files_of (disk s')))) = p_metadata prior.
Proof.
  split; [reflexivity|].
  destruct (restart_serves_the_persisted_snapshot unit (list Q) Demo.fit None None
              (mkServer [] [py "laptop laptop laptop name Dell"]
                 [mkMeta (py "laptop") 0 [(py "name", Some (py "Dell"))]]
                 (Some tt) (Some [9 # 10])
                 (Some (mkPersisted tt [9 # 10]
                          [mkMeta (py "laptop") 0 [(py "name", Some (py "Dell"))]]
                          [py "laptop laptop laptop name Dell"]))))
    as [_ H].
  destruct (H _ eq_refl eq_refl) as (Hv & _ & Hm & _).
  split; [exact Hv | exact Hm].
Defined.

Lemma startup_prefers_artifacts_witness :
  let files := mkDiskFiles (Stored tt) (Stored [9 # 10; 8 # 10]) Unreadable
                 (Stored [py "old a"; py "old b"]) in
  let loaded := Some [(py "laptop", [(0%Z, [(py "name", Some (py "Dell"))])])] in
  VECTORIZER (fst (startup Demo.fit loaded files)) = Some tt
  /\ TFIDF_MATRIX (fst (startup Demo.fit loaded files)) = Some [9 # 10; 8 # 10]
  /\ METADATA (fst (startup Demo.fit loaded files))
     = [mkMeta (py "laptop") 0 [(py "name", Some (py "Dell"))]].
Proof.
  destruct (startup_prefers_artifacts unit (list Q) Demo.fit
              (Some [(py "laptop", [(0%Z, [(py "name", Some (py "Dell"))])])])
              (mkDiskFiles (Stored tt) (Stored [9 # 10; 8 # 10]) Unreadable
                 (Stored [py "old a"; py "old b"])))
    as (_ & H & _).
  destruct (H tt [9 # 10; 8 # 10] eq_refl eq_refl eq_refl eq_refl)
    as (Hv & Hm & Hmd & _).
  split; [exact Hv|]. split; [exact Hm | exact Hmd].
Defined.

(** ** The catalog loader *)

Section LoaderFacts.

Variables Vectorizer Matrix : Type.
Variable fit_transform : list str -> result (Vectorizer * Matrix).

Lemma load_files_unreadable (entries : list (str * option DataFrame)) (f : str) :
  In (f, None) entries -> ends_with (py ".csv") f = true ->
  forall df_dict, load_files entries df_dict = None.
Proof.
  intros Hin Hcsv. induction entries as [|[g content] rest IH]; [destruct Hin|].
  intros df_dict. cbn [load_files]. destruct Hin as [E | Hin].
  - injection E as -> ->. now rewrite Hcsv.
  - destruct (ends_with (py ".csv") g); [|now apply IH].
    destruct content; [now apply IH | reflexivity].
Qed.

Lemma load_files_no_csv (entries : list (str * option DataFrame)) :
  (forall f c, In (f, c) entries -> ends_with (py ".csv") f = false) ->
  forall df_dict, load_files entries df_dict = Some df_dict.
Proof.
  induction entries as [|[g content] rest IH]; intros H df_dict; [reflexivity|].
  cbn [load_files]. rewrite (H g content (or_introl eq_refl)).
  apply IH. intros f c Hin. apply (H f c). now right.
Qed.

(** X26. The loader gives a catalog or nothing: it returns [None] when the
    data directory cannot be listed, when it holds no CSV file, and as soon
    as one CSV file cannot be read, even if all the others can.  A rebuild
    on such a load is answered "index rebuilt" with no data loaded and
    serves the empty catalog. *)
Theorem one_unreadable_csv_drops_the_catalog
    (entries : list (str * option DataFrame)) (s : Server Vectorizer Matrix) :
  load_data None = None
  /\ ((forall f c, In (f, c) entries -> ends_with (py ".csv") f = false) ->
      load_data (Some entries) = None)
  /\ (forall f,
        In (f, None) entries -> ends_with (py ".csv") f = true ->
        load_data (Some entries) = None
        /\ DATA (fst (admin_rebuild fit_transform true (load_data (Some entries)) s)) = []
        /\ METADATA (fst (admin_rebuild fit_transform true (load_data (Some entries)) s))
           = []
        /\ snd (admin_rebuild fit_transform true (load_data (Some entries)) s)
           = Rebuilt false).
Proof.
  split; [reflexivity|]. split.
  - intros H. unfold load_data. now rewrite (load_files_no_csv entries H).
  - intros f Hin Hcsv.
    assert (E : load_data (Some entries) = None).
    { unfold load_data. now rewrite (load_files_unreadable entries f Hin Hcsv). }
    rewrite E. split; [reflexivity|]. unfold admin_rebuild. cbn [negb].
    change (build_corpus_from_data []) with (@nil str, @nil Meta).
    cbv beta iota zeta. destruct (build_tfidf_index fit_transform []) as [v m].
    now repeat split.
Qed.

Lemma dict_set_in (V : Type) (d : list (str * V)) (key : str) (value : V) k v :
  In (k, v) (dict_set d key value) -> In (k, v) d \/ (k = key /\ v = value).
Proof.
  induction d as [|[k0 v0] d IH]; cbn [dict_set].
  - intros [E | []]. injection E as <- <-. now right.
  - unfold str_eqb. destruct (list_eq_dec ascii_dec k0 key) as [->|Hne].
    + intros [E | Hin]; [injection E as <- <-; now right | left; now right].
    + intros [E | Hin]; [left; now left|].
      destruct (IH Hin) as [H | H]; [left; now right | now right].
Qed.

Lemma load_files_frames (entries : list (str * option DataFrame)) :
  forall all df_dict d,
  (forall e, In e entries -> In e all) ->
  frames_from all df_dict ->
  load_files entries df_dict = Some d ->
  frames_from all d.
Proof.
  induction entries as [|[g content] rest IH]; intros all df_dict d Hsub Hinv H.
  - now injection H as <-.
  - cbn [load_files] in H.
    assert (Hrest : forall e, In e rest -> In e all)
      by (intros e He; apply Hsub; now right).
    destruct (ends_with (py ".csv") g) eqn:Ecsv; [|now apply (IH all df_dict)].
    destruct content as [df|]; [|discriminate].
    apply (IH all _ d Hrest) in H; [exact H|].
    intros cat df0 Hin. apply dict_set_in in Hin as [Hin | [-> ->]].
    + now apply Hinv.
    + exists g, df. repeat split; [|exact Ecsv]. apply Hsub. now left.
Qed.

(** What [strip] returns neither starts nor ends with whitespace, and a text
    of that kind is left as it is. *)
Lemma lstrip_head (s : str) (c : ascii) :
  hd_error (lstrip s) = Some c -> is_space c = false.
Proof.
  induction s as [|a s IH]; [discriminate|].
  cbn [lstrip]. destruct (is_space a) eqn:Ea; [exact IH|].
  intros H. injection H as <-. exact Ea.
Qed.

Lemma lstrip_fixed (s : str) :
  (forall c, hd_error s = Some c -> is_space c = false) -> lstrip s = s.
Proof.
  destruct s as [|a s]; [reflexivity|]. intros H.
  cbn [lstrip]. now rewrite (H a eq_refl).
Qed.

Lemma strip_ends (s : str) (c : ascii) :
  (hd_error (strip s) = Some c -> is_space c = false)
  /\ (hd_error (rev (strip s)) = Some c -> is_space c = false).
Proof.
  split.
  - unfold strip. destruct (rstrip_split (lstrip s)) as [ws [E _]].
    destruct (rstrip (lstrip s)) as [|a t]; [discriminate|].
    intros H. injection H as <-. apply (lstrip_head s). now rewrite E.
  - unfold strip, rstrip. rewrite rev_involutive. apply lstrip_head.
Qed.

Lemma strip_fixed (s : str) :
  (forall c, hd_error s = Some c -> is_space c = false) ->
  (forall c, hd_error (rev s) = Some c -> is_space c = false) ->
  strip s = s.
Proof.
  intros H1 H2. unfold strip, rstrip.
  rewrite (lstrip_fixed s H1), (lstrip_fixed (rev s) H2). apply rev_involutive.
Qed.

Lemma hd_error_map (f : ascii -> ascii) (s : str) (c : ascii) :
  hd_error (map f s) = Some c -> exists a, hd_error s = Some a /\ c = f a.
Proof.
  destruct s as [|a s]; [discriminate|]. intros H. injection H as <-. now exists a.
Qed.

Lemma normalize_label_trimmed (raw : str) :
  strip (normalize_label raw) = normalize_label raw.
Proof.
  unfold normalize_label, lower. rewrite map_map.
  set (f := fun c => if Ascii.eqb (lower_char c) " "%char then "_"%char
                     else lower_char c).
  assert (Hf : forall a, is_space a = false -> is_space (f a) = false).
  { intros a. unfold f. destruct a as [[] [] [] [] [] [] [] []]; trivial. }
  apply strip_fixed; intros c H.
  - apply hd_error_map in H as (a & Ha & ->). apply Hf.
    exact (proj1 (strip_ends raw a) Ha).
  - rewrite <- map_rev in H. apply hd_error_map in H as (a & Ha & ->). apply Hf.
    exact (proj2 (strip_ends raw a) Ha).
Qed.

Lemma normalize_label_lower (raw : str) :
  lower (normalize_label raw) = normalize_label raw.
Proof.
  unfold normalize_label, lower. rewrite map_map.
  induction (strip raw) as [|c l IH]; [reflexivity|].
  cbn [map]. rewrite IH. f_equal.
  clear. destruct c as [[] [] [] [] [] [] [] []]; reflexivity.
Qed.

Lemma normalize_label_no_blank (raw : str) : ~ In " "%char (normalize_label raw).
Proof.
  unfold normalize_label. intros H. apply in_map_iff in H as (c & Hc & _).
  destruct (Ascii.eqb c " "%char) eqn:E; [discriminate|].
  apply Ascii.eqb_neq in E. congruence.
Qed.

Lemma layout_of_lower_labels (cat : str) (r : Row) :
  Forall (fun item => lower (fst item) = fst item) r ->
  document_parts cat r = Spec.document_tokens Spec.important_ci cat r.
Proof.
  intros Hlow. rewrite document_parts_layout. unfold Spec.document_tokens. f_equal.
  induction Hlow as [|[col val] r' Hcol _ IH]; [reflexivity|].
  cbn [flat_map]. rewrite IH. f_equal.
  unfold Spec.field_tokens. cbn [fst snd] in *. now rewrite important_lower.
Qed.

Lemma records_of_in (data : Catalog) (m : Meta) :
  In m (records_of data) ->
  exists df, In (category m, df) data /\ In (index m, row m) df.
Proof.
  unfold records_of. intros H. apply in_flat_map in H as ([cat df] & Hd & H).
  apply in_map_iff in H as ([idx r] & <- & Hr). cbn [fst snd] in *.
  now exists df.
Qed.

(** The records that the loader returns have lower-case field names. *)
Lemma loaded_labels_lower (listing : option (list (str * option DataFrame)))
    (data : Catalog) (cat : str) (df : DataFrame) (idx : Z) (r : Row) :
  load_data listing = Some data -> In (cat, df) data -> In (idx, r) df ->
  Forall (fun item => lower (fst item) = fst item) r.
Proof.
  unfold load_data. destruct listing as [entries|]; [|discriminate].
  destruct (load_files entries []) as [[|e d]|] eqn:E; try discriminate.
  intros H. injection H as <-. intros Hin Hr.
  assert (Hfrom : frames_from entries (e :: d)).
  { apply (load_files_frames entries entries [] (e :: d)); [auto | | exact E].
    intros c f []. }
  destruct (Hfrom cat df Hin) as (f & content & _ & _ & _ & ->).
  unfold normalize_frame in Hr.
  apply in_map_iff in Hr as ([idx0 r0] & Er & _). injection Er as <- <-.
  unfold normalize_row. apply Forall_forall. intros item Hi.
  apply in_map_iff in Hi as ([raw v] & <- & _). cbn [fst].
  apply normalize_label_lower.
Qed.

(** C7.  The records that reach the corpus builder are those of the loader,
    whose field names are in lower case.  For every such record the tokens
    of the document are the category tag three times, then, for each field
    whose cell is not missing and whose text is not empty once stripped,
    the field name once and the stripped text three times when the field
    name contains one of the curated names, letter case apart, and once
    otherwise; a missing or empty cell adds nothing; the text of the
    document is these tokens joined by blanks.  So it is for every document
    of the corpus built from a catalog that the loader returns. *)
Theorem document_layout :
  (forall (cat : str) (r : Row),
     Forall (fun item => lower (fst item) = fst item) r ->
     document_parts cat r = Spec.document_tokens Spec.important_ci cat r
     /\ document_text cat r
        = join (py " ") (Spec.document_tokens Spec.important_ci cat r))
  /\ (forall (listing : option (list (str * option DataFrame))) (data : Catalog)
        (i : nat),
        load_data listing = Some data ->
        nth_error (fst (build_corpus_from_data data)) i
        = option_map
            (fun m => join (py " ")
                        (Spec.document_tokens Spec.important_ci (category m) (row m)))
            (nth_error (snd (build_corpus_from_data data)) i)).
Proof.
  assert (Hrow : forall cat r,
            Forall (fun item : str * Cell => lower (fst item) = fst item) r ->
            document_parts cat r = Spec.document_tokens Spec.important_ci cat r
            /\ document_text cat r
               = join (py " ") (Spec.document_tokens Spec.important_ci cat r)).
  { intros cat r Hlow. pose proof (layout_of_lower_labels cat r Hlow) as E.
    split; [exact E|]. unfold document_text. now rewrite E. }
  split; [exact Hrow|].
  intros listing data i Hload. unfold build_corpus_from_data.
  rewrite fold_add_frame. cbn [fst snd app]. rewrite nth_error_map.
  destruct (nth_error (records_of data) i) as [m|] eqn:E; [|reflexivity].
  cbn [option_map]. f_equal. apply Hrow.
  apply nth_error_In in E. apply records_of_in in E as (df & Hd & Hr).
  exact (loaded_labels_lower listing data (category m) df (index m) (row m)
           Hload Hd Hr).
Qed.

(** X27. What the loader returns is made of the CSV files only: each frame
    is that of a file whose name ends in ".csv", under the file name
    without that ending, and every column name in it is trimmed,
    lower-case and free of spaces.  On such data the corpus builder gives a
    field the weight 3 exactly when its name holds one of the curated names
    in any letter case. *)
Theorem loaded_frames_are_normalized (listing : option (list (str * option DataFrame)))
    (data : Catalog) :
  load_data listing = Some data ->
  data <> []
  /\ forall cat df, In (cat, df) data ->
       (exists entries f content,
          listing = Some entries /\ In (f, Some content) entries
          /\ ends_with (py ".csv") f = true
          /\ cat = splitext_root f /\ df = normalize_frame content)
       /\ forall idx r, In (idx, r) df ->
            Forall (fun item => strip (fst item) = fst item
                                /\ lower (fst item) = fst item
                                /\ ~ In " "%char (fst item)) r
            /\ document_parts cat r = Spec.document_tokens Spec.important_ci cat r.
Proof.
  unfold load_data. destruct listing as [entries|]; [|discriminate].
  destruct (load_files entries []) as [[|e d]|] eqn:E; try discriminate.
  intros H. injection H as <-. split; [discriminate|].
  assert (Hfrom : frames_from entries (e :: d)).
  { apply (load_files_frames entries entries [] (e :: d)); [auto | | exact E].
    intros cat df []. }
  intros cat df Hin. destruct (Hfrom cat df Hin) as (f & content & Hf & Hcsv & -> & ->).
  split; [now exists entries, f, content|].
  intros idx r Hr. unfold normalize_frame in Hr.
  apply in_map_iff in Hr as ([idx0 r0] & Er & _). injection Er as <- <-.
  assert (Hlab : Forall (fun item : str * Cell =>
                   strip (fst item) = fst item /\ lower (fst item) = fst item
                   /\ ~ In " "%char (fst item))
                   (normalize_row r0)).
  { unfold normalize_row. apply Forall_forall. intros item Hi.
    apply in_map_iff in Hi as ([raw v] & <- & _). cbn [fst].
    split; [apply normalize_label_trimmed|].
    split; [apply normalize_label_lower | apply normalize_label_no_blank]. }
  split; [exact Hlab|]. apply layout_of_lower_labels.
  eapply Forall_impl; [|exact Hlab]. cbn beta. now intros item (_ & H & _).
Qed.

End LoaderFacts.

(** ** Pages of the search results *)

Section PageFacts.

Variable A : Type.

Lemma firstn_add (a b : nat) : forall l : list A,
  firstn (a + b) l = firstn a l ++ firstn b (skipn a l).
Proof.
  induction a as [|a IH]; intros l; [reflexivity|].
  destruct l as [|x l]; [now rewrite !firstn_nil|].
  cbn [Nat.add firstn skipn app]. now rewrite IH.
Qed.

Lemma chunks_concat (ps n : nat) (l : list A) :
  flat_map (fun i => firstn ps (skipn (i * ps) l)) (seq 0 n) = firstn (n * ps) l.
Proof.
  induction n as [|n IH]; [reflexivity|].
  rewrite seq_S, flat_map_app, IH. cbn [flat_map Nat.add].
  rewrite app_nil_r. replace (S n * ps)%nat with (n * ps + ps)%nat by lia.
  now rewrite firstn_add.
Qed.

Lemma py_slice_forward (l : list A) (a b : Z) :
  (0 <= a <= b)%Z ->
  py_slice l a b = firstn (Z.to_nat (b - a)) (skipn (Z.to_nat a) l).
Proof.
  intros Hab. unfold py_slice, py_bound.
  replace (a <? 0)%Z with false by (symmetry; apply Z.ltb_ge; lia).
  replace (b <? 0)%Z with false by (symmetry; apply Z.ltb_ge; lia).
  set (len := List.length l).
  destruct (Z_le_gt_dec (Z.of_nat len) a) as [Hbig | Hsmall].
  - rewrite !skipn_all2 by (fold len; lia). now rewrite !firstn_nil.
  - replace (Z.min a (Z.of_nat len)) with a by lia.
    destruct (Z_le_gt_dec b (Z.of_nat len)) as [Hb | Hb].
    + now replace (Z.min b (Z.of_nat len)) with b by lia.
    + replace (Z.min b (Z.of_nat len)) with (Z.of_nat len) by lia.
      rewrite !firstn_all2; [reflexivity | |]; rewrite length_skipn; fold len; lia.
Qed.

(** X28. With a page size of at least one the pages split the results: every
    page from 1 on has at most [page_size] items, the pages up to the page
    count put one after the other are the results, each once and in order,
    and a page beyond the count is empty.  A page size of 0 gives no page
    but the error. *)
Theorem pages_split_the_results (all_results : list A) (page_size : Z) :
  (1 <= page_size)%Z ->
  let total_pages :=
    ((Z.of_nat (List.length all_results) + page_size - 1) / page_size)%Z in
  (forall page, (1 <= page)%Z ->
     exists items,
       paginate all_results page page_size = Some (items, total_pages)
       /\ (Z.of_nat (List.length items) <= page_size)%Z
       /\ ((total_pages < page)%Z -> items = []))
  /\ flat_map (fun i => match paginate all_results (Z.of_nat i + 1) page_size with
                        | Some (items, _) => items
                        | None => []
                        end)
       (seq 0 (Z.to_nat total_pages))
     = all_results
  /\ (forall page, paginate all_results page 0 = None).
Proof.
  intros Hps total_pages.
  set (ps := Z.to_nat page_size).
  set (len := List.length all_results) in *.
  assert (Hpage : forall page, (1 <= page)%Z ->
            paginate all_results page page_size
            = Some (firstn ps (skipn (Z.to_nat (page - 1) * ps) all_results),
                    total_pages)).
  { intros page Hp. unfold paginate.
    replace (page_size =? 0)%Z with false by (symmetry; apply Z.eqb_neq; lia).
    rewrite py_slice_forward by nia. fold len. fold total_pages. do 2 f_equal.
    replace ((page - 1) * page_size + page_size - (page - 1) * page_size)%Z
      with page_size by lia.
    fold ps. f_equal. unfold ps. rewrite Z2Nat.inj_mul by lia. reflexivity. }
  assert (Hcover : (Z.of_nat len <= total_pages * page_size)%Z).
  { unfold total_pages.
    pose proof (Z.div_mod (Z.of_nat len + page_size - 1) page_size ltac:(lia)) as Hd.
    pose proof (Z.mod_pos_bound (Z.of_nat len + page_size - 1) page_size ltac:(lia)).
    nia. }
  assert (Htp : (0 <= total_pages)%Z).
  { unfold total_pages. apply Z.div_pos; lia. }
  repeat split.
  - intros page Hp. eexists. split; [exact (Hpage page Hp)|]. split.
    + pose proof (firstn_le_length ps
                    (skipn (Z.to_nat (page - 1) * ps) all_results)). unfold ps in *. lia.
    + intros Hbeyond. rewrite skipn_all2; [apply firstn_nil|]. fold len.
      assert (Hz : (Z.of_nat len <= (page - 1) * page_size)%Z) by nia.
      unfold ps. rewrite <- Z2Nat.inj_mul by lia. lia.
  - erewrite flat_map_ext.
    + rewrite (chunks_concat ps (Z.to_nat total_pages) all_results).
      apply firstn_all2. fold len. unfold ps. rewrite <- Z2Nat.inj_mul by lia. lia.
    + intros i. cbv beta. rewrite Hpage by lia.
      now replace (Z.to_nat (Z.of_nat i + 1 - 1)) with i by lia.
Qed.

End PageFacts.

Lemma document_layout_witness :
  let r := [(py "brand", Some (py " HP ")); (py "colour", Some (py "red"));
            (py "weight", None)] in
  let listing := Some [(py "laptop.csv",
                        Some [(0%Z, [(py " Brand", Some (py " HP "));
                                     (py "Screen Size", Some (py "15"))])])] in
  Forall (fun item => lower (fst item) = fst item) r
  /\ document_text (py "laptop") r
     = py "laptop laptop laptop brand HP HP HP colour red"
  /\ load_data listing
     = Some [(py "laptop", [(0%Z, [(py "brand", Some (py " HP "));
                                   (py "screen_size", Some (py "15"))])])]
  /\ nth_error
       (fst (build_corpus_from_data
               [(py "laptop", [(0%Z, [(py "brand", Some (py " HP "));
                                      (py "screen_size", Some (py "15"))])])])) 0
     = Some (py "laptop laptop laptop brand HP HP HP screen_size 15").
Proof.
  assert (H : Forall (fun item : str * Cell => lower (fst item) = fst item)
                [(py "brand", Some (py " HP ")); (py "colour", Some (py "red"));
                 (py "weight", None)]).
  { repeat constructor. }
  destruct document_layout as [Hrow Hcorpus].
  split; [exact H|]. split; [|split; [reflexivity|]].
  - rewrite (proj2 (Hrow (py "laptop") _ H)). reflexivity.
  - rewrite (Hcorpus
               (Some [(py "laptop.csv",
                       Some [(0%Z, [(py " Brand", Some (py " HP "));
                                    (py "Screen Size", Some (py "15"))])])])
               [(py "laptop", [(0%Z, [(py "brand", Some (py " HP "));
                                      (py "screen_size", Some (py "15"))])])]
               0%nat eq_refl).
    reflexivity.
Defined.

Lemma one_unreadable_csv_drops_the_catalog_witness :
  let entries := [(py "laptop.csv", Some [(0%Z, [(py "Name", Some (py "Dell"))])]);
                  (py "mobile.csv", None)] in
  In (py "mobile.csv", None) entries
  /\ ends_with (py ".csv") (py "mobile.csv") = true
  /\ load_data (Some entries) = None.
Proof.
  split; [right; left; reflexivity|]. split; [reflexivity|].
  destruct (one_unreadable_csv_drops_the_catalog unit (list Q) Demo.fit
              [(py "laptop.csv", Some [(0%Z, [(py "Name", Some (py "Dell"))])]);
               (py "mobile.csv", None)]
              (mkServer [] [] [] None None None)) as (_ & _ & H).
  exact (proj1 (H (py "mobile.csv") (or_intror (or_introl eq_refl)) eq_refl)).
Defined.

Lemma loaded_frames_are_normalized_witness :
  let listing := Some [(py "laptop.csv",
                        Some [(0%Z, [(py " Brand Name ", Some (py "Dell"))])]);
                       (py "notes.txt", None)] in
  load_data listing
  = Some [(py "laptop", [(0%Z, [(py "brand_name", Some (py "Dell"))])])]
  /\ document_parts (py "laptop") [(py "brand_name", Some (py "Dell"))]
     = Spec.document_tokens Spec.important_ci (py "laptop")
         [(py "brand_name", Some (py "Dell"))].
Proof.
  split; [reflexivity|].
  destruct (loaded_frames_are_normalized
              (Some [(py "laptop.csv",
                      Some [(0%Z, [(py " Brand Name ", Some (py "Dell"))])]);
                     (py "notes.txt", None)])
              [(py "laptop", [(0%Z, [(py "brand_name", Some (py "Dell"))])])]
              eq_refl) as [_ H].
  destruct (H (py "laptop") [(0%Z, [(py "brand_name", Some (py "Dell"))])]
              (or_introl eq_refl)) as [_ Hrows].
  exact (proj2 (Hrows 0%Z [(py "brand_name", Some (py "Dell"))] (or_introl eq_refl))).
Defined.

Lemma pages_split_the_results_witness :
  paginate [1; 2; 3; 4; 5]%nat 2 2 = Some ([3; 4]%nat, 3%Z)
  /\ flat_map (fun i => match paginate [1; 2; 3; 4; 5]%nat (Z.of_nat i + 1) 2 with
                        | Some (items, _) => items
                        | None => []
                        end) (seq 0 3)
     = [1; 2; 3; 4; 5]%nat.
Proof.
  split; [reflexivity|].
  exact (proj1 (proj2 (pages_split_the_results nat [1; 2; 3; 4; 5]%nat 2
                         ltac:(lia)))).
Defined.
